(** * PetChain mobile client: request pipeline, offline queue, token check

    A shallow embedding of TypeScript modules of the repository,

    - [backend/middleware/apiInterceptors.ts]  (module [Interceptors]),
    - [backend/services/syncService.ts]        (module [Sync]),
    - [backend/services/authService.ts]        (module [Auth]),
    - [backend/middleware/errorHandler.ts]     (module [ErrorHandler]),
    - [backend/services/appointmentService.ts] (module [Appointments]),
    - [backend/utils/dateUtils.ts]             (module [DateUtils]),
    - [backend/utils/validators.ts]            (module [Validators]),
    - [backend/services/loggerService.ts]      (module [Logger]),

    together with the small part of axios they stand on (module [Axios]).

    Asynchronous functions are written in state-passing style: a promise
    that settles is a value of [Outcome] paired with the state reached
    when it settles.  Where calls overlap, a call is followed from one
    [await] to the next and the calls take their steps in turn.
    JavaScript numbers that hold counters, HTTP status codes and epoch
    timestamps are integers ([nat] for counters that start at zero and
    only grow, [Z] otherwise); where the code subtracts and divides time
    values, the rounding of doubles is written out. *)

From Stdlib Require Import List String Ascii ZArith Bool Lia PeanoNat DecimalString.
From Stdlib Require Import Sorted Permutation.
Import ListNotations.
Open Scope string_scope.
Open Scope list_scope.

(* ================================================================== *)
(** * The axios client                                                 *)
(* ================================================================== *)

Module Axios.

Inductive Method := GET | POST | PUT | DELETE.

(** [item.data] of the sync queue (declared [any]): the two things the
    code reads from it are its [id] and the value as a whole. *)
Record Payload := mkPayload {
  payload_id : option string;
  payload_fields : string
}.

Inductive Body :=
| NoBody
| RefreshBody (refreshToken : string)      (* { refreshToken } *)
| DataBody (d : Payload).

(** [InternalAxiosRequestConfig & { _retry?: boolean }].  An absent
    [_retry] is [false]; of the headers only [Authorization] is read
    or written by the code. *)
Record Config := mkConfig {
  method : Method;
  url : string;
  body : Body;
  Authorization : option string;
  _retry : bool
}.

(** [interface TokenResponse]. *)
Record TokenResponse := mkTokens {
  accessToken : string;
  refreshToken : string
}.

(** A response as the interceptor sees it.  The only place the code
    looks into a body is [apiClient.post<TokenResponse>], so [data]
    carries that view; other bodies pass through unread. *)
Record Response := mkResponse {
  status : Z;
  data : TokenResponse
}.

(** [AxiosError]: [error.config] and [error.response] (absent when
    no response was received). *)
Record AxiosError := mkError {
  err_config : Config;
  err_response : option Response
}.

(** How a promise returned by the client settles. *)
Inductive Outcome :=
| Resolved (r : Response)
| Rejected (e : AxiosError).

(** What the network gives back for one request. *)
Inductive Reply :=
| Answer (r : Response)
| NoAnswer.

(** The remote side: its reply may depend on every request it has
    seen before (given oldest first) and on the request itself. *)
Definition Server := list Config -> Config -> Reply.

(** axios' default [validateStatus]. *)
Definition validateStatus (s : Z) : bool := (200 <=? s)%Z && (s <? 300)%Z.

(** One trip through the adapter: the request is recorded as sent,
    a 2xx answer resolves, anything else rejects. *)
Definition transport (server : Server) (sent : list Config) (config : Config)
  : list Config * Outcome :=
  let sent' := sent ++ [config] in
  match server sent config with
  | NoAnswer => (sent', Rejected (mkError config None))
  | Answer r =>
      if validateStatus (status r) then (sent', Resolved r)
      else (sent', Rejected (mkError config (Some r)))
  end.

(** [apiClient.post(url, data)] and friends build a fresh config. *)
Definition request (m : Method) (u : string) (b : Body) : Config :=
  mkConfig m u b None false.

(** JavaScript truthiness of [string | null]. *)
Definition truthy (s : option string) : bool :=
  match s with
  | None => false
  | Some t => negb (t =? "")
  end.

(** A server that replays a fixed script, one reply per request. *)
Definition scripted (script : list Reply) : Server :=
  fun sent _ => nth (List.length sent) script NoAnswer.

Definition answer (s : Z) : Reply := Answer (mkResponse s (mkTokens "" "")).

End Axios.

(* ================================================================== *)
(** * backend/middleware/apiInterceptors.ts                            *)
(* ================================================================== *)

Module Interceptors.
Import Axios.

(** AsyncStorage, restricted to the two keys the interceptors use:
    [ACCESS_TOKEN_KEY = '@access_token'] and
    [REFRESH_TOKEN_KEY = '@refresh_token']. *)
Record Storage := mkStorage {
  access_token : option string;
  refresh_token : option string
}.

Record State := mkState {
  storage : Storage;
  log : list Config          (* requests handed to the network, oldest first *)
}.

Definition REFRESH_URL : string := "/auth/refresh".

(** Request interceptor (lines 22-37). *)
Definition requestInterceptor (config : Config) (st : State) : Config :=
  match access_token (storage st) with
  | Some token =>
      if truthy (Some token)
      then mkConfig (method config) (url config) (body config)
                    (Some ("Bearer " ++ token)%string) (_retry config)
      else config
  | None => config
  end.

Definition set_retry (config : Config) : Config :=
  mkConfig (method config) (url config) (body config) (Authorization config) true.

Definition set_Authorization (config : Config) (h : string) : Config :=
  mkConfig (method config) (url config) (body config) (Some h) (_retry config).

Definition is401 (error : AxiosError) : bool :=
  match err_response error with
  | Some r => (status r =? 401)%Z
  | None => false
  end.

(** The client as the interceptors call it back: the state reached,
    and how the promise settled, if it has. *)
Definition Client := Config -> State -> State * option Outcome.

(** Response interceptor, rejection branch (lines 42-95).
    [error.config] and [originalRequest] are one object, so the error
    that is re-thrown carries the [_retry] mark once it is set. *)
Definition responseRejected (apiClient : Client) (error : AxiosError) (st : State)
  : State * option Outcome :=
  let originalRequest := err_config error in
  if is401 error && negb (_retry originalRequest) then
    let originalRequest := set_retry originalRequest in
    let error := mkError originalRequest (err_response error) in
    (* try *)
    match refresh_token (storage st) with   (* AsyncStorage.getItem(REFRESH_TOKEN_KEY) *)
    | Some rt =>
        if truthy (Some rt) then
          match apiClient (request POST REFRESH_URL (RefreshBody rt)) st with
          | (st1, None) => (st1, None)
          | (st1, Some (Resolved response)) =>
              let t := data response in
              let st2 := mkState (mkStorage (Some (accessToken t))
                                            (Some (refreshToken t)))
                                 (log st1) in
              let originalRequest :=
                set_Authorization originalRequest ("Bearer " ++ accessToken t)%string in
              (* returned without await: a rejection here is not caught below *)
              apiClient originalRequest st2
          | (st1, Some (Rejected refreshError)) =>
              (* catch (refreshError) *)
              let st2 := mkState (mkStorage None None) (log st1) in
              (st2, Some (Rejected refreshError))
          end
        else (st, Some (Rejected error))
    | None => (st, Some (Rejected error))
    end
  else (st, Some (Rejected error)).

(** A promise that has settled. *)
Definition settled (r : State * Outcome) : State * option Outcome :=
  (fst r, Some (snd r)).

Section Pipeline.
Variable server : Server.

(** Request interceptor, then the network. *)
Definition dispatch (config : Config) (st : State) : State * Outcome :=
  let config := requestInterceptor config st in
  let (sent, out) := transport server (log st) config in
  (mkState (storage st) sent, out).

(** Response interceptor: successes pass, rejections are handled. *)
Definition settle (apiClient : Client) (out : Outcome) (st : State)
  : State * option Outcome :=
  match out with
  | Resolved response => (st, Some (Resolved response))
  | Rejected error => responseRejected apiClient error st
  end.

(** [apiClient(config)] with both interceptors installed.  The fuel
    bounds the depth of calls the rejection handler makes back into
    the client.  The result is the state reached and how the promise
    settled; [None] there means it has not settled within the fuel. *)
Fixpoint send (fuel : nat) (config : Config) (st : State)
  : State * option Outcome :=
  match fuel with
  | O => (st, None)
  | S fuel' =>
      let (st1, out) := dispatch config st in
      settle (send fuel') out st1
  end.

(** ** Calls that overlap *)

(** Every [await] of the interceptors is a point where another call
    of the client can go on.  A call is followed from one such point
    to the next.  [waiting] lists the rejection handlers that have
    called the client for a refresh and wait for that call to settle,
    innermost first, each by the error it handles. *)
Inductive Task :=
(** the request interceptor waits for the access token (line 25) *)
| Intercept (config : Config) (waiting : list AxiosError)
(** the request is with the adapter *)
| Wire (config : Config) (waiting : list AxiosError)
(** the adapter has settled; the response interceptor has not run *)
| Answered (out : Outcome) (waiting : list AxiosError)
(** the handler waits for the refresh token (line 51) *)
| ReadRefresh (error : AxiosError) (waiting : list AxiosError)
(** the handler has the new tokens and waits for them to be stored
    (line 68) *)
| StoreTokens (t : TokenResponse) (error : AxiosError) (waiting : list AxiosError)
(** the handler has caught [refreshError] and waits for the tokens to
    be removed (line 83) *)
| ClearTokens (refreshError : AxiosError) (waiting : list AxiosError)
(** the caller has its outcome *)
| Done (out : Outcome).

(** A call of the client settles: the outcome goes to the caller, or
    to the handler that made the call (lines 61-65, 80). *)
Definition deliver (out : Outcome) (waiting : list AxiosError) : Task :=
  match waiting with
  | [] => Done out
  | error :: waiting' =>
      match out with
      | Resolved response => StoreTokens (data response) error waiting'
      | Rejected refreshError => ClearTokens refreshError waiting'
      end
  end.

(** From one [await] to the next.  What a call waits for takes effect
    in the step that ends the wait: there the storage is read or
    written, and there the request reaches the server and is
    answered. *)
Definition step (task : Task) (st : State) : Task * State :=
  match task with
  | Intercept config waiting =>
      (Wire (requestInterceptor config st) waiting, st)
  | Wire config waiting =>
      let (sent, out) := transport server (log st) config in
      (Answered out waiting, mkState (storage st) sent)
  | Answered (Resolved response) waiting =>
      (deliver (Resolved response) waiting, st)
  | Answered (Rejected error) waiting =>
      let originalRequest := err_config error in
      if is401 error && negb (_retry originalRequest) then
        let originalRequest := set_retry originalRequest in
        (ReadRefresh (mkError originalRequest (err_response error)) waiting, st)
      else (deliver (Rejected error) waiting, st)
  | ReadRefresh error waiting =>
      match refresh_token (storage st) with
      | Some rt =>
          if truthy (Some rt)
          then (Intercept (request POST REFRESH_URL (RefreshBody rt))
                          (error :: waiting), st)
          else (deliver (Rejected error) waiting, st)
      | None => (deliver (Rejected error) waiting, st)
      end
  | StoreTokens t error waiting =>
      (Intercept (set_Authorization (err_config error)
                    ("Bearer " ++ accessToken t)%string) waiting,
       mkState (mkStorage (Some (accessToken t)) (Some (refreshToken t))) (log st))
  | ClearTokens refreshError waiting =>
      (deliver (Rejected refreshError) waiting,
       mkState (mkStorage None None) (log st))
  | Done out => (Done out, st)
  end.

(** One call followed for [n] steps. *)
Fixpoint steps (n : nat) (task : Task) (st : State) : Task * State :=
  match n with
  | O => (task, st)
  | S n' => let (task', st') := step task st in steps n' task' st'
  end.

(** Two calls of the client under way at once, over the one storage
    and the one network. *)
Inductive Caller := callerA | callerB.

Definition turn (who : Caller) (s : Task * Task * State) : Task * Task * State :=
  let '(a, b, st) := s in
  match who with
  | callerA => let (a', st') := step a st in (a', b, st')
  | callerB => let (b', st') := step b st in (a, b', st')
  end.

(** The two calls taking their steps in the order [schedule] gives. *)
Fixpoint interleave (schedule : list Caller) (s : Task * Task * State)
  : Task * Task * State :=
  match schedule with
  | [] => s
  | who :: rest => interleave rest (turn who s)
  end.

End Pipeline.

(** How many steps [schedule] gives to [who]. *)
Fixpoint turns (who : Caller) (schedule : list Caller) : nat :=
  match schedule with
  | [] => 0
  | callerA :: rest =>
      match who with callerA => S (turns who rest) | callerB => turns who rest end
  | callerB :: rest =>
      match who with callerA => turns who rest | callerB => S (turns who rest) end
  end.

(** The two callers taking turns, [n] steps each. *)
Fixpoint alternate (n : nat) : list Caller :=
  match n with
  | O => []
  | S n' => callerA :: callerB :: alternate n'
  end.

Definition is_refresh (config : Config) : bool :=
  (url config =? REFRESH_URL) &&
  match method config with POST => true | _ => false end.

Definition refresh_calls (l : list Config) : nat :=
  List.length (filter is_refresh l).

Definition calls_to (u : string) (l : list Config) : nat :=
  List.length (filter (fun c => url c =? u) l).

(** The error a handler works on, once it has marked the request. *)
Definition marked (error : AxiosError) : AxiosError :=
  mkError (set_retry (err_config error)) (err_response error).

(** The retry of the request of [error] as the handler hands it to
    the client, with the access token [tok]. *)
Definition retried (error : AxiosError) (tok : string) : Config :=
  set_Authorization (set_retry (err_config error)) ("Bearer " ++ tok)%string.

(** The way of a rejection handler whose refresh call is answered
    with tokens, step by step, from the 401 it is given to the
    outcome of the retry.  [issued] holds of the access tokens the
    refresh endpoint hands out. *)
Inductive handling (issued : string -> Prop) (error : AxiosError) : nat -> Task -> Prop :=
| handling_answered :
    handling issued error 0 (Answered (Rejected error) [])
| handling_reading :
    handling issued error 1 (ReadRefresh (marked error) [])
| handling_refresh rt :
    truthy (Some rt) = true ->
    handling issued error 2
      (Intercept (request POST REFRESH_URL (RefreshBody rt)) [marked error])
| handling_refresh_sent c :
    is_refresh c = true ->
    handling issued error 3 (Wire c [marked error])
| handling_refreshed r :
    truthy (Some (refreshToken (data r))) = true ->
    issued (accessToken (data r)) ->
    handling issued error 4 (Answered (Resolved r) [marked error])
| handling_storing t :
    truthy (Some (refreshToken t)) = true ->
    issued (accessToken t) ->
    handling issued error 5 (StoreTokens t (marked error) [])
| handling_retry tok :
    issued tok ->
    handling issued error 6 (Intercept (retried error tok) [])
| handling_retry_sent tok :
    issued tok ->
    handling issued error 7 (Wire (retried error tok) [])
| handling_retry_answered out :
    (forall e, out = Rejected e -> _retry (err_config e) = true) ->
    handling issued error 8 (Answered out [])
| handling_done out :
    handling issued error 9 (Done out).

(** 1 once step [stage] has been taken, 0 before. *)
Definition reached (stage k : nat) : nat := if (stage <=? k)%nat then 1 else 0.

(** Two handlers under way over one storage and one network, [kA]
    and [kB] steps into their work: the refresh token in storage can
    be used, the access token is an issued one once either handler
    has stored its tokens, and of the requests sent since the
    handlers began ([log0] is the log then) each handler has sent its
    refresh call by its step 4 and its retry by its step 8. *)
Definition overlapping (issued : string -> Prop) (errorA errorB : AxiosError)
           (log0 : list Config) (kA kB : nat) (s : Task * Task * State) : Prop :=
  let '(a, b, st) := s in
  handling issued errorA kA a
  /\ handling issued errorB kB b
  /\ truthy (refresh_token (storage st)) = true
  /\ (6 <= kA \/ 6 <= kB ->
      exists tok, access_token (storage st) = Some tok /\ issued tok)
  /\ exists new,
      log st = log0 ++ new
      /\ refresh_calls new = reached 4 kA + reached 4 kB
      /\ List.length new = reached 4 kA + reached 4 kB + reached 8 kA + reached 8 kB
      /\ (8 <= kA -> exists tok, issued tok /\ In (retried errorA tok) new)
      /\ (8 <= kB -> exists tok, issued tok /\ In (retried errorB tok) new).

(** The shapes a dispatch can take: one request goes out, the
    storage is left alone, and a rejection carries the request as
    it was sent. *)
Inductive dispatched (config : Config) (st : State) : State * Outcome -> Prop :=
| dispatched_resolved r :
    dispatched config st
      (mkState (storage st) (log st ++ [requestInterceptor config st]), Resolved r)
| dispatched_rejected resp :
    dispatched config st
      (mkState (storage st) (log st ++ [requestInterceptor config st]),
       Rejected (mkError (requestInterceptor config st) resp)).

End Interceptors.

(* ================================================================== *)
(** * backend/services/syncService.ts                                  *)
(* ================================================================== *)

Module Sync.

Inductive ItemType := pet | appointment | medication.
Inductive Action := create | update | delete.

(** [interface SyncItem].  [data] is declared [any]; [None] stands
    for [null] or [undefined]. *)
Record SyncItem := mkItem {
  id : string;
  type : ItemType;
  action : Action;
  data : option Axios.Payload;
  timestamp : Z;
  retries : nat
}.

(** [interface SyncStatus]. *)
Record SyncStatus := mkStatus {
  isSyncing : bool;
  lastSync : option Z;
  pendingCount : nat;
  failedCount : nat
}.

(** [Partial<SyncStatus>]: the fields an update mentions. *)
Record StatusUpdate := mkUpdate {
  set_isSyncing : option bool;
  set_lastSync : option Z;
  set_pendingCount : option nat;
  set_failedCount : option nat
}.

Definition MAX_RETRIES : nat := 3.

Definition initialStatus : SyncStatus := mkStatus false None 0 0.

Definition type_name (t : ItemType) : string :=
  match t with
  | pet => "pet"
  | appointment => "appointment"
  | medication => "medication"
  end.

(** What a rejected [syncItem] throws: the client's error, or the
    [TypeError] of reading [id] from a missing [data]. *)
Inductive Thrown :=
| ClientError (e : Axios.AxiosError)
| TypeError.

(** [{ ...this.syncStatus, ...updates }] *)
Definition merge (s : SyncStatus) (u : StatusUpdate) : SyncStatus :=
  mkStatus
    (match set_isSyncing u with Some b => b | None => isSyncing s end)
    (match set_lastSync u with Some t => Some t | None => lastSync s end)
    (match set_pendingCount u with Some n => n | None => pendingCount s end)
    (match set_failedCount u with Some n => n | None => failedCount s end).

Definition bump (item : SyncItem) : SyncItem :=
  mkItem (id item) (type item) (action item) (data item) (timestamp item)
         (S (retries item)).

(** Rendering of [item.data.id] inside a template string. *)
Definition show_id (d : Axios.Payload) : string :=
  match Axios.payload_id d with
  | Some i => i
  | None => "undefined"
  end.

Section Service.
(** [apiClient: any]: whatever is passed in, it answers each call by
    settling; [W] is everything it may touch while doing so. *)
Variable W : Type.
Variable apiClient : Axios.Config -> W -> W * Axios.Outcome.

(** The service object with the two AsyncStorage keys it owns
    ([SYNC_QUEUE_KEY], [SYNC_STATUS_KEY]; values are stored as JSON
    and read back unchanged) and the world behind the client. *)
Record State := mkState {
  syncStatus : SyncStatus;
  stored_queue : option (list SyncItem);
  stored_status : option SyncStatus;
  world : W
}.

Definition getQueue (st : State) : list SyncItem :=
  match stored_queue st with
  | Some q => q
  | None => []
  end.

Definition getStatus (st : State) : SyncStatus :=
  match stored_status st with
  | Some s => s
  | None => syncStatus st
  end.

Definition updateStatus (updates : StatusUpdate) (st : State) : State :=
  let s := merge (syncStatus st) updates in
  mkState s (stored_queue st) (Some s) (world st).

Definition setQueue (q : list SyncItem) (st : State) : State :=
  mkState (syncStatus st) (Some q) (stored_status st) (world st).

(** [addToQueue]; [now1] and [now2] are the two readings of
    [Date.now()], [rnd] the rendering of [Math.random()]. *)
Definition addToQueue (now1 now2 : Z) (rnd : string)
           (t : ItemType) (a : Action) (d : option Axios.Payload) (st : State)
  : State :=
  let queue := getQueue st in
  let item :=
    mkItem (type_name t ++ "_" ++ DecimalString.NilZero.string_of_int (Z.to_int now1)
              ++ "_" ++ rnd)%string
           t a d now2 0 in
  let queue := queue ++ [item] in
  let st := setQueue queue st in
  updateStatus (mkUpdate None None (Some (List.length queue)) None) st.

Definition await (r : W * Axios.Outcome) : W * option Thrown :=
  match r with
  | (w, Axios.Resolved _) => (w, None)
  | (w, Axios.Rejected e) => (w, Some (ClientError e))
  end.

(** [syncItem]: [None] when it returns, [Some] what it throws. *)
Definition syncItem (item : SyncItem) (w : W) : W * option Thrown :=
  let endpoint := ("/" ++ type_name (type item) ++ "s")%string in
  match action item with
  | create =>
      let b := match data item with
               | Some d => Axios.DataBody d
               | None => Axios.NoBody
               end in
      await (apiClient (Axios.request Axios.POST endpoint b) w)
  | update =>
      match data item with
      | None => (w, Some TypeError)
      | Some d =>
          await (apiClient (Axios.request Axios.PUT
                              (endpoint ++ "/" ++ show_id d)%string
                              (Axios.DataBody d)) w)
      end
  | delete =>
      match data item with
      | None => (w, Some TypeError)
      | Some d =>
          await (apiClient (Axios.request Axios.DELETE
                              (endpoint ++ "/" ++ show_id d)%string
                              Axios.NoBody) w)
      end
  end.

(** The [for (const item of queue)] loop of [sync], with the array
    [failed] it fills. *)
Fixpoint syncLoop (queue failed : list SyncItem) (w : W)
  : list SyncItem * W :=
  match queue with
  | [] => (failed, w)
  | item :: rest =>
      match syncItem item w with
      | (w', None) => syncLoop rest failed w'
      | (w', Some _) =>
          let item := bump item in
          if (retries item <? MAX_RETRIES)%nat
          then syncLoop rest (failed ++ [item]) w'
          else syncLoop rest failed w'
      end
  end.

(** [sync]; [now] is the reading of [Date.now()] at the end. *)
Definition sync (now : Z) (st : State) : State :=
  if isSyncing (syncStatus st) then st
  else
    let st := updateStatus (mkUpdate (Some true) None None None) st in
    let queue := getQueue st in
    let (failed, w) := syncLoop queue [] (world st) in
    let st := mkState (syncStatus st) (Some failed) (stored_status st) w in
    updateStatus
      (mkUpdate (Some false) (Some now) (Some (List.length failed))
         (Some (List.length
                  (filter (fun i => (MAX_RETRIES <=? retries i)%nat) failed))))
      st.

Definition clearQueue (st : State) : State :=
  let st := setQueue [] st in
  updateStatus (mkUpdate None None (Some 0) (Some 0)) st.

(** The pending count on record is the length of the stored queue. *)
Definition counted (st : State) : Prop :=
  exists s, stored_status st = Some s /\
            pendingCount s = List.length (getQueue st).

(** [n] flushes in a row. *)
Fixpoint flushes (n : nat) (now : Z) (st : State) : State :=
  match n with
  | O => st
  | S n' => flushes n' now (sync now st)
  end.

End Service.

Arguments mkState {W}.
Arguments syncStatus {W}.
Arguments stored_queue {W}.
Arguments stored_status {W}.
Arguments world {W}.
Arguments getQueue {W}.
Arguments getStatus {W}.
Arguments updateStatus {W}.
Arguments setQueue {W}.
Arguments addToQueue {W}.
Arguments clearQueue {W}.
Arguments syncItem {W}.
Arguments syncLoop {W}.
Arguments sync {W}.
Arguments flushes {W}.
Arguments counted {W}.

(** What one pass leaves of a single entry whose dispatch failed:
    the entry with one more retry on record, unless that uses up
    the retries. *)
Definition keep (item : SyncItem) : list SyncItem :=
  if (S (retries item) <? MAX_RETRIES)%nat then [bump item] else [].

(** ** [handleConflict] *)

(** A primitive value.  Numbers are integers or [NaN]; a string is
    given by its code units. *)
Inductive Prim :=
| PUndefined
| PNull
| PBool (b : bool)
| PNum (n : Z)
| PNaN
| PStr (s : string).

(** A value of type [any]: a primitive, or an object.  Of an object
    the code uses only the primitive it converts to when compared
    ([None] when that conversion throws). *)
Inductive Value :=
| Primitive (p : Prim)
| Object (toPrimitive : option Prim).

(** The data handed to [handleConflict] (declared [any]): the two
    members it reads ([PUndefined] for a member that is missing) and
    the rest. *)
Module Doc.
Record t := mk {
  updatedAt : Value;
  timestamp : Value;
  content : string
}.
End Doc.

(** JavaScript truthiness. *)
Definition truthy (v : Value) : bool :=
  match v with
  | Object _ => true
  | Primitive PUndefined => false
  | Primitive PNull => false
  | Primitive (PBool b) => b
  | Primitive (PNum n) => negb (n =? 0)%Z
  | Primitive PNaN => false
  | Primitive (PStr s) => negb (s =? "")%string
  end.

(** [x || y] *)
Definition or_else (x y : Value) : Value := if truthy x then x else y.

(** [d.updatedAt || d.timestamp || 0] *)
Definition timeOf (d : Doc.t) : Value :=
  or_else (or_else (Doc.updatedAt d) (Doc.timestamp d)) (Primitive (PNum 0)).

Definition ToPrimitive (v : Value) : option Prim :=
  match v with
  | Primitive p => Some p
  | Object o => o
  end.

Section Conflict.
(** Conversion of a string to a number, a JavaScript built-in;
    [None] is [NaN]. *)
Variable StringToNumber : string -> option Z.

(** Conversion of a primitive to a number; [None] is [NaN]. *)
Definition ToNumber (p : Prim) : option Z :=
  match p with
  | PUndefined => None
  | PNull => Some 0%Z
  | PBool b => Some (if b then 1 else 0)%Z
  | PNum n => Some n
  | PNaN => None
  | PStr s => StringToNumber s
  end.

(** [x >= y]: two strings are compared as strings, anything else as
    numbers, and a comparison with [NaN] is false.  [None] when a
    conversion throws. *)
Definition ge (x y : Value) : option bool :=
  match ToPrimitive x with
  | None => None
  | Some px =>
      match ToPrimitive y with
      | None => None
      | Some py =>
          match px, py with
          | PStr a, PStr b => Some (negb (String.ltb a b))
          | _, _ =>
              match ToNumber px, ToNumber py with
              | Some nx, Some ny => Some (nx >=? ny)%Z
              | _, _ => Some false
              end
          end
      end
  end.

(** [handleConflict]; an argument that is [null] or [undefined] is
    [None].  The result is [None] when the promise is rejected:
    reading a member of [null] or [undefined] throws, and so may a
    conversion. *)
Definition handleConflict (localData serverData : option Doc.t) : option Doc.t :=
  match localData with
  | None => None
  | Some l =>
      let localTime := timeOf l in
      match serverData with
      | None => None
      | Some s =>
          let serverTime := timeOf s in
          match ge serverTime localTime with
          | None => None
          | Some true => Some s
          | Some false => Some l
          end
      end
  end.

End Conflict.

(** A value that reads as absent under [||]. *)
Definition absent (v : Value) : Prop :=
  v = Primitive PUndefined \/ v = Primitive PNull \/ v = Primitive (PBool false)
  \/ v = Primitive (PNum 0) \/ v = Primitive PNaN \/ v = Primitive (PStr "").

(** The time of a side, in words: its [updatedAt] unless that reads
    as absent, else its [timestamp] unless that reads as absent,
    else 0. *)
Inductive time_of (d : Doc.t) : Value -> Prop :=
| time_updatedAt :
    ~ absent (Doc.updatedAt d) -> time_of d (Doc.updatedAt d)
| time_timestamp :
    absent (Doc.updatedAt d) -> ~ absent (Doc.timestamp d) ->
    time_of d (Doc.timestamp d)
| time_zero :
    absent (Doc.updatedAt d) -> absent (Doc.timestamp d) ->
    time_of d (Primitive (PNum 0)).

(** The specification's wording of the choice, for times that are
    numbers: the update timestamp if one exists, else the enqueue
    timestamp, else 0; the side with the strictly greater one, and
    remote when they are equal. *)
Definition spec_timeOf (d : Doc.t) : Z :=
  match Doc.updatedAt d with
  | Primitive (PNum u) => u
  | _ => match Doc.timestamp d with
         | Primitive (PNum s) => s
         | _ => 0%Z
         end
  end.

Definition spec_resolveConflict (localData remote : Doc.t) : Doc.t :=
  if (spec_timeOf remote <? spec_timeOf localData)%Z then localData else remote.

(** The request [syncItem] hands to the client for an entry, when it
    gets that far; none when [item.data.id] cannot be read. *)
Definition request_of (item : SyncItem) : option Axios.Config :=
  let endpoint := ("/" ++ type_name (type item) ++ "s")%string in
  match action item, data item with
  | create, Some d => Some (Axios.request Axios.POST endpoint (Axios.DataBody d))
  | create, None => Some (Axios.request Axios.POST endpoint Axios.NoBody)
  | update, Some d =>
      Some (Axios.request Axios.PUT (endpoint ++ "/" ++ show_id d)%string
              (Axios.DataBody d))
  | delete, Some d =>
      Some (Axios.request Axios.DELETE (endpoint ++ "/" ++ show_id d)%string
              Axios.NoBody)
  | _, None => None
  end.

(** The requests of a whole queue, in queue order. *)
Definition requests_of (queue : list SyncItem) : list Axios.Config :=
  flat_map (fun item => match request_of item with
                        | Some c => [c]
                        | None => []
                        end) queue.

(** A new service object over the same storage, as after the module
    is loaded again ([export default new SyncService()]): the field
    [syncStatus] starts from its initializer. *)
Definition restart {W : Type} (st : State W) : State W :=
  mkState initialStatus (stored_queue st) (stored_status st) (world st).

(** [l1] is [l2] with some elements left out, order kept. *)
Inductive subseq {A : Type} : list A -> list A -> Prop :=
| subseq_nil : subseq [] []
| subseq_skip x l1 l2 : subseq l1 l2 -> subseq l1 (x :: l2)
| subseq_take x l1 l2 : subseq l1 l2 -> subseq (x :: l1) (x :: l2).

(** One pass over a queue when every dispatch fails. *)
Definition allFailed (queue : list SyncItem) : list SyncItem :=
  map bump (filter (fun i => (S (retries i) <? MAX_RETRIES)%nat) queue).

(** The bare axios instance (no interceptors) as a client: its world
    is the list of requests sent so far. *)
Definition bareClient (server : Axios.Server)
  : Axios.Config -> list Axios.Config -> list Axios.Config * Axios.Outcome :=
  fun config sent => Axios.transport server sent config.

End Sync.

(* ================================================================== *)
(** * backend/services/authService.ts                                  *)
(* ================================================================== *)

Module Auth.

(** Values [JSON.parse] can return.  Numbers are integers (the [exp]
    claim is in whole epoch seconds); an object lists its members in
    source order. *)
#[local] Unset Elimination Schemes.
Inductive Json :=
| JNull
| JBool (b : bool)
| JNum (n : Z)
| JStr (s : string)
| JArr (items : list Json)
| JObj (members : list (string * Json)).
#[local] Set Elimination Schemes.

(** The JavaScript built-ins the token check calls.  They are not
    code of this repository and are taken as given. *)
Record Runtime := mkRuntime {
  (** [Buffer.from(s, 'base64').toString('utf-8')] *)
  base64_utf8 : string -> string;
  (** [JSON.parse]; [None] when it throws *)
  JSON_parse : string -> option Json;
  (** conversion of a string to a number; [None] is [NaN] *)
  StringToNumber : string -> option Z;
  (** conversion of an array or object to a primitive string;
      [None] when it throws *)
  ObjectToString : Json -> option string
}.

(** [token.split('.')] *)
Fixpoint split (sep : ascii) (s : string) : list string :=
  match s with
  | EmptyString => [""]
  | String c rest =>
      if (c =? sep)%char then "" :: split sep rest
      else match split sep rest with
           | h :: t => String c h :: t
           | [] => [String c ""]
           end
  end.

(** Number of dots in a string. *)
Fixpoint dots (s : string) : nat :=
  match s with
  | EmptyString => 0
  | String c rest => if (c =? ".")%char then S (dots rest) else dots rest
  end.

(** Member lookup in a parsed object: of duplicate keys the last one
    counts. *)
Fixpoint member (k : string) (ms : list (string * Json)) : option Json :=
  match ms with
  | [] => None
  | (k', v) :: rest =>
      match member k rest with
      | Some v' => Some v'
      | None => if k' =? k then Some v else None
      end
  end.

(** Result of reading a property: it throws, or yields [undefined],
    or yields a value. *)
Inductive Read :=
| ReadThrows
| Undefined
| Value (v : Json).

(** [payload.exp] *)
Definition get_exp (payload : Json) : Read :=
  match payload with
  | JNull => ReadThrows
  | JObj ms => match member "exp" ms with
               | Some v => Value v
               | None => Undefined
               end
  | _ => Undefined
  end.

Section WithRuntime.
Variable rt : Runtime.

(** [decodeToken]; [None] when it throws. *)
Definition decodeToken (token : string) : option Json :=
  let parts := split "." token in
  if negb (List.length parts =? 3)%nat then None
  else
    let payload := nth 1 parts "" in
    let decoded := base64_utf8 rt payload in
    JSON_parse rt decoded.

(** [x > now] for a number [now]: [x] is converted to a number and
    compared; [NaN] compares false.  [None] when the conversion
    throws. *)
Definition greater (x : Read) (now : Z) : option bool :=
  match x with
  | ReadThrows => None
  | Undefined => Some false
  | Value JNull => Some (0 >? now)%Z
  | Value (JBool b) => Some ((if b then 1 else 0) >? now)%Z
  | Value (JNum n) => Some (n >? now)%Z
  | Value (JStr s) =>
      match StringToNumber rt s with
      | Some n => Some (n >? now)%Z
      | None => Some false
      end
  | Value v =>
      match ObjectToString rt v with
      | None => None
      | Some s =>
          match StringToNumber rt s with
          | Some n => Some (n >? now)%Z
          | None => Some false
          end
      end
  end.

(** [validateToken]; [Date_now] is the reading of [Date.now()]. *)
Definition validateToken (Date_now : Z) (token : string) : bool :=
  if token =? "" then false
  else
    match decodeToken token with
    | None => false
    | Some payload =>
        let now := (Date_now / 1000)%Z in
        match greater (get_exp payload) now with
        | Some b => b
        | None => false
        end
    end.

End WithRuntime.

(** A runtime given by the finite tables of what the built-ins return
    on the inputs of interest; off the tables [JSON.parse] throws and
    the conversions give [NaN]. *)
Fixpoint lookup {A} (k : string) (tbl : list (string * A)) : option A :=
  match tbl with
  | [] => None
  | (k', v) :: rest => if k' =? k then Some v else lookup k rest
  end.

Definition tabled (decode : list (string * string))
           (parse : list (string * Json))
           (numbers : list (string * Z)) : Runtime :=
  mkRuntime
    (fun s => match lookup s decode with Some d => d | None => "" end)
    (fun s => lookup s parse)
    (fun s => lookup s numbers)
    (fun _ => None).

(** ** The session: tokens in SecureStore *)

(** SecureStore, restricted to the two keys the service uses:
    [TOKEN_KEY = 'auth_token'] and [REFRESH_TOKEN_KEY = 'refresh_token']. *)
Record SecureStore := mkSecureStore {
  auth_token : option string;
  refresh_token : option string
}.

(** [interface LoginCredentials]. *)
Record LoginCredentials := mkCredentials {
  email : string;
  password : string
}.

(** [interface AuthResponse]; [user] is declared [any]. *)
Record AuthResponse := mkAuthResponse {
  token : string;
  refreshToken : option string;
  user : string
}.

Definition storeToken (t : string) (s : SecureStore) : SecureStore :=
  mkSecureStore (Some t) (refresh_token s).

Definition getToken (s : SecureStore) : option string := auth_token s.

Definition storeRefreshToken (t : string) (s : SecureStore) : SecureStore :=
  mkSecureStore (auth_token s) (Some t).

Definition getRefreshToken (s : SecureStore) : option string := refresh_token s.

Definition logout (s : SecureStore) : SecureStore :=
  let s := mkSecureStore None (refresh_token s) in
  mkSecureStore (auth_token s) None.

Section Login.
(** [apiClient: any]: its [post] settles with the response data or
    with an error of some kind [E]; [W] is what it may touch. *)
Variable W E : Type.
Variable post : string -> LoginCredentials -> W -> W * (AuthResponse + E).

(** [login]: the world and store reached, and the value returned or
    the error thrown. *)
Definition login (credentials : LoginCredentials) (w : W) (s : SecureStore)
  : W * SecureStore * (AuthResponse + E) :=
  match post "/auth/login" credentials w with
  | (w', inr e) => (w', s, inr e)
  | (w', inl response) =>
      let s := storeToken (token response) s in
      let s := if Axios.truthy (refreshToken response)
               then match refreshToken response with
                    | Some r => storeRefreshToken r s
                    | None => s
                    end
               else s in
      (w', s, inl (mkAuthResponse (token response) (refreshToken response)
                     (user response)))
  end.

End Login.

Arguments login {W E}.

(** [isAuthenticated] *)
Definition isAuthenticated (rt : Runtime) (Date_now : Z) (s : SecureStore) : bool :=
  match getToken s with
  | Some t => if Axios.truthy (Some t) then validateToken rt Date_now t else false
  | None => false
  end.

End Auth.

(* ================================================================== *)
(** * backend/middleware/errorHandler.ts                               *)
(* ================================================================== *)

Module ErrorHandler.

(** [interface ErrorResponse]; [status] is always set by the handler. *)
Record ErrorResponse := mkErrorResponse {
  message : string;
  code : option string;
  status : Z
}.

(** [error.response.data] (declared [any]): the two members read. *)
Record ResponseData := mkData {
  data_message : option string;
  data_code : option string
}.

(** What can be thrown at the handler, by what the handler asks of it:
    an [AxiosError] with its [code] and, when a response came, the
    status and data of the response; an [AppError]; any other [Error]
    with its [name]; a value that is not an [Error]. *)
Inductive Thrown :=
| Axios (code : option string) (response : option (Z * option ResponseData))
| App (message : string) (statusCode : Z) (code : option string)
| Error (name message : string)
| NotAnError.

(** JavaScript [x || y] for a string-or-absent [x]: the empty string
    is falsy. *)
Definition or_string (x : option string) (y : string) : string :=
  match x with
  | Some v => if v =? "" then y else v
  | None => y
  end.

Definition show (n : Z) : string :=
  DecimalString.NilZero.string_of_int (Z.to_int n).

Definition getStatusMessage (status : Z) : string :=
  if (status =? 400)%Z then "Invalid request. Please check your input."
  else if (status =? 401)%Z then "Authentication required. Please log in."
  else if (status =? 403)%Z then "Access denied."
  else if (status =? 404)%Z then "Resource not found."
  else if (status =? 408)%Z then "Request timeout. Please try again."
  else if (status =? 429)%Z then "Too many requests. Please wait."
  else if (status =? 500)%Z then "Server error. Please try again later."
  else if (status =? 502)%Z then "Service unavailable. Please try again."
  else if (status =? 503)%Z then "Service temporarily unavailable."
  else "An error occurred. Please try again.".

(** [errorHandler], without its [console.error]. *)
Definition errorHandler (error : Thrown) : ErrorResponse :=
  match error with
  | Axios code None =>
      mkErrorResponse
        (match code with
         | Some c => if c =? "ECONNABORTED"
                     then "Request timeout. Please try again."
                     else "Network error. Check your connection."
         | None => "Network error. Check your connection."
         end)
        (Some (or_string code "NETWORK_ERROR"))
        0
  | Axios _ (Some (status, data)) =>
      mkErrorResponse
        (or_string (match data with Some d => data_message d | None => None end)
                   (getStatusMessage status))
        (Some (or_string (match data with Some d => data_code d | None => None end)
                         ("HTTP_" ++ show status)%string))
        status
  | App message statusCode code => mkErrorResponse message code statusCode
  | Error name message =>
      if name =? "ValidationError"
      then mkErrorResponse message (Some "VALIDATION_ERROR") 400
      else mkErrorResponse message (Some "UNKNOWN_ERROR") 500
  | NotAnError =>
      mkErrorResponse "An unexpected error occurred" (Some "UNKNOWN_ERROR") 500
  end.

End ErrorHandler.

(* ================================================================== *)
(** * backend/services/appointmentService.ts                           *)
(* ================================================================== *)

Module Appointments.

Inductive AppointmentStatus := scheduled | completed | cancelled | no_show.

(** [interface Appointment]: the members the service reads, and the
    rest of the record as one value. *)
Record Appointment := mkAppointment {
  id : string;
  petId : string;
  dateTime : string;
  status : AppointmentStatus;
  details : string
}.

(** [interface AppointmentsListResponse]; [data] is [None] when what
    came back is not an array. *)
Record AppointmentsListResponse := mkList {
  data : option (list Appointment);
  total : option nat;
  message : option string
}.

(** How a call ends: with a value, or with [throw new Error(message)]. *)
Inductive Result (A : Type) :=
| Returned (a : A)
| ThrewError (message : string).

Arguments Returned {A}.
Arguments ThrewError {A}.

Definition APPOINTMENTS_ENDPOINT : string := "/appointments".

Section Service.
(** [apiClient.get(url, { params })] settles with the response data or
    with an error; [W] is what it may touch.  [Date_getTime s] is
    [new Date(s).getTime()], [None] standing for [NaN]. *)
Variable W : Type.
Variable get : string -> option string -> W
               -> W * (AppointmentsListResponse + ErrorHandler.Thrown).
Variable Date_getTime : string -> option Z.

Definition getAppointments (petId : option string) (w : W)
  : W * Result AppointmentsListResponse :=
  let params := if Axios.truthy petId then petId else None in
  match get APPOINTMENTS_ENDPOINT params w with
  | (w', inl response_data) => (w', Returned response_data)
  | (w', inr error) =>
      let handled := ErrorHandler.errorHandler error in
      (w', ThrewError (ErrorHandler.message handled))
  end.

(** The filter of [getUpcomingAppointments]; [now] is the time value
    of [new Date()].  A comparison with [NaN] is false. *)
Definition isUpcoming (now : Z) (apt : Appointment) : bool :=
  match status apt with
  | cancelled | completed => false
  | _ => match Date_getTime (dateTime apt) with
         | Some t => (t >=? now)%Z
         | None => false
         end
  end.

(** The comparator handed to [sort]; a [NaN] result counts as 0. *)
Definition compare (a b : Appointment) : Z :=
  match Date_getTime (dateTime a), Date_getTime (dateTime b) with
  | Some x, Some y => (x - y)%Z
  | _, _ => 0%Z
  end.

(** An appointment whose [dateTime] parses, and the order the
    comparator describes. *)
Definition dated (a : Appointment) : Prop :=
  exists t, Date_getTime (dateTime a) = Some t.

Definition earlier (a b : Appointment) : Prop := (compare a b <= 0)%Z.

(** [Array.prototype.sort] with that comparator: the stable sort into
    ascending order, computed here by insertion. *)
Fixpoint insert (a : Appointment) (l : list Appointment) : list Appointment :=
  match l with
  | [] => [a]
  | b :: l' => if (compare a b <=? 0)%Z then a :: b :: l' else b :: insert a l'
  end.

Fixpoint sort (l : list Appointment) : list Appointment :=
  match l with
  | [] => []
  | a :: l' => insert a (sort l')
  end.

Definition getUpcomingAppointments (now : Z) (petId : option string) (w : W)
  : W * Result AppointmentsListResponse :=
  match getAppointments petId w with
  | (w', Returned response) =>
      let list := match data response with
                  | Some appointments => appointments
                  | None => []
                  end in
      let upcoming := filter (isUpcoming now) list in
      (w', Returned (mkList (Some (sort upcoming)) (Some (List.length upcoming)) None))
  | (w', ThrewError msg) =>
      let handled := ErrorHandler.errorHandler (ErrorHandler.Error "Error" msg) in
      (w', ThrewError (ErrorHandler.message handled))
  end.

End Service.

Arguments getAppointments {W}.
Arguments getUpcomingAppointments {W}.

End Appointments.

(* ================================================================== *)
(** * backend/utils/dateUtils.ts                                       *)
(* ================================================================== *)

Module DateUtils.

(** A [Date] by its time value in milliseconds, an integer of
    magnitude at most 8.64e15; [None] is an invalid date. *)
Definition Date := option Z.

(** [Date | string] *)
Inductive Input :=
| ADate (d : Date)
| AString (s : string).

Inductive Unit := days | hours | minutes | seconds.

Definition unitMs (u : Unit) : Z :=
  match u with
  | days => 1000 * 60 * 60 * 24
  | hours => 1000 * 60 * 60
  | minutes => 1000 * 60
  | seconds => 1000
  end.

(** ** Arithmetic on doubles *)

(** A time value is an integer of magnitude at most 8.64e15, so it is
    a double exactly.  The difference of two of them and the quotient
    of that by a unit are rounded to the nearest double, ties to
    even. *)

(** [x / y] rounded to the nearest integer, ties to even ([y > 0]). *)
Definition roundHalfEven (x y : Z) : Z :=
  let q := (x / y)%Z in
  let r := (x mod y)%Z in
  if (2 * r <? y)%Z then q
  else if (y <? 2 * r)%Z then (q + 1)%Z
  else if Z.even q then q else (q + 1)%Z.

(** The power of two at or just below [|n| / d]: the [b] with
    [2^b <= |n| / d < 2^(b+1)] ([n <> 0], [d > 0]). *)
Definition binade (n d : Z) : Z :=
  let l := (Z.log2 (Z.abs n) - Z.log2 d)%Z in
  if (Z.abs n * 2 ^ Z.max 0 (- l) <? d * 2 ^ Z.max 0 l)%Z then (l - 1)%Z else l.

(** The double nearest to the integer [d]: [d] itself below [2^53],
    beyond that a multiple of the spacing [2^e] of doubles there. *)
Definition round53 (d : Z) : Z :=
  if (Z.abs d <? 2 ^ 53)%Z then d
  else
    let e := (Z.log2 (Z.abs d) - 52)%Z in
    (roundHalfEven d (2 ^ e) * 2 ^ e)%Z.

(** [a - b] for two time values. *)
Definition minus (a b : Z) : Z := round53 (a - b).

(** [Math.floor(x / u)] for an integer double [x] and an integer
    [u > 0]: the quotient is rounded to a double of 53 bits,
    [m * 2^e], and the floor of that is taken. *)
Definition floorDiv (x u : Z) : Z :=
  if (x =? 0)%Z then 0%Z
  else
    let e := (binade x u - 52)%Z in
    if (0 <=? e)%Z then (roundHalfEven x (u * 2 ^ e) * 2 ^ e)%Z
    else (roundHalfEven (x * 2 ^ (- e)) u / 2 ^ (- e))%Z.

Section WithParser.
(** [new Date(s)] for a string [s]. *)
Variable Date_parse : string -> Date.

(** [toDate]: the time value, or [None] when it throws
    "Invalid date provided". *)
Definition toDate (date : Input) : option Z :=
  match date with
  | AString s => Date_parse s
  | ADate d => d
  end.

(** [getDateDifference]; [None] when it throws. *)
Definition getDateDifference (start end_ : Input) (unit : Unit) : option Z :=
  match toDate start with
  | None => None
  | Some startDate =>
      match toDate end_ with
      | None => None
      | Some endDate =>
          let diffMs := minus endDate startDate in
          Some (floorDiv diffMs (unitMs unit))
      end
  end.


Definition show (n : Z) : string :=
  DecimalString.NilZero.string_of_int (Z.to_int n).


End WithParser.

End DateUtils.

(* ================================================================== *)
(** * backend/utils/validators.ts                                      *)
(* ================================================================== *)

Module Validators.

(** A JavaScript string, as the list of its UTF-16 code units.  The
    values validated are strings, [null] or [undefined] ([None]). *)
Definition jsstring := list N.

(** A string literal of the source. *)
Definition js (s : string) : jsstring := map N_of_ascii (list_ascii_of_string s).

(** Rendering of an integer inside a template string. *)
Definition show (n : Z) : jsstring :=
  js (DecimalString.NilZero.string_of_int (Z.to_int n)).

(** [interface ValidationResult] *)
Record ValidationResult := mkResult {
  isValid : bool;
  error : option jsstring
}.

Definition valid : ValidationResult := mkResult true None.

Definition invalid (e : jsstring) : ValidationResult := mkResult false (Some e).

(** White space and line terminators: what [trim] strips and what
    [\s] matches. *)
Definition isSpace (c : N) : bool :=
  existsb (N.eqb c)
    [9; 10; 11; 12; 13; 32; 160; 5760;
     8192; 8193; 8194; 8195; 8196; 8197; 8198; 8199; 8200; 8201; 8202;
     8232; 8233; 8239; 8287; 12288; 65279]%N.

Fixpoint trimStart (s : jsstring) : jsstring :=
  match s with
  | [] => []
  | c :: s' => if isSpace c then trimStart s' else s
  end.

Definition trim (s : jsstring) : jsstring := rev (trimStart (rev (trimStart s))).

Definition normalizeValue (value : option jsstring) : jsstring :=
  match value with
  | None => []
  | Some s => trim s
  end.

(** ** Regular expressions *)

(** The patterns of this file use character classes, sequence,
    choice and repetition only. *)
Inductive regex :=
| Eps
| Class (p : N -> bool)
| Cat (r1 r2 : regex)
| Alt (r1 r2 : regex)
| Star (r : regex).

(** The strings a pattern matches as a whole. *)
Inductive Matches : regex -> jsstring -> Prop :=
| MEps : Matches Eps []
| MClass p c : p c = true -> Matches (Class p) [c]
| MCat r1 r2 s1 s2 :
    Matches r1 s1 -> Matches r2 s2 -> Matches (Cat r1 r2) (s1 ++ s2)
| MAltL r1 r2 s : Matches r1 s -> Matches (Alt r1 r2) s
| MAltR r1 r2 s : Matches r2 s -> Matches (Alt r1 r2) s
| MStarNil r : Matches (Star r) []
| MStarApp r s1 s2 :
    Matches r s1 -> Matches (Star r) s2 -> Matches (Star r) (s1 ++ s2).

(** A class no code unit is in: the pattern that matches nothing. *)
Definition Void : regex := Class (fun _ => false).

Fixpoint nullable (r : regex) : bool :=
  match r with
  | Eps => true
  | Class _ => false
  | Cat r1 r2 => nullable r1 && nullable r2
  | Alt r1 r2 => nullable r1 || nullable r2
  | Star _ => true
  end.

(** What is left of a pattern after the code unit [c]. *)
Fixpoint deriv (c : N) (r : regex) : regex :=
  match r with
  | Eps => Void
  | Class p => if p c then Eps else Void
  | Cat r1 r2 =>
      if nullable r1 then Alt (Cat (deriv c r1) r2) (deriv c r2)
      else Cat (deriv c r1) r2
  | Alt r1 r2 => Alt (deriv c r1) (deriv c r2)
  | Star r1 => Cat (deriv c r1) (Star r1)
  end.

(** [/^r$/.test(s)] *)
Fixpoint test (r : regex) (s : jsstring) : bool :=
  match s with
  | [] => nullable r
  | c :: s' => test (deriv c r) s'
  end.

(** [r+], [r?], [r{n}], [r{0,n}], [r{m,}] and [r{m,n}] *)
Definition Plus (r : regex) : regex := Cat r (Star r).
Definition Opt (r : regex) : regex := Alt Eps r.

Fixpoint power (n : nat) (r : regex) : regex :=
  match n with
  | O => Eps
  | S n' => Cat r (power n' r)
  end.

Fixpoint upto (n : nat) (r : regex) : regex :=
  match n with
  | O => Eps
  | S n' => Alt Eps (Cat r (upto n' r))
  end.

Definition atLeast (m : nat) (r : regex) : regex := Cat (power m r) (Star r).
Definition between (m n : nat) (r : regex) : regex := Cat (power m r) (upto (n - m) r).

Definition chr (a : ascii) : N -> bool := N.eqb (N_of_ascii a).
Definition range (a b : ascii) : N -> bool :=
  fun c => (N_of_ascii a <=? c)%N && (c <=? N_of_ascii b)%N.

(** [[^\s@]], [\d], [[1-9]], [[A-Z]], [[a-z]], [[^A-Za-z0-9]] *)
Definition notSpaceNorAt (c : N) : bool := negb (isSpace c || chr "@" c).
Definition digit : N -> bool := range "0" "9".
Definition digit19 : N -> bool := range "1" "9".
Definition upper : N -> bool := range "A" "Z".
Definition lower : N -> bool := range "a" "z".
Definition special (c : N) : bool := negb (upper c || lower c || digit c).

(** [/^[^\s@]+@[^\s@]+\.[^\s@]{2,}$/] *)
Definition EMAIL_REGEX : regex :=
  Cat (Plus (Class notSpaceNorAt))
      (Cat (Class (chr "@"))
           (Cat (Plus (Class notSpaceNorAt))
                (Cat (Class (chr "."))
                     (atLeast 2 (Class notSpaceNorAt))))).

(** [/^\+?[1-9]\d{6,14}$/] *)
Definition PHONE_REGEX : regex :=
  Cat (Opt (Class (chr "+")))
      (Cat (Class digit19) (between 6 14 (Class digit))).

(** ** The validators *)

Definition validateEmail (email : option jsstring) : ValidationResult :=
  let value := normalizeValue email in
  match value with
  | [] => invalid (js "Email is required.")
  | _ =>
      if (254 <? List.length value)%nat
      then invalid (js "Email must be 254 characters or fewer.")
      else if negb (test EMAIL_REGEX value)
           then invalid (js "Please enter a valid email address.")
           else valid
  end.

(** [/[\s\-().]/] *)
Definition separator (c : N) : bool :=
  isSpace c || chr "-" c || chr "(" c || chr ")" c || chr "." c.

Definition validatePhoneNumber (phone : option jsstring) : ValidationResult :=
  let raw := normalizeValue phone in
  match raw with
  | [] => invalid (js "Phone number is required.")
  | _ =>
      let normalized := filter (fun c => negb (separator c)) raw in
      if negb (test PHONE_REGEX normalized)
      then invalid
             (js "Please enter a valid phone number (7 to 15 digits, optional leading +).")
      else valid
  end.

(** [interface PasswordValidationOptions]: [None] for a member that
    is left out. *)
Record PasswordValidationOptions := mkPasswordOptions {
  pw_minLength : option Z;
  pw_maxLength : option Z;
  requireUppercase : option bool;
  requireLowercase : option bool;
  requireNumber : option bool;
  requireSpecial : option bool
}.

Definition default {A : Type} (o : option A) (d : A) : A :=
  match o with
  | Some a => a
  | None => d
  end.

Definition validatePasswordStrength
           (password : option jsstring) (options : PasswordValidationOptions)
  : ValidationResult :=
  let value := normalizeValue password in
  match value with
  | [] => invalid (js "Password is required.")
  | _ =>
      let minLength := default (pw_minLength options) 8%Z in
      let maxLength := default (pw_maxLength options) 128%Z in
      if (Z.of_nat (List.length value) <? minLength)%Z
      then invalid (js "Password must be at least " ++ show minLength
                       ++ js " characters.")
      else if (Z.of_nat (List.length value) >? maxLength)%Z
      then invalid (js "Password must be " ++ show maxLength
                       ++ js " characters or fewer.")
      else if default (requireUppercase options) true && negb (existsb upper value)
      then invalid (js "Password must include at least one uppercase letter.")
      else if default (requireLowercase options) true && negb (existsb lower value)
      then invalid (js "Password must include at least one lowercase letter.")
      else if default (requireNumber options) true && negb (existsb digit value)
      then invalid (js "Password must include at least one number.")
      else if default (requireSpecial options) true && negb (existsb special value)
      then invalid (js "Password must include at least one special character.")
      else valid
  end.

Definition validateRequired (value : option jsstring) (fieldName : jsstring)
  : ValidationResult :=
  match normalizeValue value with
  | [] => invalid (fieldName ++ js " is required.")
  | _ => valid
  end.

Definition validateMinLength (value : option jsstring) (minLength : Z)
           (fieldName : jsstring) : ValidationResult :=
  let normalized := normalizeValue value in
  if (Z.of_nat (List.length normalized) <? minLength)%Z
  then invalid (fieldName ++ js " must be at least " ++ show minLength
                  ++ js " characters.")
  else valid.

Definition validateMaxLength (value : option jsstring) (maxLength : Z)
           (fieldName : jsstring) : ValidationResult :=
  let normalized := normalizeValue value in
  if (Z.of_nat (List.length normalized) >? maxLength)%Z
  then invalid (fieldName ++ js " must be " ++ show maxLength
                  ++ js " characters or fewer.")
  else valid.

(** [pattern] is the [test] method of the expression handed in. *)
Definition validatePattern (value : option jsstring) (pattern : jsstring -> bool)
           (fieldName : jsstring) (message : option jsstring) : ValidationResult :=
  let normalized := normalizeValue value in
  if negb (pattern normalized)
  then invalid (default message (fieldName ++ js " format is invalid."))
  else valid.

(** [interface GenericFieldRule] *)
Record GenericFieldRule := mkRule {
  required : bool;
  minLength : option Z;
  maxLength : option Z;
  pattern : option (jsstring -> bool);
  patternMessage : option jsstring;
  customValidator : option (jsstring -> ValidationResult)
}.

(** The checks of [validateField] that come after the one for
    [required], each returning early when it fails. *)
Definition validateRules (normalized : jsstring) (rules : GenericFieldRule)
           (fieldName : jsstring) : ValidationResult :=
  let minLengthResult :=
    match minLength rules with
    | Some n => validateMinLength (Some normalized) n fieldName
    | None => valid
    end in
  if negb (isValid minLengthResult) then minLengthResult
  else
    let maxLengthResult :=
      match maxLength rules with
      | Some n => validateMaxLength (Some normalized) n fieldName
      | None => valid
      end in
    if negb (isValid maxLengthResult) then maxLengthResult
    else
      let patternResult :=
        match pattern rules with
        | Some p => validatePattern (Some normalized) p fieldName (patternMessage rules)
        | None => valid
        end in
      if negb (isValid patternResult) then patternResult
      else
        let customResult :=
          match customValidator rules with
          | Some f => f normalized
          | None => valid
          end in
        if negb (isValid customResult) then customResult
        else valid.

Definition validateField (value : option jsstring) (rules : GenericFieldRule)
           (fieldName : jsstring) : ValidationResult :=
  let requiredResult :=
    if required rules then validateRequired value fieldName else valid in
  if negb (isValid requiredResult) then requiredResult
  else
    let normalized := normalizeValue value in
    match normalized with
    | [] => if negb (required rules) then valid
            else validateRules normalized rules fieldName
    | _ => validateRules normalized rules fieldName
    end.

End Validators.

(* ================================================================== *)
(** * backend/services/loggerService.ts                                *)
(* ================================================================== *)

Module Logger.

Inductive LogLevel := debug | info | warn | error.

(** [interface LogConfig]: [None] for a member that is left out. *)
Record LogConfig := mkConfig {
  enableRemote : option bool;
  remoteUrl : option string;
  cfg_isDevelopment : option bool
}.

(** The two fields of a [LoggerService]. *)
Record LoggerService := mkLogger {
  config : LogConfig;
  isDevelopment : bool
}.

(** What has been written: the console lines, each with the console
    method used, and the bodies posted to the remote address (level,
    log line, time stamp). *)
Record Output := mkOutput {
  console : list (LogLevel * string);
  remote : list (string * (LogLevel * string * string))
}.

(** [new LoggerService(config)]; [DEV] is the global [__DEV__]. *)
Definition create (DEV : bool) (c : LogConfig) : LoggerService :=
  mkLogger c (match cfg_isDevelopment c with Some b => b | None => DEV end).

Definition upperCase (level : LogLevel) : string :=
  match level with
  | debug => "DEBUG"
  | info => "INFO"
  | warn => "WARN"
  | error => "ERROR"
  end.

(** [formatLog]; [timestamp] is [new Date().toISOString()], [data]
    the text [JSON.stringify] gives for a truthy [data], [None] for a
    falsy one. *)
Definition formatLog (timestamp : string) (level : LogLevel) (message : string)
           (data : option string) : string :=
  let dataStr := match data with
                 | Some d => (" | " ++ d)%string
                 | None => ""
                 end in
  ("[" ++ timestamp ++ "] [" ++ upperCase level ++ "] " ++ message ++ dataStr)%string.

Definition shouldLog (l : LoggerService) (level : LogLevel) : bool :=
  match level with
  | debug => isDevelopment l
  | _ => true
  end.

(** [sendToRemote]; [fetchFails] tells whether the [fetch] it makes
    is rejected, in which case the rejection is caught and reported
    on the console.  The callers do not await it: the report is put
    here right after the call, with no other logging in between. *)
Definition sendToRemote (l : LoggerService) (timestamp : string) (fetchFails : bool)
           (level : LogLevel) (formattedLog : string) (out : Output) : Output :=
  match enableRemote (config l), remoteUrl (config l) with
  | Some true, Some url =>
      if Axios.truthy (Some url)
      then
        let out := mkOutput (console out)
                            (remote out ++ [(url, (level, formattedLog, timestamp))]) in
        if fetchFails
        then mkOutput (console out ++ [(error, "Failed to send log to remote service:")])
                      (remote out)
        else out
      else out
  | _, _ => out
  end.

(** The four logging methods; [t1] and [t2] are the two readings of
    the clock. *)
Definition log_debug (l : LoggerService) (t1 t2 : string) (fetchFails : bool)
           (message : string) (data : option string) (out : Output) : Output :=
  if negb (shouldLog l debug) then out
  else
    let formatted := formatLog t1 debug message data in
    let out := mkOutput (console out ++ [(debug, formatted)]) (remote out) in
    sendToRemote l t2 fetchFails debug formatted out.

Definition log_info (l : LoggerService) (t1 t2 : string) (fetchFails : bool)
           (message : string) (data : option string) (out : Output) : Output :=
  if negb (shouldLog l info) then out
  else
    let formatted := formatLog t1 info message data in
    let out := mkOutput (console out ++ [(info, formatted)]) (remote out) in
    sendToRemote l t2 fetchFails info formatted out.

Definition log_warn (l : LoggerService) (t1 t2 : string) (fetchFails : bool)
           (message : string) (data : option string) (out : Output) : Output :=
  if negb (shouldLog l warn) then out
  else
    let formatted := formatLog t1 warn message data in
    let out := mkOutput (console out ++ [(warn, formatted)]) (remote out) in
    sendToRemote l t2 fetchFails warn formatted out.

Definition log_error (l : LoggerService) (t1 t2 : string) (fetchFails : bool)
           (message : string) (data : option string) (out : Output) : Output :=
  if negb (shouldLog l error) then out
  else
    let formatted := formatLog t1 error message data in
    let out := mkOutput (console out ++ [(error, formatted)]) (remote out) in
    let out := mkOutput (console out ++ [(error, formatted)]) (remote out) in
    sendToRemote l t2 fetchFails error formatted out.

(** Whether a call that gets through posts to the remote address. *)
Definition posts (l : LoggerService) : option string :=
  match enableRemote (config l), remoteUrl (config l) with
  | Some true, Some url => if Axios.truthy (Some url) then Some url else None
  | _, _ => None
  end.

Definition override {A : Type} (old new : option A) : option A :=
  match new with
  | Some a => Some a
  | None => old
  end.

(** [configure] *)
Definition configure (c : LogConfig) (l : LoggerService) : LoggerService :=
  mkLogger
    (mkConfig (override (enableRemote (config l)) (enableRemote c))
              (override (remoteUrl (config l)) (remoteUrl c))
              (override (cfg_isDevelopment (config l)) (cfg_isDevelopment c)))
    (match cfg_isDevelopment c with
     | Some b => b
     | None => isDevelopment l
     end).

End Logger.

(* ================================================================== *)
(** * Concrete inputs used in the worked cases                         *)
(* ================================================================== *)

Module Scenario.
Import Axios.

Definition tokens (a r : string) : Reply := Answer (mkResponse 200 (mkTokens a r)).

(** A signed-in client that has sent nothing yet. *)
Definition signedIn : Interceptors.State :=
  Interceptors.mkState (Interceptors.mkStorage (Some "a0") (Some "r0")) [].

(** The same client without a refresh token. *)
Definition noRefreshToken : Interceptors.State :=
  Interceptors.mkState (Interceptors.mkStorage (Some "a0") None) [].

Definition getPets : Config := request GET "/pets" NoBody.
Definition getAppointments : Config := request GET "/appointments" NoBody.

(** 401 on the request, then 500 on the refresh. *)
Definition refreshBroken : Server := scripted [answer 401; answer 500].

(** 401 on the request, fresh tokens on the refresh, 401 again on the
    retry (and on whatever might follow). *)
Definition stillUnauthorized : Server :=
  scripted [answer 401; tokens "a1" "r1"; answer 401; answer 401; answer 401].

(** 401 on the request, fresh tokens on the refresh, 200 on the retry. *)
Definition renewed : Server :=
  scripted [answer 401; tokens "a1" "r1"; answer 200].

(** Two requests answered 401, fresh tokens for each of two refresh
    calls, then 200 on the two retries. *)
Definition twoExpired : Server :=
  scripted [answer 401; answer 401;
            tokens "a1" "r1"; tokens "a2" "r2";
            answer 200; answer 200].

(** A server on which every access token has expired except those
    its refresh endpoint hands out. *)
Definition renewing : Server :=
  fun sent config =>
    if Interceptors.is_refresh config then tokens "a1" "r1"
    else match Authorization config with
         | Some "Bearer a1" => answer 200
         | _ => answer 401
         end.

(** The error of a request sent with the expired token and answered
    401. *)
Definition expired (config : Config) : AxiosError :=
  mkError (Interceptors.requestInterceptor config signedIn)
          (Some (mkResponse 401 (mkTokens "" ""))).

(** ** The offline queue *)

(** The queue runs over the bare client; its world is the list of
    requests sent. *)
Definition fresh : Sync.State (list Config) :=
  Sync.mkState Sync.initialStatus None None [].

Definition pet42 : Payload := mkPayload (Some "42") "{}".

(** One deletion of pet 42 waiting in the queue. *)
Definition oneDelete : Sync.State (list Config) :=
  Sync.addToQueue 1000 1001 "0.5" Sync.pet Sync.delete (Some pet42) fresh.

Definition theDelete : Sync.SyncItem :=
  Sync.mkItem "pet_1000_0.5" Sync.pet Sync.delete (Some pet42) 1001 0.

(** A remote side that cannot be reached, and one on which the
    record is already gone. *)
Definition unreachable : Server := fun _ _ => NoAnswer.
Definition alreadyGone : Server := fun _ _ => answer 404.

Definition deleteSent : Config := request DELETE "/pets/42" NoBody.

(** A server that accepts everything. *)
Definition allOk : Server := fun _ _ => answer 200.

(** A creation queued behind the deletion. *)
Definition twoQueued : Sync.State (list Config) :=
  Sync.addToQueue 1002 1003 "0.25" Sync.pet Sync.create (Some pet42) oneDelete.

Definition theCreate : Sync.SyncItem :=
  Sync.mkItem "pet_1002_0.25" Sync.pet Sync.create (Some pet42) 1003 0.

Definition createSent : Config := request POST "/pets" (DataBody pet42).

(** The deletion fails once, the creation behind it succeeds. *)
Definition firstFails : Server := scripted [answer 500; answer 201].

(** What a flush that stopped half-way leaves in storage. *)
Definition interrupted : Sync.State (list Config) :=
  Sync.updateStatus (Sync.mkUpdate (Some true) None None None) oneDelete.

(** ** Conflicts *)

(** What conversion to a number gives on the strings used below; off
    the table it gives [NaN], as it does for an ISO date. *)
Definition toNumber : string -> option Z :=
  fun s => match s with
           | "1714557600000" => Some 1714557600000%Z
           | _ => None
           end.

(** A local edit that has only its enqueue timestamp (1 May 2024,
    10:00 UTC), and the stored record, updated two days later. *)
Definition edited : Sync.Doc.t :=
  Sync.Doc.mk (Sync.Primitive Sync.PUndefined)
              (Sync.Primitive (Sync.PNum 1714557600000)) "local".

Definition stored : Sync.Doc.t :=
  Sync.Doc.mk (Sync.Primitive (Sync.PStr "2024-05-03T09:30:00Z"))
              (Sync.Primitive Sync.PUndefined) "remote".

(** Two sides with numeric times, 7 and 5. *)
Definition newer : Sync.Doc.t :=
  Sync.Doc.mk (Sync.Primitive (Sync.PNum 7)) (Sync.Primitive Sync.PUndefined) "local".

Definition older : Sync.Doc.t :=
  Sync.Doc.mk (Sync.Primitive Sync.PNull) (Sync.Primitive (Sync.PNum 5)) "remote".

(** ** Tokens *)

(** The double-quote character. *)
Definition dq : string :=
  String (Ascii.Ascii false true false false false true false false) "".

(** [{"exp":"99999999999"}], [{"exp":99999999999}], [{"exp":1}] and
    [{"sub":"u1"}] as texts. *)
Definition textStringExp : string :=
  ("{" ++ dq ++ "exp" ++ dq ++ ":" ++ dq ++ "99999999999" ++ dq ++ "}")%string.
Definition textFarExp : string :=
  ("{" ++ dq ++ "exp" ++ dq ++ ":99999999999}")%string.
Definition textPastExp : string :=
  ("{" ++ dq ++ "exp" ++ dq ++ ":1}")%string.
Definition textNoExp : string :=
  ("{" ++ dq ++ "sub" ++ dq ++ ":" ++ dq ++ "u1" ++ dq ++ "}")%string.

(** What the built-ins return on the middle segments and texts used
    below. *)
Definition runtime : Auth.Runtime :=
  Auth.tabled
    [("eyJleHAiOiI5OTk5OTk5OTk5OSJ9", textStringExp);
     ("eyJleHAiOjk5OTk5OTk5OTk5fQ", textFarExp);
     ("eyJleHAiOjF9", textPastExp);
     ("eyJzdWIiOiJ1MSJ9", textNoExp);
     ("bnVsbA", "null")]
    [(textStringExp, Auth.JObj [("exp", Auth.JStr "99999999999")]);
     (textFarExp, Auth.JObj [("exp", Auth.JNum 99999999999)]);
     (textPastExp, Auth.JObj [("exp", Auth.JNum 1)]);
     (textNoExp, Auth.JObj [("sub", Auth.JStr "u1")]);
     ("null", Auth.JNull)]
    [("99999999999", 99999999999%Z)].

(** A reading of the clock, in milliseconds (14 November 2023). *)
Definition clock : Z := 1700000000000.

(** ** Signing in *)

Definition goodToken : string := "h.eyJleHAiOjk5OTk5OTk5OTk5fQ.s".

Definition ada : Auth.LoginCredentials := Auth.mkCredentials "ada@example.org" "pw".

(** A backend that signs in without handing out a refresh token, and
    one that refuses. *)
Definition signIn
  : string -> Auth.LoginCredentials -> unit -> unit * (Auth.AuthResponse + string) :=
  fun _ _ w => (w, inl (Auth.mkAuthResponse goodToken None "ada")).

Definition refuse
  : string -> Auth.LoginCredentials -> unit -> unit * (Auth.AuthResponse + string) :=
  fun _ _ w => (w, inr "401").

(** What an earlier session left in the store. *)
Definition leftOver : Auth.SecureStore :=
  Auth.mkSecureStore (Some "old") (Some "old-refresh").

(** ** Appointments *)

(** Time values of the date strings used below. *)
Definition instants : string -> option Z :=
  fun s => Auth.lookup s
             [("2024-04-01T08:00:00Z", 1711958400000%Z);
              ("2024-05-01T10:00:00Z", 1714557600000%Z);
              ("2024-05-02T00:00:00Z", 1714608000000%Z);
              ("2024-05-03T09:30:00Z", 1714728600000%Z)].

Definition midnight : Z := 1714608000000.

Definition visits : list Appointments.Appointment :=
  [Appointments.mkAppointment "1" "42" "2024-05-03T09:30:00Z" Appointments.scheduled "";
   Appointments.mkAppointment "2" "42" "2024-05-02T00:00:00Z" Appointments.no_show "";
   Appointments.mkAppointment "3" "42" "2024-05-03T09:30:00Z" Appointments.cancelled "";
   Appointments.mkAppointment "4" "42" "2024-04-01T08:00:00Z" Appointments.scheduled "";
   Appointments.mkAppointment "5" "42" "soon" Appointments.scheduled ""].

Definition listing
  : string -> option string -> unit
    -> unit * (Appointments.AppointmentsListResponse + ErrorHandler.Thrown) :=
  fun _ _ w => (w, inl (Appointments.mkList (Some visits) None None)).

Definition timedOut
  : string -> option string -> unit
    -> unit * (Appointments.AppointmentsListResponse + ErrorHandler.Thrown) :=
  fun _ _ w => (w, inr (ErrorHandler.Axios (Some "ECONNABORTED") None)).

End Scenario.

(* ================================================================== *)
(** * Properties of the request pipeline                               *)
(* ================================================================== *)

Module InterceptorsFacts.
Import Axios Interceptors.

Lemma requestInterceptor_url config st :
  url (requestInterceptor config st) = url config.
Proof.
  unfold requestInterceptor.
  destruct (access_token (storage st)) as [token|]; [|reflexivity].
  destruct (truthy (Some token)); reflexivity.
Qed.

Lemma requestInterceptor_retry config st :
  _retry (requestInterceptor config st) = _retry config.
Proof.
  unfold requestInterceptor.
  destruct (access_token (storage st)) as [token|]; [|reflexivity].
  destruct (truthy (Some token)); reflexivity.
Qed.

Lemma dispatch_dispatched server config st :
  dispatched config st (dispatch server config st).
Proof.
  unfold dispatch, transport.
  destruct (server (log st) (requestInterceptor config st)) as [r|].
  - destruct (validateStatus (status r)); constructor.
  - constructor.
Qed.

Lemma dispatch_fst server config st :
  fst (dispatch server config st) =
    mkState (storage st) (log st ++ [requestInterceptor config st]).
Proof. now destruct (dispatch_dispatched server config st). Qed.

(** A dispatch answered with a status outside 2xx. *)
Lemma dispatch_rejected server config st r :
  server (log st) (requestInterceptor config st) = Answer r ->
  validateStatus (status r) = false ->
  dispatch server config st =
    (mkState (storage st) (log st ++ [requestInterceptor config st]),
     Rejected (mkError (requestInterceptor config st) (Some r))).
Proof.
  intros Hs Hv. unfold dispatch, transport. rewrite Hs, Hv. reflexivity.
Qed.

Lemma dispatch_resolved server config st r :
  server (log st) (requestInterceptor config st) = Answer r ->
  validateStatus (status r) = true ->
  dispatch server config st =
    (mkState (storage st) (log st ++ [requestInterceptor config st]), Resolved r).
Proof.
  intros Hs Hv. unfold dispatch, transport. rewrite Hs, Hv. reflexivity.
Qed.

Lemma status_401_invalid r : status r = 401%Z -> validateStatus (status r) = false.
Proof. intros ->. reflexivity. Qed.

(** The rejection handler passes on, untouched, any error of a
    request already marked as retried. *)
Lemma responseRejected_retried apiClient error st :
  _retry (err_config error) = true ->
  responseRejected apiClient error st = (st, Some (Rejected error)).
Proof.
  intros H. unfold responseRejected. rewrite H, andb_false_r. reflexivity.
Qed.

(** ... and any error that is not a 401. *)
Lemma responseRejected_other apiClient error st :
  is401 error = false ->
  responseRejected apiClient error st = (st, Some (Rejected error)).
Proof.
  intros H. unfold responseRejected. rewrite H. reflexivity.
Qed.

(** A request marked as retried makes one trip and settles with
    whatever that trip yields. *)
Lemma send_retried server fuel config st :
  _retry config = true ->
  send server (S fuel) config st = settled (dispatch server config st).
Proof.
  intros H. cbn [send].
  destruct (dispatch_dispatched server config st); cbn [settle].
  - reflexivity.
  - apply responseRejected_retried. cbn. now rewrite requestInterceptor_retry.
Qed.

(** A 401 on a request not yet retried, with no usable refresh token
    in storage: the handler marks the request and re-throws. *)
Lemma send_401_no_token server fuel config st r :
  _retry config = false ->
  server (log st) (requestInterceptor config st) = Answer r ->
  status r = 401%Z ->
  truthy (refresh_token (storage st)) = false ->
  send server (S fuel) config st =
    (mkState (storage st) (log st ++ [requestInterceptor config st]),
     Some (Rejected (mkError (set_retry (requestInterceptor config st)) (Some r)))).
Proof.
  intros Hretry Hsrv H401 Htok. cbn [send].
  rewrite (dispatch_rejected _ _ _ _ Hsrv (status_401_invalid _ H401)).
  cbn [settle]. unfold responseRejected, is401. cbn.
  rewrite H401, requestInterceptor_retry, Hretry. cbn.
  destruct (refresh_token (storage st)) as [rt|]; [|reflexivity].
  cbn in Htok. cbn. rewrite Htok. reflexivity.
Qed.

(** A 401 on a request not yet retried, with a refresh token stored:
    the handler calls the client for a refresh and goes on from how
    that call settles. *)
Lemma send_401_refresh server fuel config st r rt :
  _retry config = false ->
  server (log st) (requestInterceptor config st) = Answer r ->
  status r = 401%Z ->
  refresh_token (storage st) = Some rt ->
  truthy (Some rt) = true ->
  send server (S fuel) config st =
    let st1 := mkState (storage st) (log st ++ [requestInterceptor config st]) in
    match send server fuel (request POST REFRESH_URL (RefreshBody rt)) st1 with
    | (st2, None) => (st2, None)
    | (st2, Some (Resolved response)) =>
        send server fuel
          (set_Authorization (set_retry (requestInterceptor config st))
             ("Bearer " ++ accessToken (data response))%string)
          (mkState (mkStorage (Some (accessToken (data response)))
                              (Some (refreshToken (data response))))
                   (log st2))
    | (st2, Some (Rejected refreshError)) =>
        (mkState (mkStorage None None) (log st2), Some (Rejected refreshError))
    end.
Proof.
  intros Hretry Hsrv H401 Htok Htruthy. cbn [send].
  rewrite (dispatch_rejected _ _ _ _ Hsrv (status_401_invalid _ H401)).
  cbn [settle]. unfold responseRejected, is401. cbn -[truthy send].
  rewrite H401, requestInterceptor_retry, Hretry. cbn -[truthy send].
  rewrite Htok, Htruthy. reflexivity.
Qed.

(** Once settled, more fuel changes nothing. *)
Lemma responseRejected_mono (c1 c2 : Client) error st st' out :
  (forall config s s' o, c1 config s = (s', Some o) -> c2 config s = (s', Some o)) ->
  responseRejected c1 error st = (st', Some out) ->
  responseRejected c2 error st = (st', Some out).
Proof.
  intros Hc. unfold responseRejected.
  destruct (is401 error && negb (_retry (err_config error))); [|auto].
  destruct (refresh_token (storage st)) as [rt|]; [|auto].
  destruct (truthy (Some rt)); [|auto].
  destruct (c1 _ st) as [st1 [[response|refreshError]|]] eqn:E; [| |discriminate].
  - rewrite (Hc _ _ _ _ E). apply Hc.
  - rewrite (Hc _ _ _ _ E). auto.
Qed.

Lemma send_fuel_S server fuel :
  forall config st st' out,
    send server fuel config st = (st', Some out) ->
    send server (S fuel) config st = (st', Some out).
Proof.
  induction fuel as [|fuel IH]; intros config st st' out H; [discriminate|].
  cbn [send] in H. cbn [send].
  destruct (dispatch server config st) as [st1 [r|e]]; cbn [settle] in *.
  - exact H.
  - eapply responseRejected_mono; [|exact H]. exact IH.
Qed.

Lemma send_fuel_mono server fuel k config st st' out :
  send server fuel config st = (st', Some out) ->
  send server (k + fuel) config st = (st', Some out).
Proof.
  intros H. induction k as [|k IH]; [exact H|]. now apply send_fuel_S.
Qed.

(** ** Counting what reaches the network *)

Lemma calls_to_app u l1 l2 :
  calls_to u (l1 ++ l2) = calls_to u l1 + calls_to u l2.
Proof. unfold calls_to. now rewrite filter_app, length_app. Qed.

Lemma calls_to_one u c : calls_to u [c] <= 1.
Proof. unfold calls_to. cbn. destruct (url c =? u); cbn; lia. Qed.

Lemma calls_to_elsewhere u v l :
  u <> v -> Forall (fun c => url c = v) l -> calls_to u l = 0.
Proof.
  intros Huv H. unfold calls_to. induction H as [|c l Hc _ IH]; [reflexivity|].
  cbn. rewrite Hc. destruct (String.eqb_spec v u) as [->|_]; [contradiction|exact IH].
Qed.

(** While a call to the refresh endpoint is under way, whatever else
    the handler sends goes to the refresh endpoint too. *)
Lemma send_refresh_only server fuel :
  forall config st,
    url config = REFRESH_URL ->
    exists new, log (fst (send server fuel config st)) = log st ++ new /\
                Forall (fun c => url c = REFRESH_URL) new.
Proof.
  induction fuel as [|fuel IH]; intros config st Hurl.
  { exists []. cbn. now rewrite app_nil_r. }
  cbn [send].
  assert (Hc1 : url (requestInterceptor config st) = REFRESH_URL)
    by now rewrite requestInterceptor_url.
  assert (Hone : exists new,
             log st ++ [requestInterceptor config st] = log st ++ new /\
             Forall (fun c => url c = REFRESH_URL) new)
    by (exists [requestInterceptor config st]; auto).
  destruct (dispatch_dispatched server config st) as [r|resp]; cbn [settle].
  - exact Hone.
  - unfold responseRejected. cbn [err_config err_response storage].
    destruct (is401 _ && negb _); [|exact Hone].
    destruct (refresh_token (storage st)) as [rt|]; [|exact Hone].
    destruct (truthy (Some rt)); [|exact Hone].
    match goal with
    | |- context [send server fuel ?c ?s] =>
        destruct (IH c s eq_refl) as (new1 & Hl1 & Hf1);
        destruct (send server fuel c s) as [st1 [[response|refreshError]|]]
    end; cbn [fst log] in Hl1.
    + match goal with
      | |- context [send server fuel ?c ?s] =>
          destruct (IH c s Hc1) as (new2 & Hl2 & Hf2)
      end.
      cbn [log] in Hl2.
      exists ([requestInterceptor config st] ++ new1 ++ new2). split.
      * rewrite Hl2, Hl1. now rewrite <- !app_assoc.
      * repeat (apply Forall_app; split); auto.
    + exists ([requestInterceptor config st] ++ new1). split.
      * cbn [fst log]. rewrite Hl1. now rewrite <- !app_assoc.
      * apply Forall_app; split; auto.
    + exists ([requestInterceptor config st] ++ new1). split.
      * cbn [fst]. rewrite Hl1. now rewrite <- !app_assoc.
      * apply Forall_app; split; auto.
Qed.

(** However many 401s come back and however long the send is followed,
    a request that is not itself a call to the refresh endpoint has
    reached the network at most twice: once as submitted, and at most
    once more as the retry. *)
Lemma send_at_most_twice server fuel config st :
  url config <> REFRESH_URL ->
  exists new, log (fst (send server fuel config st)) = log st ++ new /\
              calls_to (url config) new <= 2.
Proof.
  intros Hurl. destruct fuel as [|fuel].
  { exists []. cbn. rewrite app_nil_r. split; [reflexivity|lia]. }
  cbn [send].
  pose proof (calls_to_one (url config) (requestInterceptor config st)) as H1.
  assert (Hone : exists new,
             log st ++ [requestInterceptor config st] = log st ++ new /\
             calls_to (url config) new <= 2)
    by (exists [requestInterceptor config st]; split; [reflexivity|lia]).
  destruct (dispatch_dispatched server config st) as [r|resp]; cbn [settle].
  - exact Hone.
  - unfold responseRejected. cbn [err_config err_response storage].
    destruct (is401 _ && negb _); [|exact Hone].
    destruct (refresh_token (storage st)) as [rt|]; [|exact Hone].
    destruct (truthy (Some rt)); [|exact Hone].
    match goal with
    | |- context [send server fuel ?c ?s] =>
        destruct (send_refresh_only server fuel c s eq_refl) as (new1 & Hl1 & Hf1);
        destruct (send server fuel c s) as [st1 [[response|refreshError]|]]
    end; cbn [fst log] in Hl1.
    + destruct fuel as [|fuel].
      * exists ([requestInterceptor config st] ++ new1). split.
        -- cbn [send fst log]. rewrite Hl1. now rewrite <- !app_assoc.
        -- rewrite calls_to_app, (calls_to_elsewhere _ _ _ Hurl Hf1). lia.
      * rewrite send_retried by reflexivity. unfold settled. cbn [fst].
        rewrite dispatch_fst. cbn [storage log].
        match goal with
        | |- context [requestInterceptor ?c ?s] =>
            lazymatch c with
            | set_Authorization _ _ =>
                pose proof (calls_to_one (url config) (requestInterceptor c s)) as H2;
                exists ([requestInterceptor config st] ++ new1
                          ++ [requestInterceptor c s])
            end
        end.
        split.
        -- rewrite Hl1. now rewrite <- !app_assoc.
        -- rewrite !calls_to_app, (calls_to_elsewhere _ _ _ Hurl Hf1). lia.
    + exists ([requestInterceptor config st] ++ new1). split.
      * cbn [fst log]. rewrite Hl1. now rewrite <- !app_assoc.
      * rewrite calls_to_app, (calls_to_elsewhere _ _ _ Hurl Hf1). lia.
    + exists ([requestInterceptor config st] ++ new1). split.
      * cbn [fst]. rewrite Hl1. now rewrite <- !app_assoc.
      * rewrite calls_to_app, (calls_to_elsewhere _ _ _ Hurl Hf1). lia.
Qed.

(** ** The refresh path *)

(** C8.  A 401 on a request not yet retried, with no refresh token in
    storage (absent, or empty): the send is rejected at once with the
    error of that request.  Exactly one request has gone out, the
    original one, so nothing was sent to the refresh endpoint, and
    storage is as it was. *)
Theorem no_refresh_token_no_refresh_call server fuel config st r :
  _retry config = false ->
  server (log st) (requestInterceptor config st) = Answer r ->
  status r = 401%Z ->
  truthy (refresh_token (storage st)) = false ->
  send server (S fuel) config st =
    (mkState (storage st) (log st ++ [requestInterceptor config st]),
     Some (Rejected (mkError (set_retry (requestInterceptor config st)) (Some r)))).
Proof. apply send_401_no_token. Qed.

Lemma no_refresh_token_no_refresh_call_witness :
  send (scripted [answer 401]) 1 Scenario.getPets Scenario.noRefreshToken =
    (mkState (mkStorage (Some "a0") None)
       [mkConfig GET "/pets" NoBody (Some "Bearer a0") false],
     Some (Rejected (mkError (mkConfig GET "/pets" NoBody (Some "Bearer a0") true)
                       (Some (mkResponse 401 (mkTokens "" "")))))).
Proof.
  apply (no_refresh_token_no_refresh_call
           (scripted [answer 401]) 0 Scenario.getPets Scenario.noRefreshToken
           (mkResponse 401 (mkTokens "" ""))); reflexivity.
Defined.

(** C1, as stated, fails: the request is answered 401, the refresh
    call is answered 500, and the send is rejected with the error of
    the refresh call (status 500, request [POST /auth/refresh]), which
    is not the 401 error of the original request. *)
Lemma refresh_error_replaces_original_401 :
  let original :=
    mkError (mkConfig GET "/pets" NoBody (Some "Bearer a0") false)
            (Some (mkResponse 401 (mkTokens "" ""))) in
  let refreshError :=
    mkError (mkConfig POST "/auth/refresh" (RefreshBody "r0") (Some "Bearer a0") false)
            (Some (mkResponse 500 (mkTokens "" ""))) in
  snd (dispatch Scenario.refreshBroken Scenario.getPets Scenario.signedIn)
    = Rejected original
  /\ send Scenario.refreshBroken 2 Scenario.getPets Scenario.signedIn
    = (mkState (mkStorage None None)
         [err_config original; err_config refreshError],
       Some (Rejected refreshError))
  /\ is401 refreshError = false
  /\ refreshError <> original
  /\ refreshError <> mkError (set_retry (err_config original)) (err_response original).
Proof.
  cbn zeta. repeat split; try reflexivity; discriminate.
Qed.

(** C1 (amended).  When the first attempt is answered 401 and the
    refresh then fails, what the caller gets depends on how it fails.
    With no refresh token stored, the send is rejected with the
    original 401 error.  With one stored, if the refresh call is
    rejected, both stored tokens are removed and the send is rejected
    with the error of the refresh call. *)
Theorem refresh_failure_outcome server fuel config st r :
  _retry config = false ->
  server (log st) (requestInterceptor config st) = Answer r ->
  status r = 401%Z ->
  let sent := requestInterceptor config st in
  let st1 := mkState (storage st) (log st ++ [sent]) in
  (truthy (refresh_token (storage st)) = false ->
   send server (S fuel) config st =
     (st1, Some (Rejected (mkError (set_retry sent) (Some r)))))
  /\
  (forall rt st2 refreshError,
      refresh_token (storage st) = Some rt ->
      truthy (Some rt) = true ->
      send server fuel (request POST REFRESH_URL (RefreshBody rt)) st1
        = (st2, Some (Rejected refreshError)) ->
      send server (S fuel) config st =
        (mkState (mkStorage None None) (log st2), Some (Rejected refreshError))).
Proof.
  intros Hretry Hsrv H401 sent st1. split.
  - intros Htok. now apply send_401_no_token.
  - intros rt st2 refreshError Htok Htruthy Hrefresh.
    rewrite (send_401_refresh _ _ _ _ _ _ Hretry Hsrv H401 Htok Htruthy).
    cbn zeta. fold sent. fold st1. rewrite Hrefresh. reflexivity.
Qed.

Lemma refresh_failure_outcome_witness :
  send (scripted [answer 401]) 1 Scenario.getPets Scenario.noRefreshToken =
    (mkState (mkStorage (Some "a0") None)
       [mkConfig GET "/pets" NoBody (Some "Bearer a0") false],
     Some (Rejected (mkError (mkConfig GET "/pets" NoBody (Some "Bearer a0") true)
                       (Some (mkResponse 401 (mkTokens "" ""))))))
  /\
  send Scenario.refreshBroken 2 Scenario.getPets Scenario.signedIn =
    (mkState (mkStorage None None)
       [mkConfig GET "/pets" NoBody (Some "Bearer a0") false;
        mkConfig POST "/auth/refresh" (RefreshBody "r0") (Some "Bearer a0") false],
     Some (Rejected
             (mkError
                (mkConfig POST "/auth/refresh" (RefreshBody "r0") (Some "Bearer a0") false)
                (Some (mkResponse 500 (mkTokens "" "")))))).
Proof.
  split.
  - apply (proj1 (refresh_failure_outcome
                    (scripted [answer 401]) 0 Scenario.getPets Scenario.noRefreshToken
                    (mkResponse 401 (mkTokens "" "")) eq_refl eq_refl eq_refl)).
    reflexivity.
  - apply (proj2 (refresh_failure_outcome
                    Scenario.refreshBroken 1 Scenario.getPets Scenario.signedIn
                    (mkResponse 401 (mkTokens "" "")) eq_refl eq_refl eq_refl)
             "r0"
             (mkState (mkStorage (Some "a0") (Some "r0"))
                [mkConfig GET "/pets" NoBody (Some "Bearer a0") false;
                 mkConfig POST "/auth/refresh" (RefreshBody "r0")
                   (Some "Bearer a0") false])); reflexivity.
Defined.

(** When the refresh call is itself answered 401, the handler takes
    it for one more request to refresh: against a server that answers
    401 to everything, with a refresh token stored, the send never
    settles, whatever the fuel. *)
Lemma send_never_settles_on_constant_401 fuel :
  forall config l,
    _retry config = false ->
    snd (send (fun _ _ => answer 401) fuel config
              (mkState (mkStorage (Some "a0") (Some "r0")) l)) = None.
Proof.
  induction fuel as [|fuel IH]; intros config l Hretry; [reflexivity|].
  rewrite (send_401_refresh _ _ _ _ (mkResponse 401 (mkTokens "" "")) "r0");
    try reflexivity; try assumption.
  cbn zeta. cbn [storage log].
  match goal with
  | |- context [send ?s fuel ?c ?st] =>
      pose proof (IH c (log st) eq_refl) as E; cbn [log] in E;
      destruct (send s fuel c st) as [st2 [o|]]
  end; [discriminate E|reflexivity].
Qed.

(** ** Retry once *)

(** The header a retried request goes out with is the one built from
    the access token the refresh returned. *)
Lemma retry_header config a rtok l h :
  h = ("Bearer " ++ a)%string ->
  Authorization
    (requestInterceptor (set_Authorization config h)
       (mkState (mkStorage (Some a) rtok) l)) = Some h.
Proof.
  intros ->. unfold requestInterceptor. cbn [storage access_token].
  destruct (truthy (Some a)); reflexivity.
Qed.

(** The handler alone, on the 401 of a request not yet retried, when
    the refresh call it makes is answered with fresh tokens: it
    settles as the one trip of the retried request does. *)
Lemma responseRejected_refreshed server fuel sent r st rt response :
  _retry sent = false ->
  status r = 401%Z ->
  refresh_token (storage st) = Some rt ->
  truthy (Some rt) = true ->
  let refreshSent :=
    requestInterceptor (request POST REFRESH_URL (RefreshBody rt)) st in
  server (log st) refreshSent = Answer response ->
  validateStatus (status response) = true ->
  responseRejected (send server (S fuel)) (mkError sent (Some r)) st =
    settled (dispatch server
               (set_Authorization (set_retry sent)
                  ("Bearer " ++ accessToken (data response))%string)
               (mkState (mkStorage (Some (accessToken (data response)))
                                   (Some (refreshToken (data response))))
                        (log st ++ [refreshSent]))).
Proof.
  intros Hretry H401 Htok Htruthy refreshSent Hrefresh Hok.
  unfold responseRejected, is401. cbn [err_config err_response].
  rewrite H401, Hretry. cbn [Z.eqb Pos.eqb andb negb]. rewrite Htok, Htruthy.
  assert (E : send server (S fuel) (request POST REFRESH_URL (RefreshBody rt)) st
              = (mkState (storage st) (log st ++ [refreshSent]),
                 Some (Resolved response))).
  { cbn [send]. now rewrite (dispatch_resolved _ _ _ response). }
  rewrite E. cbn [log]. now rewrite send_retried.
Qed.

(** 401, a refresh that succeeds, and the retry. *)
Lemma send_401_refreshed server fuel config st r rt response :
  _retry config = false ->
  let sent := requestInterceptor config st in
  server (log st) sent = Answer r ->
  status r = 401%Z ->
  refresh_token (storage st) = Some rt ->
  truthy (Some rt) = true ->
  let refreshSent :=
    requestInterceptor (request POST REFRESH_URL (RefreshBody rt)) st in
  server (log st ++ [sent]) refreshSent = Answer response ->
  validateStatus (status response) = true ->
  send server (S (S fuel)) config st =
    settled (dispatch server
               (set_Authorization (set_retry sent)
                  ("Bearer " ++ accessToken (data response))%string)
               (mkState (mkStorage (Some (accessToken (data response)))
                                   (Some (refreshToken (data response))))
                        (log st ++ [sent; refreshSent]))).
Proof.
  intros Hretry sent Hsrv H401 Htok Htruthy refreshSent Hrefresh Hok.
  rewrite (send_401_refresh _ _ _ _ _ _ Hretry Hsrv H401 Htok Htruthy).
  cbn zeta. fold sent.
  assert (E : send server (S fuel) (request POST REFRESH_URL (RefreshBody rt))
                (mkState (storage st) (log st ++ [sent]))
              = (mkState (storage st) ((log st ++ [sent]) ++ [refreshSent]),
                 Some (Resolved response))).
  { cbn [send]. rewrite (dispatch_resolved _ _ _ response); [reflexivity| |exact Hok].
    exact Hrefresh. }
  rewrite E. cbn [log]. rewrite <- app_assoc. cbn [app].
  now rewrite send_retried.
Qed.

(** C6.  A request is resubmitted at most once, however many 401s
    come back.  First, however far the send of a request (other than
    a call to the refresh endpoint itself) is followed, that request
    has reached the network at most twice.  Second, a request marked
    as retried makes one trip and settles as that trip does, with no
    refresh and no further submission.  Third, after a 401 has led to
    one refresh and one retry, a 401 on the retry is handed to the
    caller: three requests have gone out (original, refresh, retry)
    and no more. *)
Theorem original_request_resubmitted_at_most_once server fuel config st :
  (url config <> REFRESH_URL ->
   exists new, log (fst (send server fuel config st)) = log st ++ new /\
               calls_to (url config) new <= 2)
  /\
  (_retry config = true ->
   send server (S fuel) config st = settled (dispatch server config st)
   /\ fst (dispatch server config st)
      = mkState (storage st) (log st ++ [requestInterceptor config st]))
  /\
  (forall r rt response r',
      _retry config = false ->
      let sent := requestInterceptor config st in
      server (log st) sent = Answer r ->
      status r = 401%Z ->
      refresh_token (storage st) = Some rt ->
      truthy (Some rt) = true ->
      let refreshSent :=
        requestInterceptor (request POST REFRESH_URL (RefreshBody rt)) st in
      server (log st ++ [sent]) refreshSent = Answer response ->
      validateStatus (status response) = true ->
      let refreshed :=
        mkStorage (Some (accessToken (data response)))
                  (Some (refreshToken (data response))) in
      let retrySent :=
        requestInterceptor
          (set_Authorization (set_retry sent)
             ("Bearer " ++ accessToken (data response))%string)
          (mkState refreshed []) in
      server (log st ++ [sent; refreshSent]) retrySent = Answer r' ->
      status r' = 401%Z ->
      send server (S (S fuel)) config st =
        (mkState refreshed (log st ++ [sent; refreshSent; retrySent]),
         Some (Rejected (mkError retrySent (Some r'))))).
Proof.
  split; [|split].
  - apply send_at_most_twice.
  - intros Hretry. split; [now apply send_retried|apply dispatch_fst].
  - intros r rt response r' Hretry sent Hsrv H401 Htok Htruthy refreshSent
           Hrefresh Hok refreshed retrySent Hsrv' H401'.
    rewrite (send_401_refreshed _ _ _ _ _ _ _ Hretry Hsrv H401 Htok Htruthy Hrefresh Hok).
    fold sent refreshSent refreshed.
    rewrite (dispatch_rejected _ _ _ r').
    + unfold settled. cbn [fst snd storage log]. rewrite <- app_assoc. reflexivity.
    + exact Hsrv'.
    + now apply status_401_invalid.
Qed.

Lemma original_request_resubmitted_at_most_once_witness :
  (exists new,
      [mkConfig GET "/pets" NoBody (Some "Bearer a0") false;
       mkConfig POST "/auth/refresh" (RefreshBody "r0") (Some "Bearer a0") false;
       mkConfig GET "/pets" NoBody (Some "Bearer a1") true] = [] ++ new
      /\ calls_to "/pets" new <= 2)
  /\
  send Scenario.stillUnauthorized 1
       (mkConfig GET "/pets" NoBody (Some "Bearer a0") true) Scenario.signedIn
    = (mkState (mkStorage (Some "a0") (Some "r0"))
         [mkConfig GET "/pets" NoBody (Some "Bearer a0") true],
       Some (Rejected (mkError (mkConfig GET "/pets" NoBody (Some "Bearer a0") true)
                         (Some (mkResponse 401 (mkTokens "" ""))))))
  /\
  send Scenario.stillUnauthorized 2 Scenario.getPets Scenario.signedIn =
    (mkState (mkStorage (Some "a1") (Some "r1"))
       [mkConfig GET "/pets" NoBody (Some "Bearer a0") false;
        mkConfig POST "/auth/refresh" (RefreshBody "r0") (Some "Bearer a0") false;
        mkConfig GET "/pets" NoBody (Some "Bearer a1") true],
     Some (Rejected (mkError (mkConfig GET "/pets" NoBody (Some "Bearer a1") true)
                       (Some (mkResponse 401 (mkTokens "" "")))))).
Proof.
  split; [|split].
  - apply (proj1 (original_request_resubmitted_at_most_once
                    Scenario.stillUnauthorized 2 Scenario.getPets Scenario.signedIn)).
    discriminate.
  - apply (proj1 (proj2 (original_request_resubmitted_at_most_once
                    Scenario.stillUnauthorized 0
                    (mkConfig GET "/pets" NoBody (Some "Bearer a0") true)
                    Scenario.signedIn))).
    reflexivity.
  - apply (proj2 (proj2 (original_request_resubmitted_at_most_once
                    Scenario.stillUnauthorized 0 Scenario.getPets Scenario.signedIn))
             (mkResponse 401 (mkTokens "" "")) "r0"
             (mkResponse 200 (mkTokens "a1" "r1"))
             (mkResponse 401 (mkTokens "" ""))); reflexivity.
Defined.

(** ** The refresh call *)

Lemma requestInterceptor_refresh rt st :
  is_refresh (requestInterceptor (request POST REFRESH_URL (RefreshBody rt)) st) = true
  /\ body (requestInterceptor (request POST REFRESH_URL (RefreshBody rt)) st)
     = RefreshBody rt.
Proof.
  unfold requestInterceptor.
  destruct (access_token (storage st)) as [token|]; [|split; reflexivity].
  destruct (truthy (Some token)); split; reflexivity.
Qed.

(** ** What passes through, the whole recovery, and a refresh that is refused *)

(** X1.  A 2xx answer resolves the send with that answer.  An answer
    outside 2xx other than 401, and a request that gets no answer at
    all, reject it with the error of that one attempt, the request
    left unmarked.  In all three cases one request has gone out, no
    call was made to the refresh endpoint and storage is as it was. *)
Theorem other_outcomes_pass_through server fuel config st :
  let sent := requestInterceptor config st in
  let st1 := mkState (storage st) (log st ++ [sent]) in
  (forall r, server (log st) sent = Answer r ->
             validateStatus (status r) = true ->
             send server (S fuel) config st = (st1, Some (Resolved r)))
  /\ (forall r, server (log st) sent = Answer r ->
                validateStatus (status r) = false ->
                status r <> 401%Z ->
                send server (S fuel) config st
                = (st1, Some (Rejected (mkError sent (Some r)))))
  /\ (server (log st) sent = NoAnswer ->
      send server (S fuel) config st = (st1, Some (Rejected (mkError sent None)))).
Proof.
  intros sent st1. repeat split.
  - intros r Hsrv Hok. cbn [send].
    now rewrite (dispatch_resolved _ _ _ _ Hsrv Hok).
  - intros r Hsrv Hbad Hnot. cbn [send].
    rewrite (dispatch_rejected _ _ _ _ Hsrv Hbad). cbn [settle].
    apply responseRejected_other. unfold is401. cbn.
    now apply Z.eqb_neq.
  - intros Hsrv. cbn [send]. unfold dispatch, transport. fold sent.
    rewrite Hsrv. cbn [settle]. now apply responseRejected_other.
Qed.

Lemma other_outcomes_pass_through_witness :
  send Scenario.allOk 1 Scenario.getPets Scenario.signedIn
  = (mkState (mkStorage (Some "a0") (Some "r0"))
       [mkConfig GET "/pets" NoBody (Some "Bearer a0") false],
     Some (Resolved (mkResponse 200 (mkTokens "" ""))))
  /\ send Scenario.alreadyGone 1 Scenario.getPets Scenario.signedIn
  = (mkState (mkStorage (Some "a0") (Some "r0"))
       [mkConfig GET "/pets" NoBody (Some "Bearer a0") false],
     Some (Rejected (mkError (mkConfig GET "/pets" NoBody (Some "Bearer a0") false)
                       (Some (mkResponse 404 (mkTokens "" ""))))))
  /\ send Scenario.unreachable 1 Scenario.getPets Scenario.signedIn
  = (mkState (mkStorage (Some "a0") (Some "r0"))
       [mkConfig GET "/pets" NoBody (Some "Bearer a0") false],
     Some (Rejected (mkError (mkConfig GET "/pets" NoBody (Some "Bearer a0") false)
                       None))).
Proof.
  split; [|split].
  - apply (proj1 (other_outcomes_pass_through
                    Scenario.allOk 0 Scenario.getPets Scenario.signedIn));
      reflexivity.
  - apply (proj1 (proj2 (other_outcomes_pass_through
                    Scenario.alreadyGone 0 Scenario.getPets Scenario.signedIn)));
      [reflexivity|reflexivity|discriminate].
  - apply (proj2 (proj2 (other_outcomes_pass_through
                    Scenario.unreachable 0 Scenario.getPets Scenario.signedIn))).
    reflexivity.
Defined.

(** X2.  The whole recovery: the request is answered 401, the refresh
    call returns a token pair, and the retry is answered 2xx.  The
    send resolves with the answer to the retry; storage holds the new
    pair; three requests have gone out, and the retry is the original
    request (same method, address and body) marked as retried and
    carrying the new access token. *)
Theorem expired_token_is_renewed_and_request_retried
        server fuel config st r rt response r' :
  _retry config = false ->
  let sent := requestInterceptor config st in
  server (log st) sent = Answer r ->
  status r = 401%Z ->
  refresh_token (storage st) = Some rt ->
  truthy (Some rt) = true ->
  let refreshSent :=
    requestInterceptor (request POST REFRESH_URL (RefreshBody rt)) st in
  server (log st ++ [sent]) refreshSent = Answer response ->
  validateStatus (status response) = true ->
  let refreshed :=
    mkStorage (Some (accessToken (data response)))
              (Some (refreshToken (data response))) in
  let retrySent :=
    requestInterceptor
      (set_Authorization (set_retry sent)
         ("Bearer " ++ accessToken (data response))%string)
      (mkState refreshed []) in
  server (log st ++ [sent; refreshSent]) retrySent = Answer r' ->
  validateStatus (status r') = true ->
  send server (S (S fuel)) config st =
    (mkState refreshed (log st ++ [sent; refreshSent; retrySent]),
     Some (Resolved r'))
  /\ retrySent = mkConfig (method config) (url config) (body config)
                   (Some ("Bearer " ++ accessToken (data response))%string) true
  /\ body refreshSent = RefreshBody rt.
Proof.
  intros Hretry sent Hsrv H401 Htok Htruthy refreshSent Hrefresh Hok
         refreshed retrySent Hsrv' Hok'.
  split; [|split].
  - rewrite (send_401_refreshed _ _ _ _ _ _ _ Hretry Hsrv H401 Htok Htruthy Hrefresh Hok).
    fold sent refreshSent refreshed.
    rewrite (dispatch_resolved _ _ _ r'); [|exact Hsrv'|exact Hok'].
    unfold settled. cbn [fst snd storage log]. rewrite <- app_assoc. reflexivity.
  - unfold retrySent, requestInterceptor at 1. cbn [storage access_token refreshed].
    unfold sent, requestInterceptor.
    destruct (access_token (storage st)) as [token|];
      [destruct (truthy (Some token))|];
      destruct (truthy (Some (accessToken (data response)))); reflexivity.
  - apply requestInterceptor_refresh.
Qed.

Lemma expired_token_is_renewed_and_request_retried_witness :
  send Scenario.renewed 2 Scenario.getPets Scenario.signedIn =
    (mkState (mkStorage (Some "a1") (Some "r1"))
       [mkConfig GET "/pets" NoBody (Some "Bearer a0") false;
        mkConfig POST "/auth/refresh" (RefreshBody "r0") (Some "Bearer a0") false;
        mkConfig GET "/pets" NoBody (Some "Bearer a1") true],
     Some (Resolved (mkResponse 200 (mkTokens "" "")))).
Proof.
  apply (proj1 (expired_token_is_renewed_and_request_retried
                  Scenario.renewed 0 Scenario.getPets Scenario.signedIn
                  (mkResponse 401 (mkTokens "" "")) "r0"
                  (mkResponse 200 (mkTokens "a1" "r1"))
                  (mkResponse 200 (mkTokens "" ""))
                  eq_refl eq_refl eq_refl eq_refl eq_refl eq_refl eq_refl
                  eq_refl eq_refl)).
Defined.

Lemma requestInterceptor_is_refresh config st :
  is_refresh (requestInterceptor config st) = is_refresh config.
Proof.
  unfold requestInterceptor.
  destruct (access_token (storage st)) as [token|]; [|reflexivity].
  destruct (truthy (Some token)); reflexivity.
Qed.

Lemma truthy_Some o : truthy o = true -> exists rt, o = Some rt /\ truthy (Some rt) = true.
Proof. destruct o as [rt|]; [now exists rt|discriminate]. Qed.

(** Calls to the refresh endpoint that are answered 401 breed calls to
    the refresh endpoint. *)
Lemma refresh_calls_breed server fuel :
  (forall sent c, is_refresh c = true ->
                  exists r, server sent c = Answer r /\ status r = 401%Z) ->
  forall config st,
    is_refresh config = true ->
    _retry config = false ->
    truthy (refresh_token (storage st)) = true ->
    snd (send server fuel config st) = None
    /\ storage (fst (send server fuel config st)) = storage st
    /\ exists calls,
        log (fst (send server fuel config st)) = log st ++ calls
        /\ List.length calls = fuel
        /\ Forall (fun c => is_refresh c = true) calls.
Proof.
  intros Hsrv. induction fuel as [|fuel IH]; intros config st Href Hretry Htok.
  { cbn. repeat split. exists []. now rewrite app_nil_r. }
  assert (Hsent : is_refresh (requestInterceptor config st) = true)
    by now rewrite requestInterceptor_is_refresh.
  destruct (Hsrv (log st) _ Hsent) as (r & Hr & H401).
  destruct (truthy_Some _ Htok) as (rt & Hrt & Htruthy).
  rewrite (send_401_refresh _ _ _ _ _ _ Hretry Hr H401 Hrt Htruthy). cbn zeta.
  match goal with
  | |- context [send server fuel ?c ?s] =>
      destruct (IH c s eq_refl eq_refl Htok) as (Hnone & Hsto & calls & Hlog & Hlen & Hall);
      destruct (send server fuel c s) as [st2 o]
  end.
  cbn [fst snd storage log] in *. subst o. cbn [fst snd].
  repeat split; [exact Hsto|].
  exists (requestInterceptor config st :: calls). repeat split.
  - rewrite Hlog, <- app_assoc. reflexivity.
  - cbn. now rewrite Hlen.
  - now constructor.
Qed.

(** X3.  When the refresh endpoint itself answers 401, the handler
    treats that answer as one more expired request and calls the
    refresh endpoint again.  So if the first attempt and every call to
    the refresh endpoint are answered 401 and a refresh token is
    stored, the send never settles: however far it is followed, it
    has not settled, storage is untouched, and after the original
    request every request sent is another call to the refresh
    endpoint. *)
Theorem refresh_answered_401_never_settles server fuel config st r :
  _retry config = false ->
  server (log st) (requestInterceptor config st) = Answer r ->
  status r = 401%Z ->
  truthy (refresh_token (storage st)) = true ->
  (forall sent c, is_refresh c = true ->
                  exists r', server sent c = Answer r' /\ status r' = 401%Z) ->
  snd (send server (S fuel) config st) = None
  /\ storage (fst (send server (S fuel) config st)) = storage st
  /\ exists calls,
      log (fst (send server (S fuel) config st))
      = log st ++ requestInterceptor config st :: calls
      /\ List.length calls = fuel
      /\ Forall (fun c => is_refresh c = true) calls.
Proof.
  intros Hretry Hr H401 Htok Hsrv.
  destruct (truthy_Some _ Htok) as (rt & Hrt & Htruthy).
  rewrite (send_401_refresh _ _ _ _ _ _ Hretry Hr H401 Hrt Htruthy). cbn zeta.
  match goal with
  | |- context [send server fuel ?c ?s] =>
      destruct (refresh_calls_breed server fuel Hsrv c s eq_refl eq_refl Htok)
        as (Hnone & Hsto & calls & Hlog & Hlen & Hall);
      destruct (send server fuel c s) as [st2 o]
  end.
  cbn [fst snd storage log] in *. subst o. cbn [fst snd].
  repeat split; [exact Hsto|].
  exists calls. repeat split; [|exact Hlen|exact Hall].
  rewrite Hlog, <- app_assoc. reflexivity.
Qed.

Lemma refresh_answered_401_never_settles_witness :
  snd (send (fun _ _ => answer 401) 5 Scenario.getPets Scenario.signedIn) = None
  /\ storage (fst (send (fun _ _ => answer 401) 5 Scenario.getPets Scenario.signedIn))
     = mkStorage (Some "a0") (Some "r0")
  /\ exists calls,
      log (fst (send (fun _ _ => answer 401) 5 Scenario.getPets Scenario.signedIn))
      = [] ++ mkConfig GET "/pets" NoBody (Some "Bearer a0") false :: calls
      /\ List.length calls = 4
      /\ Forall (fun c => is_refresh c = true) calls.
Proof.
  apply (refresh_answered_401_never_settles
           (fun _ _ => answer 401) 4 Scenario.getPets Scenario.signedIn
           (mkResponse 401 (mkTokens "" ""))); try reflexivity.
  intros sent c _. eexists. split; reflexivity.
Defined.

(** ** Calls that overlap *)

Lemma steps_app server n m task st :
  steps server (n + m) task st =
    steps server m (fst (steps server n task st)) (snd (steps server n task st)).
Proof.
  revert task st. induction n as [|n IH]; intros task st; cbn [steps Nat.add].
  - reflexivity.
  - destruct (step server task st) as [task' st']. apply IH.
Qed.

(** A call followed alone goes the way of [send]: when [send]
    settles, the steps end in the same state with the same outcome
    handed on. *)
Lemma steps_follow_send server fuel :
  forall config st st' out waiting,
    send server fuel config st = (st', Some out) ->
    exists n, steps server n (Intercept config waiting) st = (deliver out waiting, st').
Proof.
  induction fuel as [|fuel IH]; intros config st st' out waiting H; [discriminate H|].
  cbn [send] in H. unfold dispatch in H.
  destruct (transport server (log st) (requestInterceptor config st))
    as [sent out0] eqn:Et.
  assert (Hstart : forall n task,
             steps server n (Answered out0 waiting) (mkState (storage st) sent) = task ->
             steps server (2 + n) (Intercept config waiting) st = task).
  { intros n task E. cbn [steps Nat.add step]. rewrite Et. exact E. }
  destruct out0 as [response|error]; cbn [settle] in H.
  - injection H as <- <-. exists 3. apply (Hstart 1). reflexivity.
  - unfold responseRejected in H.
    destruct (is401 error && negb (_retry (err_config error))) eqn:Econd.
    + destruct (refresh_token (storage (mkState (storage st) sent))) as [rt|] eqn:Ert.
      * destruct (truthy (Some rt)) eqn:Etr.
        -- match type of H with
           | context [send server fuel ?c ?s] =>
               destruct (send server fuel c s) as [st1 [[response|refreshError]|]] eqn:E1
           end; [| |discriminate H].
           ++ destruct (IH _ _ _ _ (mkError (set_retry (err_config error))
                                             (err_response error) :: waiting) E1)
                as (n1 & Hn1).
              destruct (IH _ _ _ _ waiting H) as (n2 & Hn2).
              exists (2 + (2 + (n1 + (1 + n2)))). apply Hstart.
              cbn [steps Nat.add step]. rewrite Econd. cbn [steps step].
              rewrite Ert, Etr. rewrite steps_app, Hn1. cbn [fst snd deliver].
              cbn [steps Nat.add step]. exact Hn2.
           ++ injection H as <- <-.
              destruct (IH _ _ _ _ (mkError (set_retry (err_config error))
                                             (err_response error) :: waiting) E1)
                as (n1 & Hn1).
              exists (2 + (2 + (n1 + 1))). apply Hstart.
              cbn [steps Nat.add step]. rewrite Econd. cbn [steps step].
              rewrite Ert, Etr. rewrite steps_app, Hn1. cbn [fst snd deliver].
              reflexivity.
        -- injection H as <- <-. exists 4. apply (Hstart 2).
           cbn [steps step]. rewrite Econd. cbn [steps step]. rewrite Ert, Etr.
           reflexivity.
      * injection H as <- <-. exists 4. apply (Hstart 2).
        cbn [steps step]. rewrite Econd. cbn [steps step]. rewrite Ert.
        reflexivity.
    + injection H as <- <-. exists 3. apply (Hstart 1).
      cbn [steps step]. rewrite Econd. reflexivity.
Qed.

Lemma refresh_calls_app l1 l2 :
  refresh_calls (l1 ++ l2) = refresh_calls l1 + refresh_calls l2.
Proof. unfold refresh_calls. now rewrite filter_app, length_app. Qed.

Lemma is_refresh_retried error tok :
  is_refresh (retried error tok) = is_refresh (err_config error).
Proof. reflexivity. Qed.

Lemma requestInterceptor_retried issued error tok st :
  issued tok ->
  (exists tok', access_token (storage st) = Some tok' /\ issued tok') ->
  exists tok', issued tok' /\ requestInterceptor (retried error tok) st = retried error tok'.
Proof.
  intros Htok (tok' & E & Htok'). unfold requestInterceptor. rewrite E.
  destruct (truthy (Some tok')); [now exists tok'|now exists tok].
Qed.


Lemma interleave_app server s1 s2 x :
  interleave server (s1 ++ s2) x = interleave server s2 (interleave server s1 x).
Proof.
  revert x. induction s1 as [|who rest IH]; intros x; cbn [interleave app];
    [reflexivity|apply IH].
Qed.

(** Steps only ever add to what has been sent. *)
Lemma step_log_grows server task st :
  exists added, log (snd (step server task st)) = log st ++ added.
Proof.
  assert (Hsame : exists added : list Config, log st = log st ++ added)
    by (exists []; now rewrite app_nil_r).
  destruct task as [config w|config w|[r|e] w|error w|t error w|e w|out];
    cbn [step snd log]; try exact Hsame.
  - unfold transport. exists [config].
    destruct (server (log st) config) as [r|];
      [destruct (validateStatus (status r))|]; reflexivity.
  - now destruct (is401 e && negb (_retry (err_config e))).
  - destruct (refresh_token (storage st)) as [rt|]; [|exact Hsame].
    now destruct (truthy (Some rt)).
Qed.

Lemma interleave_log_grows server schedule :
  forall x, exists added,
    log (snd (interleave server schedule x)) = log (snd x) ++ added.
Proof.
  induction schedule as [|who rest IH]; intros x; cbn [interleave].
  - exists []. now rewrite app_nil_r.
  - destruct (IH (turn server who x)) as (added & ->).
    assert (Hturn : exists added0, log (snd (turn server who x)) = log (snd x) ++ added0).
    { destruct x as [[a b] st]. destruct who; cbn [turn].
      - destruct (step_log_grows server a st) as (added0 & E).
        destruct (step server a st) as [a' st']. now exists added0.
      - destruct (step_log_grows server b st) as (added0 & E).
        destruct (step server b st) as [b' st']. now exists added0. }
    destruct Hturn as (added0 & ->). exists (added0 ++ added).
    now rewrite app_assoc.
Qed.

Section Overlap.
Variable server : Server.
Variable issued : string -> Prop.
Hypothesis refresh_answered :
  forall sent c,
    is_refresh c = true ->
    exists r, server sent c = Answer r
              /\ validateStatus (status r) = true
              /\ truthy (Some (refreshToken (data r))) = true
              /\ issued (accessToken (data r)).

(** One step of a handler. *)
Lemma handling_step error k task st :
  is401 error = true ->
  _retry (err_config error) = false ->
  is_refresh (err_config error) = false ->
  handling issued error k task ->
  truthy (refresh_token (storage st)) = true ->
  (6 <= k -> exists tok, access_token (storage st) = Some tok /\ issued tok) ->
  exists added,
    handling issued error (Nat.min 9 (S k)) (fst (step server task st))
    /\ log (snd (step server task st)) = log st ++ added
    /\ refresh_calls added = reached 4 (Nat.min 9 (S k)) - reached 4 k
    /\ List.length added
       = (reached 4 (Nat.min 9 (S k)) - reached 4 k)
         + (reached 8 (Nat.min 9 (S k)) - reached 8 k)
    /\ (k = 7 -> exists tok, issued tok /\ added = [retried error tok])
    /\ truthy (refresh_token (storage (snd (step server task st)))) = true
    /\ (k <> 5 -> storage (snd (step server task st)) = storage st)
    /\ (k = 5 -> exists tok, access_token (storage (snd (step server task st))) = Some tok
                             /\ issued tok).
Proof.
  intros H401 Hretry Hnot Hk Hrt Hat.
  destruct Hk as [| |rt Hrt'|c Hc|r Hr1 Hr2|t Ht1 Ht2|tok Htok|tok Htok|out Hout|out].
  - (* the 401 arrives *)
    exists []. cbn [step]. rewrite H401, Hretry. cbn [andb negb fst snd].
    rewrite app_nil_r. repeat split; try constructor; try discriminate; auto.
  - (* the refresh token is read *)
    exists []. cbn [step].
    destruct (truthy_Some _ Hrt) as (rt & -> & Htr). rewrite Htr. cbn [fst snd].
    rewrite app_nil_r. repeat split; try (now constructor); try discriminate; auto.
  - (* the request interceptor of the refresh call *)
    exists []. cbn [step fst snd]. rewrite app_nil_r.
    repeat split; try discriminate; auto.
    constructor. now rewrite requestInterceptor_is_refresh.
  - (* the refresh call reaches the server *)
    exists [c]. cbn [step]. unfold transport.
    destruct (refresh_answered (log st) c Hc) as (r & -> & Hv & Hr1 & Hr2).
    rewrite Hv. cbn [fst snd log storage].
    repeat split; try discriminate; auto.
    + now constructor.
    + unfold refresh_calls. cbn [filter]. now rewrite Hc.
  - (* the answer goes to the handler *)
    exists []. cbn [step deliver fst snd data]. rewrite app_nil_r.
    repeat split; try discriminate; auto. now constructor.
  - (* the tokens are stored *)
    exists []. cbn [step fst snd log storage refresh_token access_token].
    rewrite app_nil_r.
    repeat split; try discriminate; auto.
    + now constructor.
    + intros H; now elim H.
    + intros _. now exists (accessToken t).
  - (* the request interceptor of the retry *)
    exists []. cbn [step fst snd]. rewrite app_nil_r.
    destruct (requestInterceptor_retried issued error tok st Htok (Hat (le_n 6)))
      as (tok' & Htok' & ->).
    repeat split; try discriminate; auto. now constructor.
  - (* the retry reaches the server *)
    exists [retried error tok]. cbn [step]. unfold transport.
    assert (Hlog : forall o : Outcome,
               (forall e, o = Rejected e -> _retry (err_config e) = true) ->
               handling issued error (Nat.min 9 8) (Answered o [])).
    { intros o Ho. now constructor. }
    destruct (server (log st) (retried error tok)) as [r|];
      [destruct (validateStatus (status r))|]; cbn [fst snd log storage];
      (repeat split; try discriminate; auto;
       [ apply Hlog; intros e E; try discriminate E; now injection E as <-
       | unfold refresh_calls; cbn [filter]; rewrite is_refresh_retried, Hnot; reflexivity
       | intros _; now exists tok ]).
  - (* the answer to the retry goes to the caller *)
    exists []. rewrite app_nil_r.
    assert (E : step server (Answered out []) st = (Done out, st)).
    { destruct out as [r|e]; cbn [step deliver]; [reflexivity|].
      rewrite (Hout e eq_refl), andb_false_r. reflexivity. }
    rewrite E. cbn [fst snd].
    repeat split; try discriminate; auto. constructor.
  - (* done *)
    exists []. cbn [step fst snd]. rewrite app_nil_r.
    repeat split; try discriminate; auto. constructor.
Qed.


Lemma handling_bound error k task : handling issued error k task -> k <= 9.
Proof. destruct 1; lia. Qed.

Lemma handling_done_iff error k task :
  handling issued error k task -> ((exists out, task = Done out) <-> 9 <= k).
Proof.
  destruct 1; split; try lia; try (intros (o & E); discriminate E).
  intros _. now exists out.
Qed.

Section Two.
Variables errorA errorB : AxiosError.
Hypothesis A401 : is401 errorA = true.
Hypothesis Afirst : _retry (err_config errorA) = false.
Hypothesis Aother : is_refresh (err_config errorA) = false.
Hypothesis B401 : is401 errorB = true.
Hypothesis Bfirst : _retry (err_config errorB) = false.
Hypothesis Bother : is_refresh (err_config errorB) = false.

(** One step of either handler keeps the two on their ways. *)
Lemma overlapping_turn log0 kA kB s who :
  overlapping issued errorA errorB log0 kA kB s ->
  overlapping issued errorA errorB log0
    (match who with callerA => Nat.min 9 (S kA) | callerB => kA end)
    (match who with callerA => kB | callerB => Nat.min 9 (S kB) end)
    (turn server who s).
Proof.
  destruct s as [[a b] st]. unfold overlapping.
  intros (Ha & Hb & Hrt & Hat & new & Hlog & Hcalls & Hlen & HinA & HinB).
  pose proof (handling_bound _ _ _ Ha) as HkA.
  pose proof (handling_bound _ _ _ Hb) as HkB.
  destruct who; cbn [turn].
  - destruct (handling_step errorA kA a st A401 Afirst Aother Ha Hrt
                (fun H => Hat (or_introl H)))
      as (added & Ha' & Hlog' & Hcalls' & Hlen' & Hin' & Hrt' & Hsame & Hnew).
    destruct (step server a st) as [a' st']. cbn [fst snd] in *.
    split; [exact Ha'|]. split; [exact Hb|]. split; [exact Hrt'|]. split.
    { intros H. destruct (Nat.eq_dec kA 5) as [E|E]; [now apply Hnew|].
      rewrite (Hsame E). apply Hat. lia. }
    exists (new ++ added). split; [now rewrite Hlog', Hlog, app_assoc|].
    split; [rewrite refresh_calls_app, Hcalls, Hcalls'; unfold reached;
            repeat match goal with
                   | |- context [(?x <=? ?y)%nat] => destruct (Nat.leb_spec x y)
                   end; lia|].
    split; [rewrite length_app, Hlen, Hlen'; unfold reached;
            repeat match goal with
                   | |- context [(?x <=? ?y)%nat] => destruct (Nat.leb_spec x y)
                   end; lia|].
    split.
    + intros H. destruct (Nat.eq_dec kA 7) as [E|E].
      * destruct (Hin' E) as (tok & Htok & ->). exists tok. split; [exact Htok|].
        apply in_or_app. right. now left.
      * destruct HinA as (tok & Htok & Hin); [lia|]. exists tok. split; [exact Htok|].
        apply in_or_app. now left.
    + intros H. destruct (HinB H) as (tok & Htok & Hin). exists tok.
      split; [exact Htok|]. apply in_or_app. now left.
  - destruct (handling_step errorB kB b st B401 Bfirst Bother Hb Hrt
                (fun H => Hat (or_intror H)))
      as (added & Hb' & Hlog' & Hcalls' & Hlen' & Hin' & Hrt' & Hsame & Hnew).
    destruct (step server b st) as [b' st']. cbn [fst snd] in *.
    split; [exact Ha|]. split; [exact Hb'|]. split; [exact Hrt'|]. split.
    { intros H. destruct (Nat.eq_dec kB 5) as [E|E]; [now apply Hnew|].
      rewrite (Hsame E). apply Hat. lia. }
    exists (new ++ added). split; [now rewrite Hlog', Hlog, app_assoc|].
    split; [rewrite refresh_calls_app, Hcalls, Hcalls'; unfold reached;
            repeat match goal with
                   | |- context [(?x <=? ?y)%nat] => destruct (Nat.leb_spec x y)
                   end; lia|].
    split; [rewrite length_app, Hlen, Hlen'; unfold reached;
            repeat match goal with
                   | |- context [(?x <=? ?y)%nat] => destruct (Nat.leb_spec x y)
                   end; lia|].
    split.
    + intros H. destruct (HinA H) as (tok & Htok & Hin). exists tok.
      split; [exact Htok|]. apply in_or_app. now left.
    + intros H. destruct (Nat.eq_dec kB 7) as [E|E].
      * destruct (Hin' E) as (tok & Htok & ->). exists tok. split; [exact Htok|].
        apply in_or_app. right. now left.
      * destruct HinB as (tok & Htok & Hin); [lia|]. exists tok. split; [exact Htok|].
        apply in_or_app. now left.
Qed.

Lemma overlapping_bounds log0 kA kB s :
  overlapping issued errorA errorB log0 kA kB s -> kA <= 9 /\ kB <= 9.
Proof.
  destruct s as [[a b] st]. intros (Ha & Hb & _).
  split; eapply handling_bound; eassumption.
Qed.

(** ... and so does any number of steps in any order. *)
Lemma overlapping_interleave log0 schedule :
  forall kA kB s,
    overlapping issued errorA errorB log0 kA kB s ->
    overlapping issued errorA errorB log0
      (Nat.min 9 (kA + turns callerA schedule))
      (Nat.min 9 (kB + turns callerB schedule))
      (interleave server schedule s).
Proof.
  induction schedule as [|who rest IH]; intros kA kB s H.
  - destruct (overlapping_bounds _ _ _ _ H). cbn [turns interleave].
    now replace (Nat.min 9 (kA + 0)) with kA by lia;
      replace (Nat.min 9 (kB + 0)) with kB by lia.
  - destruct (overlapping_bounds _ _ _ _ H).
    pose proof (IH _ _ _ (overlapping_turn _ _ _ _ who H)) as H'.
    cbn [interleave]. destruct who; cbn [turns].
    + now replace (Nat.min 9 (kA + S (turns callerA rest)))
        with (Nat.min 9 (Nat.min 9 (S kA) + turns callerA rest)) by lia.
    + now replace (Nat.min 9 (kB + S (turns callerB rest)))
        with (Nat.min 9 (Nat.min 9 (S kB) + turns callerB rest)) by lia.
Qed.


(** Taking turns from the start, both handlers read the refresh
    token before either refresh call is answered: the two calls are
    the same request. *)
Lemma turns_about_send_the_same_refresh st rt :
  refresh_token (storage st) = Some rt ->
  truthy (Some rt) = true ->
  let call := requestInterceptor (request POST REFRESH_URL (RefreshBody rt)) st in
  exists a b,
    interleave server (alternate 4)
      (Answered (Rejected errorA) [], Answered (Rejected errorB) [], st)
    = (a, b, mkState (storage st) (log st ++ [call; call])).
Proof.
  intros Hrt Htr call.
  assert (Hcall : is_refresh call = true) by apply requestInterceptor_refresh.
  destruct (refresh_answered (log st) call Hcall) as (rA & HA & HvA & _).
  destruct (refresh_answered (log st ++ [call]) call Hcall) as (rB & HB & HvB & _).
  exists (Answered (Resolved rA) [marked errorA]),
         (Answered (Resolved rB) [marked errorB]).
  cbn [alternate interleave].
  repeat (cbn [turn step andb negb log storage]; unfold transport;
          first [ rewrite A401 | rewrite Afirst | rewrite B401 | rewrite Bfirst
                | rewrite Hrt | rewrite Htr | progress fold call
                | rewrite HA | rewrite HvA | rewrite HB | rewrite HvB ]).
  cbn [turn step andb negb log storage]. now rewrite <- app_assoc.
Qed.

(** C4 (amended).  Nothing is shared between the rejection handlers
    of two requests.  When two requests have each been answered 401
    and their handlers then go on in any order whatever, each handler
    makes its own call to the refresh endpoint, by its fourth step:
    once both are done, two calls have reached the endpoint, never
    one.  Each request is retried once, with an access token the
    refresh endpoint has issued: the one in storage when the retry
    goes out.  When the handlers take turns from the start, the two
    refresh calls are the same request, both carrying the refresh
    token that was in storage at the start. *)
Theorem every_handler_makes_its_own_refresh_call st schedule :
  truthy (refresh_token (storage st)) = true ->
  let '(a, b, st') :=
    interleave server schedule
      (Answered (Rejected errorA) [], Answered (Rejected errorB) [], st) in
  let nA := turns callerA schedule in
  let nB := turns callerB schedule in
  exists new,
    log st' = log st ++ new
    /\ refresh_calls new = reached 4 nA + reached 4 nB
    /\ ((exists out, a = Done out) <-> 9 <= nA)
    /\ ((exists out, b = Done out) <-> 9 <= nB)
    /\ (9 <= nA -> 9 <= nB ->
        refresh_calls new = 2
        /\ List.length new = 4
        /\ exists tokA tokB,
            issued tokA /\ issued tokB
            /\ In (retried errorA tokA) new /\ In (retried errorB tokB) new)
    /\ (forall rt rest,
           refresh_token (storage st) = Some rt ->
           schedule = alternate 4 ++ rest ->
           let call :=
             requestInterceptor (request POST REFRESH_URL (RefreshBody rt)) st in
           body call = RefreshBody rt
           /\ exists later, new = call :: call :: later).
Proof.
  intros Hrt.
  assert (Hstart : overlapping issued errorA errorB (log st) 0 0
                     (Answered (Rejected errorA) [], Answered (Rejected errorB) [], st)).
  { cbn. split; [constructor|]. split; [constructor|]. split; [exact Hrt|].
    split; [intros [H|H]; lia|]. exists []. rewrite app_nil_r.
    repeat split; intros H; lia. }
  pose proof (overlapping_interleave (log st) schedule 0 0 _ Hstart) as H.
  cbn [Nat.add] in H.
  assert (Hlater : forall rt rest,
             refresh_token (storage st) = Some rt ->
             schedule = alternate 4 ++ rest ->
             exists later,
               log (snd (interleave server schedule
                           (Answered (Rejected errorA) [],
                            Answered (Rejected errorB) [], st)))
               = log st
                   ++ requestInterceptor (request POST REFRESH_URL (RefreshBody rt)) st
                   :: requestInterceptor (request POST REFRESH_URL (RefreshBody rt)) st
                   :: later).
  { intros rt rest Hrt0 ->.
    assert (Htr : truthy (Some rt) = true) by now rewrite <- Hrt0.
    destruct (turns_about_send_the_same_refresh st rt Hrt0 Htr) as (a0 & b0 & E).
    rewrite interleave_app, E.
    destruct (interleave_log_grows server rest
                (a0, b0, mkState (storage st)
                           (log st ++ [requestInterceptor
                                         (request POST REFRESH_URL (RefreshBody rt)) st;
                                       requestInterceptor
                                         (request POST REFRESH_URL (RefreshBody rt)) st])))
      as (added & ->).
    cbn [snd log]. exists added. now rewrite <- app_assoc. }
  destruct (interleave server schedule
              (Answered (Rejected errorA) [], Answered (Rejected errorB) [], st))
    as [[a b] st'].
  destruct H as (Ha & Hb & _ & _ & new & Hlog & Hcalls & Hlen & HinA & HinB).
  cbn zeta. exists new.
  assert (Hr : forall stage n, stage <= 9 ->
                 reached stage (Nat.min 9 n) = reached stage n).
  { intros stage n Hs. unfold reached.
    destruct (Nat.leb_spec stage (Nat.min 9 n));
      destruct (Nat.leb_spec stage n); lia. }
  rewrite !(Hr 4) in Hcalls, Hlen by lia. rewrite !(Hr 8) in Hlen by lia.
  split; [exact Hlog|]. split; [exact Hcalls|].
  split; [rewrite (handling_done_iff _ _ _ Ha); lia|].
  split; [rewrite (handling_done_iff _ _ _ Hb); lia|].
  split.
  - intros HA HB.
    assert (E4 : forall n, 9 <= n -> reached 4 n = 1 /\ reached 8 n = 1).
    { intros n Hn. unfold reached.
      destruct (Nat.leb_spec 4 n); destruct (Nat.leb_spec 8 n); lia. }
    destruct (E4 _ HA) as (EA4 & EA8). destruct (E4 _ HB) as (EB4 & EB8).
    split; [lia|]. split; [lia|].
    destruct HinA as (tokA & HtA & HiA); [lia|].
    destruct HinB as (tokB & HtB & HiB); [lia|].
    now exists tokA, tokB.
  - intros rt rest Hrt0 Hs. split; [apply requestInterceptor_refresh|].
    destruct (Hlater rt rest Hrt0 Hs) as (later & E). cbn [snd] in E.
    exists later. rewrite Hlog in E. now apply app_inv_head in E.
Qed.

End Two.

End Overlap.

(** C4, as stated, fails.  Two requests go out with the expired
    token and both are answered 401 before either handler has got
    anywhere; from there the two handlers take turns.  Two calls
    reach the refresh endpoint, not one, and both carry the same
    refresh token [r0]: the second handler has read it before the
    first call was answered, and nothing has made it wait. *)
Lemma overlapping_handlers_call_refresh_twice :
  let '(a, b, st') :=
    interleave Scenario.twoExpired (alternate 11)
      (Intercept Scenario.getPets [], Intercept Scenario.getAppointments [],
       Scenario.signedIn) in
  a = Done (Resolved (mkResponse 200 (mkTokens "" "")))
  /\ b = Done (Resolved (mkResponse 200 (mkTokens "" "")))
  /\ log st' =
       [mkConfig GET "/pets" NoBody (Some "Bearer a0") false;
        mkConfig GET "/appointments" NoBody (Some "Bearer a0") false;
        mkConfig POST "/auth/refresh" (RefreshBody "r0") (Some "Bearer a0") false;
        mkConfig POST "/auth/refresh" (RefreshBody "r0") (Some "Bearer a0") false;
        mkConfig GET "/pets" NoBody (Some "Bearer a2") true;
        mkConfig GET "/appointments" NoBody (Some "Bearer a2") true]
  /\ storage st' = mkStorage (Some "a2") (Some "r2")
  /\ refresh_calls (log st') = 2
  /\ refresh_calls (log st') <> 1.
Proof. cbn. repeat split. discriminate. Qed.

Lemma every_handler_makes_its_own_refresh_call_witness :
  let '(a, b, st') :=
    interleave Scenario.renewing (alternate 9)
      (Answered (Rejected (Scenario.expired Scenario.getPets)) [],
       Answered (Rejected (Scenario.expired Scenario.getAppointments)) [],
       Scenario.signedIn) in
  exists new,
    log st' = new
    /\ refresh_calls new = 2
    /\ ((exists out, a = Done out) <-> 9 <= 9)
    /\ ((exists out, b = Done out) <-> 9 <= 9)
    /\ (9 <= 9 -> 9 <= 9 ->
        refresh_calls new = 2
        /\ List.length new = 4
        /\ exists tokA tokB,
            tokA = "a1" /\ tokB = "a1"
            /\ In (retried (Scenario.expired Scenario.getPets) tokA) new
            /\ In (retried (Scenario.expired Scenario.getAppointments) tokB) new)
    /\ (forall rt rest,
           Some "r0" = Some rt ->
           alternate 9 = alternate 4 ++ rest ->
           let call :=
             requestInterceptor (request POST REFRESH_URL (RefreshBody rt))
               Scenario.signedIn in
           body call = RefreshBody rt
           /\ exists later, new = call :: call :: later).
Proof.
  apply (every_handler_makes_its_own_refresh_call
           Scenario.renewing (fun tok => tok = "a1")
           (fun sent c (H : is_refresh c = true) =>
              ex_intro _ (mkResponse 200 (mkTokens "a1" "r1"))
                (conj (f_equal (fun b : bool =>
                                  if b then Scenario.tokens "a1" "r1"
                                  else match Authorization c with
                                       | Some "Bearer a1" => answer 200
                                       | _ => answer 401
                                       end) H)
                      (conj eq_refl (conj eq_refl eq_refl))))
           (Scenario.expired Scenario.getPets)
           (Scenario.expired Scenario.getAppointments)
           eq_refl eq_refl eq_refl eq_refl eq_refl eq_refl
           Scenario.signedIn (alternate 9) eq_refl).
Defined.

End InterceptorsFacts.


(* ================================================================== *)
(** * Properties of the offline queue                                  *)
(* ================================================================== *)

Module SyncFacts.
Import Sync.

Section Flush.
Variable W : Type.
Variable apiClient : Axios.Config -> W -> W * Axios.Outcome.

(** The loop only ever appends to [failed]. *)
Lemma syncLoop_acc queue :
  forall failed w,
    syncLoop apiClient queue failed w =
      (failed ++ fst (syncLoop apiClient queue [] w),
       snd (syncLoop apiClient queue [] w)).
Proof.
  induction queue as [|item rest IH]; intros failed w; cbn [syncLoop].
  - now rewrite app_nil_r.
  - destruct (syncItem apiClient item w) as [w' [thrown|]].
    + cbn [bump retries].
      destruct (S (retries item) <? MAX_RETRIES)%nat.
      * rewrite (IH (failed ++ [bump item])), (IH ([] ++ [bump item])).
        cbn [fst snd app]. now rewrite <- app_assoc.
      * apply IH.
    + apply IH.
Qed.

(** Entries are processed in queue order, each from the world the
    previous ones left. *)
Lemma syncLoop_app q1 q2 :
  forall failed w,
    syncLoop apiClient (q1 ++ q2) failed w =
      syncLoop apiClient q2 (fst (syncLoop apiClient q1 failed w))
                            (snd (syncLoop apiClient q1 failed w)).
Proof.
  induction q1 as [|item rest IH]; intros failed w; cbn [syncLoop app].
  - reflexivity.
  - destruct (syncItem apiClient item w) as [w' [thrown|]].
    + destruct (retries (bump item) <? MAX_RETRIES)%nat; apply IH.
    + apply IH.
Qed.

(** One entry whose dispatch throws. *)
Lemma syncLoop_failed item rest failed w w' thrown :
  syncItem apiClient item w = (w', Some thrown) ->
  syncLoop apiClient (item :: rest) failed w =
    syncLoop apiClient rest (failed ++ keep item) w'.
Proof.
  intros H. cbn [syncLoop]. rewrite H. unfold keep. cbn [bump retries].
  destruct (S (retries item) <? MAX_RETRIES)%nat; [reflexivity|].
  now rewrite app_nil_r.
Qed.

(** Nothing that stays in the queue has used up its retries. *)
Lemma syncLoop_below_max queue :
  forall failed w,
    Forall (fun i => retries i < MAX_RETRIES) failed ->
    Forall (fun i => retries i < MAX_RETRIES)
           (fst (syncLoop apiClient queue failed w)).
Proof.
  induction queue as [|item rest IH]; intros failed w H; cbn [syncLoop].
  - exact H.
  - destruct (syncItem apiClient item w) as [w' [thrown|]]; [|now apply IH].
    destruct (Nat.ltb_spec (retries (bump item)) MAX_RETRIES); [|now apply IH].
    apply IH. apply Forall_app. split; [exact H|]. now constructor.
Qed.

Lemma none_exhausted l :
  Forall (fun i => retries i < MAX_RETRIES) l ->
  filter (fun i => (MAX_RETRIES <=? retries i)%nat) l = [].
Proof.
  induction 1 as [|i l Hi _ IH]; [reflexivity|]. cbn [filter].
  destruct (Nat.leb_spec MAX_RETRIES (retries i)); [lia|exact IH].
Qed.

(** A flush that is let in: what it stores. *)
Lemma sync_runs now st :
  isSyncing (syncStatus st) = false ->
  let failed := fst (syncLoop apiClient (getQueue st) [] (world st)) in
  let s := mkStatus false (Some now) (List.length failed) 0 in
  sync apiClient now st =
    mkState s (Some failed) (Some s)
            (snd (syncLoop apiClient (getQueue st) [] (world st))).
Proof.
  intros Hidle failed s. unfold sync. rewrite Hidle.
  change (getQueue (updateStatus _ st)) with (getQueue st).
  change (world (updateStatus _ st)) with (world st).
  pose proof (syncLoop_below_max (getQueue st) [] (world st) (Forall_nil _)) as Hb.
  fold failed in Hb. subst s. revert Hb. subst failed.
  destruct (syncLoop apiClient (getQueue st) [] (world st)) as [failed w].
  cbn [fst snd]. intros Hb. unfold updateStatus, merge.
  cbn [syncStatus stored_queue stored_status world set_isSyncing set_lastSync
       set_pendingCount set_failedCount].
  now rewrite (none_exhausted _ Hb).
Qed.

(** The count a flush reports as failed is always zero: whatever it
    stores has retries left. *)
Lemma sync_failedCount now st :
  isSyncing (syncStatus st) = false ->
  failedCount (getStatus (sync apiClient now st)) = 0.
Proof. intros H. now rewrite sync_runs. Qed.

(** ** Flushing while a flush runs *)

(** C7.  A flush called while one is running returns at once: the
    service, both stored values and the world behind the client
    (so also the requests sent) are exactly as before.  The flag it
    checks is raised by a running flush before anything else
    happens, so a call made while the loop is under way is such a
    call. *)
Theorem sync_while_syncing_is_noop now st :
  isSyncing (syncStatus st) = true ->
  sync apiClient now st = st
  /\ world (sync apiClient now st) = world st
  /\ stored_queue (sync apiClient now st) = stored_queue st
  /\ stored_status (sync apiClient now st) = stored_status st
  /\ (forall st0 now',
         sync apiClient now'
              (updateStatus (mkUpdate (Some true) None None None) st0)
         = updateStatus (mkUpdate (Some true) None None None) st0).
Proof.
  intros H.
  assert (E : sync apiClient now st = st) by (unfold sync; now rewrite H).
  rewrite E. repeat split; reflexivity.
Qed.

(** ** The pending count *)

(** C10.  After [addToQueue], after [sync] and after [clearQueue]
    the stored status carries a pending count equal to the length
    of the stored queue.  A flush that is let in establishes this;
    one that returns at once leaves it as it found it.  After
    [clearQueue] the queue is empty and both counts are zero. *)
Theorem pendingCount_is_queue_length :
  (forall now1 now2 rnd t a d (st : State W),
      counted (addToQueue now1 now2 rnd t a d st))
  /\ (forall now st,
         isSyncing (syncStatus st) = false ->
         counted (sync apiClient now st))
  /\ (forall now st, counted st -> counted (sync apiClient now st))
  /\ (forall st : State W,
         counted (clearQueue st)
         /\ stored_queue (clearQueue st) = Some []
         /\ pendingCount (getStatus (clearQueue st)) = 0
         /\ failedCount (getStatus (clearQueue st)) = 0).
Proof.
  assert (Hrun : forall now st,
             isSyncing (syncStatus st) = false ->
             counted (sync apiClient now st)).
  { intros now st Hidle. rewrite sync_runs by exact Hidle.
    eexists. split; reflexivity. }
  repeat split.
  - intros. eexists. split; reflexivity.
  - exact Hrun.
  - intros now st Hc. destruct (isSyncing (syncStatus st)) eqn:E.
    + unfold sync. now rewrite E.
    + now apply Hrun.
  - eexists. split; reflexivity.
Qed.

End Flush.

Import Scenario.

Lemma sync_while_syncing_is_noop_witness :
  let busy := updateStatus (mkUpdate (Some true) None None None) oneDelete in
  sync (bareClient unreachable) 2000 busy = busy
  /\ world (sync (bareClient unreachable) 2000 busy) = []
  /\ stored_queue (sync (bareClient unreachable) 2000 busy) = Some [theDelete].
Proof.
  cbn zeta.
  pose proof (sync_while_syncing_is_noop (list Axios.Config)
                (bareClient unreachable) 2000
                (updateStatus (mkUpdate (Some true) None None None) oneDelete)
                eq_refl) as (E & Ew & Eq & _).
  split; [exact E|]. split; [exact Ew|exact Eq].
Defined.

Lemma pendingCount_is_queue_length_witness :
  counted oneDelete
  /\ counted (sync (bareClient unreachable) 2000 oneDelete)
  /\ counted (sync (bareClient unreachable) 2001
                (sync (bareClient unreachable) 2000 oneDelete))
  /\ counted (clearQueue oneDelete).
Proof.
  pose proof (pendingCount_is_queue_length (list Axios.Config)
                (bareClient unreachable)) as (Hadd & Hrun & Hkeep & Hclear).
  split; [exact (Hadd 1000%Z 1001%Z "0.5" pet delete (Some pet42) fresh)|].
  split; [exact (Hrun 2000%Z oneDelete eq_refl)|].
  split; [|exact (proj1 (Hclear oneDelete))].
  apply Hkeep. exact (Hrun 2000%Z oneDelete eq_refl).
Defined.

(** ** An entry that keeps failing *)

(** C2.  The code at the failing input: one queued entry, a remote
    side that never answers.  After two flushes the entry is pending
    with two retries on record; the third flush sends it once more
    and then stores an empty queue with [failedCount = 0]: the entry
    is gone and nothing on record says it failed. *)
Theorem exhausted_entry_is_dropped :
  let client := bareClient unreachable in
  getQueue (flushes client 2 2000 oneDelete)
    = [mkItem "pet_1000_0.5" pet delete (Some pet42) 1001 2]
  /\ world (flushes client 3 2000 oneDelete) = [deleteSent; deleteSent; deleteSent]
  /\ stored_queue (flushes client 3 2000 oneDelete) = Some []
  /\ stored_status (flushes client 3 2000 oneDelete)
     = Some (mkStatus false (Some 2000%Z) 0 0)
  /\ world (flushes client 4 2000 oneDelete) = [deleteSent; deleteSent; deleteSent].
Proof. cbn zeta. repeat split. Qed.

(** ** Conflicts *)

Lemma absent_truthy v : absent v <-> truthy v = false.
Proof.
  unfold absent. split.
  - intros [->|[->|[->|[->|[->| ->]]]]]; reflexivity.
  - destruct v as [[| |[|]|n| |s]|o]; cbn; try discriminate; auto 7.
    + destruct (Z.eqb_spec n 0) as [->|_]; [auto 7|discriminate].
    + destruct (String.eqb_spec s "") as [->|_]; [auto 7|discriminate].
Qed.

Lemma not_absent_truthy v : ~ absent v <-> truthy v = true.
Proof.
  rewrite absent_truthy. destruct (truthy v); split; congruence.
Qed.

(** The time the code computes is the time in words. *)
Lemma time_of_timeOf d a : time_of d a <-> timeOf d = a.
Proof.
  unfold timeOf, or_else. split.
  - intros [Hu|Hu Ht|Hu Ht].
    + apply not_absent_truthy in Hu. now rewrite !Hu.
    + apply absent_truthy in Hu. apply not_absent_truthy in Ht.
      now rewrite Hu, !Ht.
    + apply absent_truthy in Hu. apply absent_truthy in Ht.
      now rewrite Hu, !Ht.
  - intros <-. destruct (truthy (Doc.updatedAt d)) eqn:Hu.
    + rewrite Hu. apply time_updatedAt. now apply not_absent_truthy.
    + destruct (truthy (Doc.timestamp d)) eqn:Ht.
      * apply time_timestamp; [now apply absent_truthy|now apply not_absent_truthy].
      * apply time_zero; now apply absent_truthy.
Qed.

Lemma geb_leb x y : (y >=? x)%Z = (x <=? y)%Z.
Proof. destruct (Z.geb_spec y x); destruct (Z.leb_spec x y); reflexivity || lia. Qed.

Section Conflict.
Variable StringToNumber : string -> option Z.

(** C5 (amended).  [handleConflict] compares the times of the two
    sides with [>=], where the time of a side is its [updatedAt]
    unless that reads as absent, else its [timestamp] unless that
    reads as absent, else 0; and 0, [NaN], the empty string, [false],
    [null] and [undefined] all read as absent.  When both times are
    numbers the side with the strictly greater one is returned, and
    remote when they are equal.  When both are strings they are
    compared as strings, remote again winning a tie.  When one is a
    string and the other a number, the string is converted to a
    number; if that gives [NaN], as for an ISO date, local is returned
    whatever the times are.  So remote wins when both sides have the
    same non-zero [updatedAt] and when neither side has any time, but
    a local side whose [updatedAt] is 0 is judged by its enqueue
    timestamp.  A [null] or [undefined] argument rejects. *)
Theorem handleConflict_last_write_wins localData remote a b :
  time_of localData a ->
  time_of remote b ->
  let result := handleConflict StringToNumber (Some localData) (Some remote) in
  (forall x y, a = Primitive (PNum x) -> b = Primitive (PNum y) ->
               result = Some (if (x <=? y)%Z then remote else localData))
  /\ (forall x y, a = Primitive (PStr x) -> b = Primitive (PStr y) ->
                  result = Some (if String.ltb y x then localData else remote))
  /\ (forall x y, a = Primitive (PStr x) -> b = Primitive (PNum y) ->
                  match StringToNumber x with
                  | None => result = Some localData
                  | Some n => result = Some (if (n <=? y)%Z then remote else localData)
                  end)
  /\ (forall x y, a = Primitive (PNum x) -> b = Primitive (PStr y) ->
                  match StringToNumber y with
                  | None => result = Some localData
                  | Some n => result = Some (if (x <=? n)%Z then remote else localData)
                  end)
  /\ (forall u, u <> 0%Z ->
                Doc.updatedAt localData = Primitive (PNum u) ->
                Doc.updatedAt remote = Primitive (PNum u) ->
                result = Some remote)
  /\ (absent (Doc.updatedAt localData) -> absent (Doc.timestamp localData) ->
      absent (Doc.updatedAt remote) -> absent (Doc.timestamp remote) ->
      result = Some remote)
  /\ (forall t, (0 < t)%Z ->
                Doc.updatedAt localData = Primitive (PNum 0) ->
                Doc.timestamp localData = Primitive (PNum t) ->
                Doc.updatedAt remote = Primitive (PNum 0) ->
                absent (Doc.timestamp remote) ->
                result = Some localData)
  /\ handleConflict StringToNumber None (Some remote) = None
  /\ handleConflict StringToNumber (Some localData) None = None.
Proof.
  intros Ha Hb result. apply time_of_timeOf in Ha. apply time_of_timeOf in Hb.
  assert (Hnum : forall l r x y,
             timeOf l = Primitive (PNum x) -> timeOf r = Primitive (PNum y) ->
             handleConflict StringToNumber (Some l) (Some r)
             = Some (if (x <=? y)%Z then r else l)).
  { intros l r x y Hl Hr. unfold handleConflict. rewrite Hl, Hr. cbn.
    rewrite geb_leb. now destruct (x <=? y)%Z. }
  subst result.
  split; [intros x y -> ->; now apply Hnum|].
  split.
  { intros x y -> ->. unfold handleConflict. rewrite Ha, Hb. cbn.
    now destruct (String.ltb y x). }
  split.
  { intros x y -> ->. unfold handleConflict. rewrite Ha, Hb. cbn.
    destruct (StringToNumber x) as [n|]; [|reflexivity].
    rewrite geb_leb. now destruct (n <=? y)%Z. }
  split.
  { intros x y -> ->. unfold handleConflict. rewrite Ha, Hb. cbn.
    destruct (StringToNumber y) as [n|]; [|reflexivity].
    rewrite geb_leb. now destruct (x <=? n)%Z. }
  split.
  { intros u Hu Hl Hr.
    assert (Hp : ~ absent (Primitive (PNum u))).
    { unfold absent. intros [H|[H|[H|[H|[H|H]]]]]; try discriminate H.
      injection H as ->. now elim Hu. }
    rewrite (Hnum localData remote u u).
    - now rewrite Z.leb_refl.
    - apply time_of_timeOf. rewrite <- Hl. apply time_updatedAt. now rewrite Hl.
    - apply time_of_timeOf. rewrite <- Hr. apply time_updatedAt. now rewrite Hr. }
  split.
  { intros Hl1 Hl2 Hr1 Hr2.
    rewrite (Hnum localData remote 0%Z 0%Z); [reflexivity| |];
      apply time_of_timeOf; now apply time_zero. }
  split.
  { intros t Ht Hl1 Hl2 Hr1 Hr2.
    assert (Hz : absent (Primitive (PNum 0))) by (unfold absent; auto 7).
    assert (Hp : ~ absent (Primitive (PNum t))).
    { unfold absent. intros [H|[H|[H|[H|[H|H]]]]]; try discriminate H.
      injection H as ->. lia. }
    rewrite (Hnum localData remote t 0%Z).
    - destruct (Z.leb_spec t 0); [lia|reflexivity].
    - apply time_of_timeOf. rewrite <- Hl2. apply time_timestamp; [now rewrite Hl1|].
      now rewrite Hl2.
    - apply time_of_timeOf. apply time_zero; [now rewrite Hr1|exact Hr2]. }
  split; reflexivity.
Qed.

(** X9.  When [handleConflict] returns, it returns one of its two
    arguments.  When both times are numbers, the time of the one
    returned is the later of the two, and unless the times are equal
    the order of the arguments does not matter.  When one time is a
    string that does not convert to a number and the other is a
    number, the first argument is returned in either order. *)
Theorem handleConflict_picks_the_later localData serverData a b :
  time_of localData a ->
  time_of serverData b ->
  (forall r, handleConflict StringToNumber (Some localData) (Some serverData) = Some r ->
             r = localData \/ r = serverData)
  /\ (forall x y, a = Primitive (PNum x) -> b = Primitive (PNum y) ->
        exists r,
          handleConflict StringToNumber (Some localData) (Some serverData) = Some r
          /\ time_of r (Primitive (PNum (Z.max x y)))
          /\ (x <> y ->
              handleConflict StringToNumber (Some serverData) (Some localData) = Some r))
  /\ (forall x y,
        (a = Primitive (PStr x) /\ b = Primitive (PNum y)
         \/ a = Primitive (PNum y) /\ b = Primitive (PStr x)) ->
        StringToNumber x = None ->
        handleConflict StringToNumber (Some localData) (Some serverData) = Some localData
        /\ handleConflict StringToNumber (Some serverData) (Some localData)
           = Some serverData).
Proof.
  intros Ha Hb. pose proof Ha as Ha'. pose proof Hb as Hb'.
  apply time_of_timeOf in Ha'. apply time_of_timeOf in Hb'.
  split.
  { intros r. unfold handleConflict.
    destruct (ge StringToNumber (timeOf serverData) (timeOf localData)) as [[|]|];
      intros H; try discriminate H; injection H as <-; auto. }
  split.
  { intros x y -> ->. unfold handleConflict. rewrite Ha', Hb'. cbn.
    rewrite !geb_leb.
    destruct (Z.leb_spec x y) as [Hxy|Hxy]; destruct (Z.leb_spec y x) as [Hyx|Hyx].
    - assert (x = y) by lia. subst y. exists serverData.
      split; [reflexivity|]. split; [now rewrite Z.max_id|].
      intros Hne; now elim Hne.
    - exists serverData. split; [reflexivity|].
      split; [now rewrite Z.max_r by lia|reflexivity].
    - exists localData. split; [reflexivity|].
      split; [now rewrite Z.max_l by lia|reflexivity].
    - lia. }
  intros x y [[-> ->]|[-> ->]] Hx; unfold handleConflict; rewrite Ha', Hb'; cbn;
    rewrite Hx; split; reflexivity.
Qed.

End Conflict.

(** ** More on flushing *)

Section MoreFlush.
Variable W : Type.
Variable apiClient : Axios.Config -> W -> W * Axios.Outcome.

Lemma getQueue_stored (s : SyncStatus) q ss (w : W) :
  getQueue (mkState s (Some q) ss w) = q.
Proof. reflexivity. Qed.

Lemma syncItem_throws_when_rejected item w :
  (forall config w0, exists w' e, apiClient config w0 = (w', Axios.Rejected e)) ->
  exists w' thrown, syncItem apiClient item w = (w', Some thrown).
Proof.
  intros Hrej. unfold syncItem.
  destruct (action item); destruct (data item) as [d|];
    try (now eexists; eexists);
    match goal with
    | |- context [apiClient ?c w] =>
        destruct (Hrej c w) as (w' & e & ->); cbn; now eexists; eexists
    end.
Qed.

Lemma syncItem_returns_when_resolved item w :
  (forall config w0, exists w' r, apiClient config w0 = (w', Axios.Resolved r)) ->
  action item = create \/ data item <> None ->
  exists w', syncItem apiClient item w = (w', None).
Proof.
  intros Hres Hdata. unfold syncItem.
  destruct (action item); destruct (data item) as [d|];
    try (destruct Hdata as [Hd|Hd]; [discriminate Hd|now elim Hd]);
    match goal with
    | |- context [apiClient ?c w] =>
        destruct (Hres c w) as (w' & r & ->); cbn; now eexists
    end.
Qed.

Lemma syncLoop_all_resolved queue :
  (forall config w0, exists w' r, apiClient config w0 = (w', Axios.Resolved r)) ->
  Forall (fun i => action i = create \/ data i <> None) queue ->
  forall failed w, fst (syncLoop apiClient queue failed w) = failed.
Proof.
  intros Hres Hq. induction Hq as [|item rest Hitem _ IH]; intros failed w.
  - reflexivity.
  - cbn [syncLoop].
    destruct (syncItem_returns_when_resolved item w Hres Hitem) as (w' & ->).
    apply IH.
Qed.

Lemma syncLoop_all_rejected queue :
  (forall config w0, exists w' e, apiClient config w0 = (w', Axios.Rejected e)) ->
  forall failed w,
    fst (syncLoop apiClient queue failed w) = failed ++ allFailed queue.
Proof.
  intros Hrej. unfold allFailed. induction queue as [|item rest IH]; intros failed w.
  - cbn. now rewrite app_nil_r.
  - destruct (syncItem_throws_when_rejected item w Hrej) as (w' & thrown & E).
    rewrite (syncLoop_failed _ _ _ _ _ _ _ _ E), IH. unfold keep.
    cbn [filter]. destruct (S (retries item) <? MAX_RETRIES)%nat.
    + cbn [map]. now rewrite <- app_assoc.
    + now rewrite app_nil_r.
Qed.

Lemma allFailed_retries k queue :
  Forall (fun i => k <= retries i) queue ->
  Forall (fun i => S k <= retries i) (allFailed queue).
Proof.
  unfold allFailed. induction 1 as [|i l Hi _ IH]; [constructor|].
  cbn [filter]. destruct (S (retries i) <? MAX_RETRIES)%nat; [|exact IH].
  cbn [map]. constructor; [cbn; lia|exact IH].
Qed.

Lemma allFailed_exhausted queue :
  Forall (fun i => 2 <= retries i) queue -> allFailed queue = [].
Proof.
  unfold allFailed. induction 1 as [|i l Hi _ IH]; [reflexivity|].
  cbn [filter]. destruct (Nat.ltb_spec (S (retries i)) MAX_RETRIES) as [Hlt|_].
  - unfold MAX_RETRIES in Hlt. lia.
  - exact IH.
Qed.

(** X4.  A flush against a client whose every call resolves, over a
    queue whose updates and deletes all carry data, stores an empty
    queue and a status with both counts at zero, the time of the
    flush, and the flag lowered. *)
Theorem flush_empties_queue_when_every_call_resolves now st :
  isSyncing (syncStatus st) = false ->
  (forall config w, exists w' r, apiClient config w = (w', Axios.Resolved r)) ->
  Forall (fun i => action i = create \/ data i <> None) (getQueue st) ->
  stored_queue (sync apiClient now st) = Some []
  /\ stored_status (sync apiClient now st) = Some (mkStatus false (Some now) 0 0)
  /\ syncStatus (sync apiClient now st) = mkStatus false (Some now) 0 0.
Proof.
  intros Hidle Hres Hq. rewrite sync_runs by exact Hidle. cbn zeta.
  rewrite (syncLoop_all_resolved _ Hres Hq). repeat split.
Qed.

(** X5.  A flush against a client whose every call is rejected keeps,
    in their order, exactly the entries that still have a retry left
    after this failure, each with one more retry on record; after
    [MAX_RETRIES] such flushes the stored queue is empty, whatever it
    held. *)
Theorem flush_when_every_call_is_rejected now st :
  isSyncing (syncStatus st) = false ->
  (forall config w, exists w' e, apiClient config w = (w', Axios.Rejected e)) ->
  getQueue (sync apiClient now st) =
    map bump (filter (fun i => (S (retries i) <? MAX_RETRIES)%nat) (getQueue st))
  /\ getQueue (flushes apiClient MAX_RETRIES now st) = [].
Proof.
  intros Hidle Hrej.
  assert (Hstep : forall s, isSyncing (syncStatus s) = false ->
            getQueue (sync apiClient now s) = allFailed (getQueue s)
            /\ isSyncing (syncStatus (sync apiClient now s)) = false).
  { intros s Hs. rewrite sync_runs by exact Hs. cbn zeta.
    rewrite getQueue_stored. cbn [syncStatus isSyncing].
    now rewrite (syncLoop_all_rejected _ Hrej). }
  split; [apply (Hstep st Hidle)|].
  unfold MAX_RETRIES. cbn [flushes].
  destruct (Hstep st Hidle) as (Q1 & I1).
  destruct (Hstep _ I1) as (Q2 & I2).
  destruct (Hstep _ I2) as (Q3 & _).
  rewrite Q3, Q2, Q1. apply allFailed_exhausted.
  apply (allFailed_retries 1), (allFailed_retries 0).
  apply Forall_forall. intros; lia.
Qed.

Lemma syncLoop_subseq queue :
  forall w, exists kept,
    subseq kept queue
    /\ fst (syncLoop apiClient queue [] w) = map bump kept.
Proof.
  induction queue as [|item rest IH]; intros w.
  - exists []. split; [constructor|reflexivity].
  - cbn [syncLoop]. destruct (syncItem apiClient item w) as [w' [thrown|]].
    + destruct (IH w') as (kept & Hsub & E).
      destruct (retries (bump item) <? MAX_RETRIES)%nat.
      * exists (item :: kept). split; [now constructor|].
        rewrite syncLoop_acc. cbn [fst app map]. now rewrite E.
      * exists kept. split; [now constructor|exact E].
    + destruct (IH w') as (kept & Hsub & E).
      exists kept. split; [now constructor|exact E].
Qed.

Lemma subseq_length {A} (l1 l2 : list A) :
  subseq l1 l2 -> List.length l1 <= List.length l2.
Proof. induction 1; cbn; lia. Qed.

(** X6.  Whatever the client answers, a flush that runs leaves a
    queue that is the old one with some entries left out, order kept,
    and one retry added to each entry that stays.  Every stored entry
    has failed at least once and has a retry left.  The status, in
    memory and stored, has the flag lowered, the time of the flush and
    the length of the new queue. *)
Theorem flush_keeps_order_and_counts_retries now st :
  isSyncing (syncStatus st) = false ->
  let st' := sync apiClient now st in
  (exists kept, subseq kept (getQueue st) /\ getQueue st' = map bump kept)
  /\ Forall (fun i => 1 <= retries i < MAX_RETRIES) (getQueue st')
  /\ List.length (getQueue st') <= List.length (getQueue st)
  /\ stored_status st' = Some (syncStatus st')
  /\ isSyncing (syncStatus st') = false
  /\ lastSync (syncStatus st') = Some now
  /\ pendingCount (syncStatus st') = List.length (getQueue st').
Proof.
  intros Hidle st'. subst st'. rewrite sync_runs by exact Hidle. cbn zeta.
  rewrite !getQueue_stored. cbn [syncStatus stored_status].
  destruct (syncLoop_subseq (getQueue st) (world st)) as (kept & Hsub & E).
  split; [now exists kept|].
  split.
  - rewrite E. apply Forall_forall. intros i Hi.
    apply in_map_iff in Hi. destruct Hi as (i0 & <- & Hi0).
    pose proof (syncLoop_below_max _ apiClient (getQueue st) [] (world st)
                  (Forall_nil _)) as Hb.
    rewrite E in Hb. rewrite Forall_forall in Hb.
    specialize (Hb (bump i0) (in_map bump _ _ Hi0)). cbn in *. lia.
  - split; [|repeat split].
    rewrite E, length_map. now apply subseq_length.
Qed.

End MoreFlush.

(** With the bare client one entry costs one request, sent whether or
    not the ones before it failed. *)
Lemma syncItem_bare server item sent :
  fst (syncItem (bareClient server) item sent) =
    sent ++ match request_of item with Some c => [c] | None => [] end.
Proof.
  unfold syncItem, request_of, bareClient, Axios.transport.
  destruct (action item); destruct (data item) as [d|]; cbn [await fst];
    try (now rewrite app_nil_r);
    match goal with
    | |- context [server sent ?c] =>
        destruct (server sent c) as [r|];
        [destruct (Axios.validateStatus (Axios.status r))|]; reflexivity
    end.
Qed.

Lemma syncLoop_bare server queue :
  forall failed sent,
    snd (syncLoop (bareClient server) queue failed sent) = sent ++ requests_of queue.
Proof.
  induction queue as [|item rest IH]; intros failed sent.
  - cbn. now rewrite app_nil_r.
  - cbn [syncLoop]. pose proof (syncItem_bare server item sent) as E.
    destruct (syncItem (bareClient server) item sent) as [sent' [thrown|]];
      cbn [fst] in E; subst sent'.
    + destruct (retries (bump item) <? MAX_RETRIES)%nat;
        rewrite IH; unfold requests_of; cbn [flat_map]; now rewrite <- app_assoc.
    + rewrite IH. unfold requests_of. cbn [flat_map]. now rewrite <- app_assoc.
Qed.

Lemma requests_of_length queue :
  List.length (requests_of queue) <= List.length queue.
Proof.
  unfold requests_of. induction queue as [|item rest IH]; [reflexivity|].
  cbn [flat_map]. rewrite length_app.
  destruct (request_of item); cbn [List.length]; lia.
Qed.

Lemma requests_of_app q1 q2 :
  requests_of (q1 ++ q2) = requests_of q1 ++ requests_of q2.
Proof. unfold requests_of. apply flat_map_app. Qed.

(** ** A delete that comes back "not found" *)

(** A delete answered 404 makes [syncItem] throw the client's error. *)
Lemma syncItem_delete_not_found server item d sent :
  action item = delete ->
  data item = Some d ->
  let endpoint := ("/" ++ type_name (type item) ++ "s")%string in
  let del := Axios.request Axios.DELETE (endpoint ++ "/" ++ show_id d)%string
               Axios.NoBody in
  (forall sent0, exists r, server sent0 del = Axios.Answer r
                           /\ Axios.status r = 404%Z) ->
  exists r, Axios.status r = 404%Z
            /\ syncItem (bareClient server) item sent
               = (sent ++ [del], Some (ClientError (Axios.mkError del (Some r)))).
Proof.
  intros Hdel Hd endpoint del H404. destruct (H404 sent) as (r & Hr & Hs).
  exists r. split; [exact Hs|].
  unfold syncItem, bareClient, Axios.transport. rewrite Hdel, Hd.
  fold endpoint. fold del. rewrite Hr, Hs. reflexivity.
Qed.

(** C3 (amended).  Over the bare client, a queued delete that the
    server answers 404 is a failed dispatch like any other.  The flush
    sends it once, in its turn; afterwards the entry is still in the
    stored queue, in its place and with one more retry on record,
    unless that was its last retry, in which case it is dropped.  While
    it stays, the next flush sends the same request again. *)
Theorem delete_not_found_is_a_failure server now now' st before item after d :
  isSyncing (syncStatus st) = false ->
  getQueue st = before ++ item :: after ->
  action item = delete ->
  data item = Some d ->
  let endpoint := ("/" ++ type_name (type item) ++ "s")%string in
  let del := Axios.request Axios.DELETE (endpoint ++ "/" ++ show_id d)%string
               Axios.NoBody in
  (forall sent, exists r, server sent del = Axios.Answer r
                          /\ Axios.status r = 404%Z) ->
  let client := bareClient server in
  let done := syncLoop client before [] (world st) in
  let rest := syncLoop client after [] (snd done ++ [del]) in
  let st1 := sync client now st in
  let st2 := sync client now' st1 in
  world st1 = world st ++ requests_of before ++ [del] ++ requests_of after
  /\ pendingCount (getStatus st1) = List.length (getQueue st1)
  /\ (S (retries item) < MAX_RETRIES ->
      getQueue st1 = fst done ++ [bump item] ++ fst rest
      /\ retries (bump item) = S (retries item)
      /\ world st2
         = world st1 ++ requests_of (fst done) ++ [del] ++ requests_of (fst rest))
  /\ (MAX_RETRIES <= S (retries item) -> getQueue st1 = fst done ++ fst rest).
Proof.
  intros Hidle Hq Hdel Hd endpoint del H404 client done rest st1 st2.
  assert (Hreq : request_of item = Some del).
  { unfold request_of. rewrite Hdel, Hd. reflexivity. }
  assert (Hreq' : request_of (bump item) = Some del) by exact Hreq.
  destruct (syncItem_delete_not_found server item d (snd done) Hdel Hd H404)
    as (r & Hr & Hitem).
  fold endpoint in Hitem. fold del in Hitem. fold client in Hitem.
  assert (Hq1 : getQueue st1 = fst done ++ keep item ++ fst rest).
  { unfold st1. rewrite sync_runs by exact Hidle. cbn zeta.
    rewrite getQueue_stored, Hq, syncLoop_app. fold client. fold done.
    rewrite (syncLoop_failed _ _ _ _ _ _ _ _ Hitem), syncLoop_acc. cbn [fst].
    fold rest. now rewrite <- app_assoc. }
  assert (Hw1 : world st1 = world st ++ requests_of before ++ [del] ++ requests_of after).
  { unfold st1. rewrite sync_runs by exact Hidle. cbn zeta. cbn [world].
    unfold client. rewrite syncLoop_bare, Hq, requests_of_app.
    change (item :: after) with ([item] ++ after). rewrite requests_of_app.
    unfold requests_of at 2. cbn [flat_map]. rewrite Hreq. reflexivity. }
  assert (Hidle1 : isSyncing (syncStatus st1) = false).
  { unfold st1. now rewrite sync_runs by exact Hidle. }
  split; [exact Hw1|].
  split.
  { unfold st1. rewrite sync_runs by exact Hidle. cbn zeta.
    now rewrite getQueue_stored. }
  unfold keep in Hq1. split.
  - intros Hlt. destruct (Nat.ltb_spec (S (retries item)) MAX_RETRIES); [|lia].
    split; [exact Hq1|]. split; [reflexivity|].
    unfold st2. rewrite sync_runs by exact Hidle1. cbn zeta. cbn [world].
    unfold client at 1. rewrite syncLoop_bare, Hq1, !requests_of_app.
    unfold requests_of at 2. cbn [flat_map]. rewrite Hreq'. reflexivity.
  - intros Hge. destruct (Nat.ltb_spec (S (retries item)) MAX_RETRIES); [lia|].
    exact Hq1.
Qed.

(** X7.  Over the bare client a flush sends the requests of the queued
    entries in queue order, one per entry and none for an update or
    delete without data, whatever the server answers to any of them:
    a failed entry neither stops nor repeats the ones after it. *)
Theorem flush_sends_each_entry_once_in_order server now st :
  isSyncing (syncStatus st) = false ->
  world (sync (bareClient server) now st) = world st ++ requests_of (getQueue st)
  /\ List.length (world (sync (bareClient server) now st))
     <= List.length (world st) + List.length (getQueue st).
Proof.
  intros Hidle. rewrite sync_runs by exact Hidle. cbn zeta. cbn [world].
  rewrite syncLoop_bare. split; [reflexivity|].
  rewrite length_app. pose proof (requests_of_length (getQueue st)). lia.
Qed.

(** X8.  A new service object over the same storage reads the stored
    queue and the stored status as they were left, and its flush runs
    even when the stored status still says a flush is under way: the
    stored flag is lowered by that flush. *)
Theorem restart_reads_storage_and_flushes
        (W : Type) (apiClient : Axios.Config -> W -> W * Axios.Outcome) now st :
  getQueue (restart st) = getQueue st
  /\ (stored_status st <> None -> getStatus (restart st) = getStatus st)
  /\ stored_queue (sync apiClient now (restart st))
     = Some (fst (syncLoop apiClient (getQueue st) [] (world st)))
  /\ (exists s, stored_status (sync apiClient now (restart st)) = Some s
                /\ isSyncing s = false /\ lastSync s = Some now).
Proof.
  split; [reflexivity|]. split.
  - unfold getStatus, restart. cbn [stored_status].
    destruct (stored_status st); [reflexivity|]. intros H. now elim H.
  - rewrite sync_runs by reflexivity. cbn zeta.
    split; [reflexivity|]. eexists. repeat split.
Qed.

Lemma flush_empties_queue_when_every_call_resolves_witness :
  stored_queue (sync (bareClient allOk) 2000 twoQueued) = Some []
  /\ stored_status (sync (bareClient allOk) 2000 twoQueued)
     = Some (mkStatus false (Some 2000%Z) 0 0)
  /\ syncStatus (sync (bareClient allOk) 2000 twoQueued)
     = mkStatus false (Some 2000%Z) 0 0.
Proof.
  apply (flush_empties_queue_when_every_call_resolves
           (list Axios.Config) (bareClient allOk) 2000 twoQueued).
  - reflexivity.
  - intros config w. do 2 eexists. reflexivity.
  - change (Forall (fun i => action i = create \/ data i <> None)
                   [theDelete; theCreate]).
    constructor; [right; discriminate|].
    constructor; [right; discriminate|constructor].
Defined.

Lemma flush_when_every_call_is_rejected_witness :
  getQueue (sync (bareClient unreachable) 2000 twoQueued)
    = [bump theDelete; bump theCreate]
  /\ getQueue (flushes (bareClient unreachable) MAX_RETRIES 2000 twoQueued) = [].
Proof.
  apply (flush_when_every_call_is_rejected
           (list Axios.Config) (bareClient unreachable) 2000 twoQueued).
  - reflexivity.
  - intros config w. do 2 eexists. reflexivity.
Defined.

Lemma flush_keeps_order_and_counts_retries_witness :
  let st' := sync (bareClient firstFails) 2000 twoQueued in
  (exists kept, subseq kept [theDelete; theCreate] /\ getQueue st' = map bump kept)
  /\ Forall (fun i => 1 <= retries i < MAX_RETRIES) (getQueue st')
  /\ List.length (getQueue st') <= 2
  /\ stored_status st' = Some (syncStatus st')
  /\ isSyncing (syncStatus st') = false
  /\ lastSync (syncStatus st') = Some 2000%Z
  /\ pendingCount (syncStatus st') = List.length (getQueue st').
Proof.
  apply (flush_keeps_order_and_counts_retries
           (list Axios.Config) (bareClient firstFails) 2000 twoQueued).
  reflexivity.
Defined.

Lemma flush_sends_each_entry_once_in_order_witness :
  world (sync (bareClient firstFails) 2000 twoQueued) = [deleteSent; createSent]
  /\ List.length (world (sync (bareClient firstFails) 2000 twoQueued)) <= 0 + 2.
Proof.
  apply (flush_sends_each_entry_once_in_order firstFails 2000 twoQueued).
  reflexivity.
Defined.

Lemma restart_reads_storage_and_flushes_witness :
  isSyncing (getStatus interrupted) = true
  /\ getStatus (restart interrupted) = getStatus interrupted
  /\ stored_queue (sync (bareClient allOk) 2000 (restart interrupted)) = Some [].
Proof.
  pose proof (restart_reads_storage_and_flushes
                (list Axios.Config) (bareClient allOk) 2000 interrupted)
    as (_ & Hstatus & Hqueue & _).
  split; [reflexivity|]. split; [|exact Hqueue].
  apply Hstatus. discriminate.
Defined.

Ltac present :=
  let H := fresh in
  unfold absent; cbn; intros H;
  repeat (destruct H as [H|H]; [discriminate H|]); discriminate H.

(** C5, as stated, fails in two ways.  Where an update timestamp is
    0: both sides have [updatedAt = 0], so by the claim the remote
    side wins, but the code reads the zero as absent, falls back to
    the local enqueue timestamp 10 and returns the local side.  And
    where one time is an ISO date and the other a number: the stored
    record was updated two days after the local edit was queued, but
    its date does not convert to a number and the local side is
    returned. *)
Lemma local_is_returned_against_the_claim :
  let localData := Doc.mk (Primitive (PNum 0)) (Primitive (PNum 10)) "local" in
  let remote := Doc.mk (Primitive (PNum 0)) (Primitive PUndefined) "remote" in
  (Doc.updatedAt remote = Doc.updatedAt localData
   /\ spec_resolveConflict localData remote = remote
   /\ handleConflict toNumber (Some localData) (Some remote) = Some localData
   /\ localData <> remote)
  /\ (Doc.timestamp edited = Primitive (PNum 1714557600000)
      /\ Doc.updatedAt stored = Primitive (PStr "2024-05-03T09:30:00Z")
      /\ instants "2024-05-03T09:30:00Z" = Some 1714728600000%Z
      /\ (1714557600000 < 1714728600000)%Z
      /\ handleConflict toNumber (Some edited) (Some stored) = Some edited
      /\ edited <> stored).
Proof. cbn zeta. repeat split; discriminate. Qed.

Lemma handleConflict_last_write_wins_witness :
  handleConflict toNumber (Some newer) (Some older) = Some newer
  /\ handleConflict toNumber (Some older) (Some newer) = Some newer
  /\ handleConflict toNumber (Some edited) (Some stored) = Some edited.
Proof.
  assert (Hnewer : time_of newer (Primitive (PNum 7))).
  { apply (time_updatedAt newer). present. }
  assert (Holder : time_of older (Primitive (PNum 5))).
  { apply (time_timestamp older); [unfold absent; cbn; auto 7|present]. }
  assert (Hedited : time_of edited (Primitive (PNum 1714557600000))).
  { apply (time_timestamp edited); [unfold absent; cbn; auto 7|present]. }
  assert (Hstored : time_of stored (Primitive (PStr "2024-05-03T09:30:00Z"))).
  { apply (time_updatedAt stored). present. }
  split; [|split].
  - apply (proj1 (handleConflict_last_write_wins toNumber newer older _ _
                    Hnewer Holder) 7%Z 5%Z eq_refl eq_refl).
  - apply (proj1 (handleConflict_last_write_wins toNumber older newer _ _
                    Holder Hnewer) 5%Z 7%Z eq_refl eq_refl).
  - apply (proj1 (proj2 (proj2 (proj2 (handleConflict_last_write_wins toNumber
                    edited stored _ _ Hedited Hstored))))
             1714557600000%Z "2024-05-03T09:30:00Z" eq_refl eq_refl).
Defined.

Lemma handleConflict_picks_the_later_witness :
  (exists r, handleConflict toNumber (Some newer) (Some older) = Some r
             /\ time_of r (Primitive (PNum 7))
             /\ (7%Z <> 5%Z -> handleConflict toNumber (Some older) (Some newer) = Some r))
  /\ handleConflict toNumber (Some edited) (Some stored) = Some edited
  /\ handleConflict toNumber (Some stored) (Some edited) = Some stored.
Proof.
  assert (Hnewer : time_of newer (Primitive (PNum 7))).
  { apply (time_updatedAt newer). present. }
  assert (Holder : time_of older (Primitive (PNum 5))).
  { apply (time_timestamp older); [unfold absent; cbn; auto 7|present]. }
  assert (Hedited : time_of edited (Primitive (PNum 1714557600000))).
  { apply (time_timestamp edited); [unfold absent; cbn; auto 7|present]. }
  assert (Hstored : time_of stored (Primitive (PStr "2024-05-03T09:30:00Z"))).
  { apply (time_updatedAt stored). present. }
  split.
  - apply (proj1 (proj2 (handleConflict_picks_the_later toNumber newer older _ _
                    Hnewer Holder)) 7%Z 5%Z eq_refl eq_refl).
  - apply (proj2 (proj2 (handleConflict_picks_the_later toNumber edited stored _ _
                    Hedited Hstored)) "2024-05-03T09:30:00Z" 1714557600000%Z).
    + right. split; reflexivity.
    + reflexivity.
Defined.

(** C3, as stated, fails: the deletion of pet 42 is answered 404, and
    after the flush the entry is still in the stored queue, now with
    one retry on record; the next flush sends it again. *)
Lemma delete_not_found_is_retried :
  let notFound :=
    Axios.mkError deleteSent
      (Some (Axios.mkResponse 404 (Axios.mkTokens "" ""))) in
  let st' := sync (bareClient alreadyGone) 2000 oneDelete in
  getQueue oneDelete = [theDelete]
  /\ action theDelete = delete
  /\ syncItem (bareClient alreadyGone) theDelete []
     = ([deleteSent], Some (ClientError notFound))
  /\ getQueue st' = [bump theDelete]
  /\ retries (bump theDelete) = 1
  /\ pendingCount (getStatus st') = 1
  /\ world (sync (bareClient alreadyGone) 2001 st') = [deleteSent; deleteSent].
Proof. cbn zeta. repeat split. Qed.

Lemma delete_not_found_is_a_failure_witness :
  let st1 := sync (bareClient alreadyGone) 2000 oneDelete in
  world st1 = [deleteSent]
  /\ getQueue st1 = [bump theDelete]
  /\ world (sync (bareClient alreadyGone) 2001 st1) = [deleteSent; deleteSent].
Proof.
  cbn zeta.
  pose proof (delete_not_found_is_a_failure alreadyGone 2000 2001 oneDelete
                [] theDelete [] pet42 eq_refl eq_refl eq_refl eq_refl
                (fun sent => ex_intro _ (Axios.mkResponse 404 (Axios.mkTokens "" ""))
                               (conj eq_refl eq_refl)))
    as (Hw & _ & Hkeep & _).
  destruct (Hkeep ltac:(unfold MAX_RETRIES; cbn; lia)) as (Hq & _ & Hw2).
  split; [exact Hw|]. split; [exact Hq|exact Hw2].
Defined.

End SyncFacts.

(* ================================================================== *)
(** * Properties of the token check                                    *)
(* ================================================================== *)

Module AuthFacts.
Import Auth.

Lemma split_length s : List.length (split "." s) = S (dots s).
Proof.
  induction s as [|c rest IH]; [reflexivity|]. cbn [split dots].
  destruct (c =? ".")%char; cbn [List.length].
  - now rewrite IH.
  - destruct (split "." rest); [discriminate|exact IH].
Qed.

Section WithRuntime.
Variable rt : Runtime.

Lemma decodeToken_segments token :
  dots token <> 2 -> decodeToken rt token = None.
Proof.
  intros H. unfold decodeToken. rewrite split_length.
  destruct (Nat.eqb_spec (S (dots token)) 3); [lia|reflexivity].
Qed.

Lemma validateToken_decoded Date_now token payload :
  decodeToken rt token = Some payload ->
  validateToken rt Date_now token =
    match greater rt (get_exp payload) (Date_now / 1000) with
    | Some b => b
    | None => false
    end.
Proof.
  intros H. unfold validateToken. rewrite H.
  destruct (String.eqb_spec token "") as [->|_]; [discriminate H|reflexivity].
Qed.

(** C9 (amended).  [validateToken] returns [false] for the empty
    token and for a token that does not split at its dots into
    exactly three segments.  For a token of three segments the
    verdict is read off the middle one alone: [false] when it does
    not decode and parse, when the payload is [null] or not an
    object, and when it is an object without [exp].  When [exp] is a
    number the token is valid exactly when [exp] is strictly greater
    than the clock reading in whole seconds.  An [exp] that is not a
    number is not rejected as such: a string is converted to a number
    and compared in the same way (and is refused when the conversion
    gives [NaN]), [true] counts as 1, [false] and [null] as 0, and an
    array or object goes through its conversion to a string first. *)
Theorem validateToken_outcomes Date_now token :
  let now := (Date_now / 1000)%Z in
  (token = "" -> validateToken rt Date_now token = false)
  /\ (List.length (split "." token) <> 3 -> validateToken rt Date_now token = false)
  /\ (dots token <> 2 -> validateToken rt Date_now token = false)
  /\ (forall h p s,
         split "." token = [h; p; s] ->
         JSON_parse rt (base64_utf8 rt p) = None ->
         validateToken rt Date_now token = false)
  /\ (forall h p s payload,
         split "." token = [h; p; s] ->
         JSON_parse rt (base64_utf8 rt p) = Some payload ->
         (forall ms, payload <> JObj ms) ->
         validateToken rt Date_now token = false)
  /\ (forall h p s ms,
         split "." token = [h; p; s] ->
         JSON_parse rt (base64_utf8 rt p) = Some (JObj ms) ->
         (member "exp" ms = None -> validateToken rt Date_now token = false)
         /\ (forall e, member "exp" ms = Some (JNum e) ->
                       (validateToken rt Date_now token = true <-> (now < e)%Z))
         /\ (forall x, member "exp" ms = Some (JStr x) ->
                       (validateToken rt Date_now token = true
                        <-> exists n, StringToNumber rt x = Some n /\ (now < n)%Z))
         /\ (forall b, member "exp" ms = Some (JBool b) ->
                       (validateToken rt Date_now token = true
                        <-> (now < (if b then 1 else 0))%Z))
         /\ (member "exp" ms = Some JNull ->
             (validateToken rt Date_now token = true <-> (now < 0)%Z))
         /\ (forall v, member "exp" ms = Some v ->
                       (exists items, v = JArr items) \/ (exists members, v = JObj members) ->
                       (validateToken rt Date_now token = true
                        <-> exists x n, ObjectToString rt v = Some x
                                        /\ StringToNumber rt x = Some n /\ (now < n)%Z))).
Proof.
  cbn zeta.
  assert (Hnone : decodeToken rt token = None ->
                  validateToken rt Date_now token = false).
  { intros H. unfold validateToken. rewrite H. now destruct (token =? ""). }
  assert (Hlen : List.length (split "." token) <> 3 -> decodeToken rt token = None).
  { intros H. unfold decodeToken.
    destruct (Nat.eqb_spec (List.length (split "." token)) 3); [contradiction|reflexivity]. }
  assert (Hdec : forall h p s, split "." token = [h; p; s] ->
                   decodeToken rt token = JSON_parse rt (base64_utf8 rt p)).
  { intros h p s H. unfold decodeToken. rewrite H. reflexivity. }
  assert (Hgt : forall n, ((n >? Date_now / 1000)%Z = true <-> (Date_now / 1000 < n)%Z)).
  { intros n. rewrite Z.gtb_lt. reflexivity. }
  split; [intros ->; reflexivity|].
  split; [intros H; apply Hnone, Hlen, H|].
  split; [intros H; apply Hnone; now apply decodeToken_segments|].
  split; [intros h p s H Hp; apply Hnone; now rewrite (Hdec _ _ _ H)|].
  split.
  { intros h p s payload H Hp Hobj.
    rewrite (validateToken_decoded _ _ payload) by now rewrite (Hdec _ _ _ H).
    destruct payload; try reflexivity. now elim (Hobj members). }
  intros h p s ms H Hp.
  rewrite (validateToken_decoded _ _ (JObj ms)) by now rewrite (Hdec _ _ _ H).
  cbn [get_exp].
  split; [now intros ->|].
  split; [intros e ->; cbn [greater]; apply Hgt|].
  split.
  { intros x ->. cbn [greater]. destruct (StringToNumber rt x) as [n|].
    - rewrite Hgt. split; [intros Hn; now exists n|].
      intros (n' & E & Hn). now injection E as ->.
    - split; [discriminate|]. intros (n' & E & _). discriminate E. }
  split.
  { intros b ->. cbn [greater]. apply Hgt. }
  split; [intros ->; cbn [greater]; apply Hgt|].
  intros v -> Hv.
  assert (Hobj : greater rt (Value v) (Date_now / 1000) =
                 match ObjectToString rt v with
                 | None => None
                 | Some x => match StringToNumber rt x with
                             | Some n => Some (n >? Date_now / 1000)%Z
                             | None => Some false
                             end
                 end).
  { destruct Hv as [[items ->]|[members ->]]; reflexivity. }
  rewrite Hobj. destruct (ObjectToString rt v) as [x|].
  - destruct (StringToNumber rt x) as [n|] eqn:En.
    + rewrite Hgt. split; [intros Hn; now exists x, n|].
      intros (x' & n' & Ex & E & Hn). injection Ex as <-. rewrite En in E.
      now injection E as ->.
    + split; [discriminate|]. intros (x' & n' & Ex & E & _).
      injection Ex as <-. rewrite En in E. discriminate E.
  - split; [discriminate|]. intros (x' & n' & Ex & _). discriminate Ex.
Qed.

End WithRuntime.

Import Scenario.

Lemma validateToken_outcomes_witness :
  validateToken runtime clock "" = false
  /\ validateToken runtime clock "h.eyJleHAiOjk5OTk5OTk5OTk5fQ" = false
  /\ validateToken runtime clock "h..s" = false
  /\ validateToken runtime clock "h.bnVsbA.s" = false
  /\ validateToken runtime clock "h.eyJzdWIiOiJ1MSJ9.s" = false
  /\ validateToken runtime clock "h.eyJleHAiOjk5OTk5OTk5OTk5fQ.s" = true
  /\ validateToken runtime clock "h.eyJleHAiOiI5OTk5OTk5OTk5OSJ9.s" = true.
Proof.
  split; [|split; [|split; [|split; [|split; [|split]]]]].
  - apply (proj1 (validateToken_outcomes runtime clock "")). reflexivity.
  - apply (proj1 (proj2 (validateToken_outcomes runtime clock
                           "h.eyJleHAiOjk5OTk5OTk5OTk5fQ"))).
    cbn. discriminate.
  - apply (proj1 (proj2 (proj2 (proj2 (validateToken_outcomes runtime clock "h..s"))))
             "h" "" "s"); reflexivity.
  - apply (proj1 (proj2 (proj2 (proj2 (proj2
             (validateToken_outcomes runtime clock "h.bnVsbA.s")))))
             "h" "bnVsbA" "s" JNull); [reflexivity|reflexivity|discriminate].
  - apply (proj1 (proj2 (proj2 (proj2 (proj2 (proj2
             (validateToken_outcomes runtime clock "h.eyJzdWIiOiJ1MSJ9.s")))))
             "h" "eyJzdWIiOiJ1MSJ9" "s" [("sub", JStr "u1")] eq_refl eq_refl)).
    reflexivity.
  - apply (proj1 (proj2 (proj2 (proj2 (proj2 (proj2 (proj2
             (validateToken_outcomes runtime clock "h.eyJleHAiOjk5OTk5OTk5OTk5fQ.s")))))
             "h" "eyJleHAiOjk5OTk5OTk5OTk5fQ" "s" [("exp", JNum 99999999999)]
             eq_refl eq_refl)) 99999999999%Z eq_refl).
    cbn. lia.
  - apply (proj1 (proj2 (proj2 (proj2 (proj2 (proj2 (proj2 (proj2
             (validateToken_outcomes runtime clock "h.eyJleHAiOiI5OTk5OTk5OTk5OSJ9.s")))))
             "h" "eyJleHAiOiI5OTk5OTk5OTk5OSJ9" "s" [("exp", JStr "99999999999")]
             eq_refl eq_refl))) "99999999999" eq_refl).
    exists 99999999999%Z. split; [reflexivity|]. cbn. lia.
Defined.

(** C9, as stated, fails: the middle segment decodes to
    [{"exp":"99999999999"}], an object whose [exp] is a string and
    not a number, and the token is accepted, because the comparison
    converts the string to the number 99999999999. *)
Lemma string_exp_is_accepted :
  let token := "h.eyJleHAiOiI5OTk5OTk5OTk5OSJ9.s" in
  decodeToken runtime token = Some (JObj [("exp", JStr "99999999999")])
  /\ get_exp (JObj [("exp", JStr "99999999999")]) = Value (JStr "99999999999")
  /\ (forall e, JStr "99999999999" <> JNum e)
  /\ validateToken runtime clock token = true.
Proof. cbn zeta. repeat split. discriminate. Qed.

(** ** The other two segments, the clock, and the session *)

Lemma split_no_dots s : dots s = 0 -> split "." s = [s].
Proof.
  induction s as [|c rest IH]; [reflexivity|]. cbn [split dots].
  destruct (c =? ".")%char; [discriminate|].
  intros H. now rewrite (IH H).
Qed.

Lemma split_first h rest :
  dots h = 0 -> split "." (h ++ String "." rest) = h :: split "." rest.
Proof.
  induction h as [|c h IH]; intros H.
  - cbn. reflexivity.
  - cbn [split dots append] in *.
    destruct (c =? ".")%char; [discriminate|]. now rewrite (IH H).
Qed.

Lemma split_three h p s :
  dots h = 0 -> dots p = 0 -> dots s = 0 ->
  split "." (h ++ String "." (p ++ String "." s)) = [h; p; s].
Proof.
  intros Hh Hp Hs. now rewrite (split_first _ _ Hh), (split_first _ _ Hp), split_no_dots.
Qed.

Section WithRuntimeMore.
Variable rt : Runtime.

(** X10.  Only the middle segment counts: two tokens of three
    segments with the same middle segment get the same verdict,
    whatever their first and last segments are.  The signature is
    never looked at. *)
Theorem validateToken_reads_only_the_payload Date_now h s h' s' p :
  dots h = 0 -> dots s = 0 -> dots h' = 0 -> dots s' = 0 -> dots p = 0 ->
  validateToken rt Date_now (h ++ String "." (p ++ String "." s))
  = validateToken rt Date_now (h' ++ String "." (p ++ String "." s')).
Proof.
  intros Hh Hs Hh' Hs' Hp.
  assert (Hne : forall a b, (a ++ String "." b =? "")%string = false).
  { intros a b. destruct a; reflexivity. }
  unfold validateToken, decodeToken.
  rewrite !Hne, (split_three _ _ _ Hh Hp Hs), (split_three _ _ _ Hh' Hp Hs').
  reflexivity.
Qed.

Lemma greater_antitone x now now' :
  (now <= now')%Z ->
  greater rt x now' = Some true -> greater rt x now = Some true.
Proof.
  intros Hle. unfold greater.
  assert (Hgt : forall n, Some (n >? now')%Z = Some true -> Some (n >? now)%Z = Some true).
  { intros n H. injection H as H. apply Z.gtb_lt in H. f_equal. apply Z.gtb_lt. lia. }
  destruct x as [| |[|b|n|s|items|members]]; try discriminate; try apply Hgt.
  - destruct (StringToNumber rt s); [apply Hgt|discriminate].
  - destruct (ObjectToString rt (JArr items)) as [s|]; [|discriminate].
    destruct (StringToNumber rt s); [apply Hgt|discriminate].
  - destruct (ObjectToString rt (JObj members)) as [s|]; [|discriminate].
    destruct (StringToNumber rt s); [apply Hgt|discriminate].
Qed.

(** X11.  Time only takes validity away: a token accepted at some
    reading of the clock is accepted at every earlier reading, so a
    token rejected once is rejected from then on. *)
Theorem validateToken_valid_earlier Date_now Date_later token :
  (Date_now <= Date_later)%Z ->
  validateToken rt Date_later token = true ->
  validateToken rt Date_now token = true.
Proof.
  intros Hle. unfold validateToken.
  destruct (token =? "")%string; [discriminate|].
  destruct (decodeToken rt token) as [payload|]; [|discriminate].
  assert (Hdiv : (Date_now / 1000 <= Date_later / 1000)%Z)
    by (apply Z.div_le_mono; lia).
  destruct (greater rt (get_exp payload) (Date_later / 1000)) as [[|]|] eqn:E;
    try discriminate.
  intros _. now rewrite (greater_antitone _ _ _ Hdiv E).
Qed.

End WithRuntimeMore.

Section Session.
Variable W E : Type.
Variable post : string -> LoginCredentials -> W -> W * (AuthResponse + E).
Variable rt : Runtime.

(** X12.  A login that succeeds stores the token of the response, and
    its refresh token when it has a non-empty one; otherwise the
    refresh token already in the store stays.  Being authenticated
    afterwards is exactly the token of the response passing
    [validateToken].  A login that fails leaves the store as it was
    and throws the client's error.  After [logout] neither token is
    stored and the user is not authenticated. *)
Theorem login_and_logout credentials w s Date_now :
  (forall w' response,
      post "/auth/login" credentials w = (w', inl response) ->
      let s' := snd (fst (login post credentials w s)) in
      snd (login post credentials w s) = inl response
      /\ getToken s' = Some (token response)
      /\ getRefreshToken s'
         = (if Axios.truthy (refreshToken response) then refreshToken response
            else getRefreshToken s)
      /\ isAuthenticated rt Date_now s' = validateToken rt Date_now (token response)
      /\ getToken (logout s') = None
      /\ getRefreshToken (logout s') = None
      /\ isAuthenticated rt Date_now (logout s') = false)
  /\ (forall w' e,
         post "/auth/login" credentials w = (w', inr e) ->
         login post credentials w s = (w', s, inr e)).
Proof.
  split.
  - intros w' response H. unfold login. rewrite H. cbn zeta.
    destruct response as [tok rtok usr]. cbn [token refreshToken user].
    repeat split.
    + now destruct rtok as [r|]; [destruct (Axios.truthy (Some r))|].
    + destruct rtok as [r|]; [destruct (Axios.truthy (Some r))|]; reflexivity.
    + assert (Htok : forall s0, getToken s0 = Some tok ->
                isAuthenticated rt Date_now s0 = validateToken rt Date_now tok).
      { intros s0 Hs0. unfold isAuthenticated. rewrite Hs0. cbn [Axios.truthy].
        destruct (String.eqb_spec tok "") as [->|_]; reflexivity. }
      apply Htok.
      now destruct rtok as [r|]; [destruct (Axios.truthy (Some r))|].
  - intros w' e H. unfold login. now rewrite H.
Qed.

End Session.

Lemma validateToken_reads_only_the_payload_witness :
  validateToken runtime clock "h.eyJleHAiOjk5OTk5OTk5OTk5fQ.s"
  = validateToken runtime clock "forged.eyJleHAiOjk5OTk5OTk5OTk5fQ.".
Proof.
  apply (validateToken_reads_only_the_payload runtime clock
           "h" "s" "forged" "" "eyJleHAiOjk5OTk5OTk5OTk5fQ"); reflexivity.
Defined.

Lemma validateToken_valid_earlier_witness :
  validateToken runtime 0 goodToken = true.
Proof.
  apply (validateToken_valid_earlier runtime 0 clock goodToken).
  - unfold clock. lia.
  - reflexivity.
Defined.

Lemma login_and_logout_witness :
  (let s' := snd (fst (login signIn ada tt leftOver)) in
   snd (login signIn ada tt leftOver) = inl (mkAuthResponse goodToken None "ada")
   /\ getToken s' = Some goodToken
   /\ getRefreshToken s' = Some "old-refresh"
   /\ isAuthenticated runtime clock s' = validateToken runtime clock goodToken
   /\ getToken (logout s') = None
   /\ getRefreshToken (logout s') = None
   /\ isAuthenticated runtime clock (logout s') = false)
  /\ login refuse ada tt leftOver = (tt, leftOver, inr "401").
Proof.
  split.
  - apply (proj1 (login_and_logout unit string signIn runtime ada tt leftOver clock)
             tt (mkAuthResponse goodToken None "ada")).
    reflexivity.
  - apply (proj2 (login_and_logout unit string refuse runtime ada tt leftOver clock)
             tt "401").
    reflexivity.
Defined.

End AuthFacts.

(* ================================================================== *)
(** * Properties of the error handler                                  *)
(* ================================================================== *)

Module ErrorHandlerFacts.
Import ErrorHandler.

Lemma or_string_nonempty x y : y <> "" -> or_string x y <> "".
Proof.
  intros Hy. unfold or_string. destruct x as [v|]; [|exact Hy].
  destruct (String.eqb_spec v ""); [exact Hy|assumption].
Qed.

Lemma getStatusMessage_nonempty s : getStatusMessage s <> "".
Proof.
  unfold getStatusMessage.
  repeat match goal with
         | |- context [if ?b then _ else _] => destruct b; [discriminate|]
         end.
  discriminate.
Qed.

(** X13.  For an axios error the handler always gives a message and a
    code that are not empty.  The status is that of the response, or
    0 when none came.  A non-empty message in the response data is
    the one given; without a response a timeout ([ECONNABORTED]) is
    told apart from other network failures. *)
Theorem axios_errors_are_always_described code response :
  let r := errorHandler (Axios code response) in
  message r <> ""
  /\ (exists c, ErrorHandler.code r = Some c /\ c <> "")
  /\ status r = match response with Some (s, _) => s | None => 0%Z end
  /\ (forall s d m, response = Some (s, Some d) -> data_message d = Some m ->
                    m <> "" -> message r = m)
  /\ (forall s d, response = Some (s, d) ->
                  match d with Some d' => data_message d' | None => None end = None ->
                  message r = getStatusMessage s)
  /\ (response = None ->
      message r = if or_string code "" =? "ECONNABORTED"
                  then "Request timeout. Please try again."
                  else "Network error. Check your connection.").
Proof.
  cbn zeta. destruct response as [[s d]|]; cbn [errorHandler message ErrorHandler.code status].
  - split; [apply or_string_nonempty, getStatusMessage_nonempty|].
    split; [eexists; split; [reflexivity|apply or_string_nonempty; discriminate]|].
    split; [reflexivity|]. split; [|split].
    + intros s0 d0 m H Hm Hne. injection H as -> ->. rewrite Hm. cbn.
      destruct (String.eqb_spec m ""); [contradiction|reflexivity].
    + intros s0 d0 H Hm. injection H as -> ->. now rewrite Hm.
    + discriminate.
  - split; [destruct code as [c|]; [destruct (c =? "ECONNABORTED")|]; discriminate|].
    split; [eexists; split; [reflexivity|apply or_string_nonempty; discriminate]|].
    split; [reflexivity|]. split; [discriminate|]. split; [discriminate|].
    intros _. destruct code as [c|]; [|reflexivity]. cbn.
    destruct (String.eqb_spec c "") as [->|_]; reflexivity.
Qed.

Lemma axios_errors_are_always_described_witness :
  message (errorHandler (Axios None (Some (404%Z, Some (mkData (Some "No such pet") None)))))
  = "No such pet"
  /\ message (errorHandler (Axios None (Some (404%Z, None)))) = "Resource not found."
  /\ message (errorHandler (Axios (Some "ECONNABORTED") None))
     = "Request timeout. Please try again.".
Proof.
  split; [|split].
  - apply (proj1 (proj2 (proj2 (proj2 (axios_errors_are_always_described
             None (Some (404%Z, Some (mkData (Some "No such pet") None)))))))
             404%Z (mkData (Some "No such pet") None) "No such pet");
      [reflexivity|reflexivity|discriminate].
  - apply (proj1 (proj2 (proj2 (proj2 (proj2 (axios_errors_are_always_described
             None (Some (404%Z, None)))))))
             404%Z None); reflexivity.
  - apply (proj2 (proj2 (proj2 (proj2 (proj2 (axios_errors_are_always_described
             (Some "ECONNABORTED") None)))))). reflexivity.
Defined.

End ErrorHandlerFacts.

(* ================================================================== *)
(** * Properties of the appointment service                            *)
(* ================================================================== *)

Module AppointmentsFacts.
Import Appointments.

Section Service.
Variable W : Type.
Variable get : string -> option string -> W
               -> W * (AppointmentsListResponse + ErrorHandler.Thrown).
Variable Date_getTime : string -> option Z.

Lemma Forall_perm {A} (P : A -> Prop) l l' :
  Permutation l l' -> Forall P l -> Forall P l'.
Proof.
  intros Hp H. apply Forall_forall. intros x Hx.
  rewrite Forall_forall in H. apply H.
  apply (Permutation_in _ (Permutation_sym Hp) Hx).
Qed.

Lemma insert_perm a l : Permutation (insert Date_getTime a l) (a :: l).
Proof.
  induction l as [|b l IH]; cbn [insert]; [reflexivity|].
  destruct (compare Date_getTime a b <=? 0)%Z; [reflexivity|].
  rewrite IH. apply perm_swap.
Qed.

Lemma sort_perm l : Permutation (sort Date_getTime l) l.
Proof.
  induction l as [|a l IH]; cbn [sort]; [reflexivity|].
  rewrite insert_perm. now constructor.
Qed.

Lemma earlier_trans a b c :
  dated Date_getTime a -> dated Date_getTime b -> dated Date_getTime c -> earlier Date_getTime a b -> earlier Date_getTime b c -> earlier Date_getTime a c.
Proof.
  unfold earlier, compare.
  intros (x & ->) (y & ->) (z & ->). lia.
Qed.

Lemma insert_sorted a l :
  dated Date_getTime a -> Forall (dated Date_getTime) l ->
  StronglySorted (earlier Date_getTime) l -> StronglySorted (earlier Date_getTime) (insert Date_getTime a l).
Proof.
  intros Ha Hl Hs. induction Hs as [|b l Hs IH Hb]; cbn [insert].
  - repeat constructor.
  - inversion Hl as [|? ? Hdb Hdl]; subst.
    destruct (Z.leb_spec (compare Date_getTime a b) 0) as [Hab|Hab].
    + constructor; [now constructor|]. constructor; [exact Hab|].
      rewrite Forall_forall in *. intros c Hc.
      apply (earlier_trans a b c); auto.
    + constructor; [now apply IH|].
      apply (Forall_perm _ (a :: l)); [symmetry; apply insert_perm|].
      constructor; [|exact Hb].
      unfold earlier, compare in *.
      destruct Ha as (x & Hx), Hdb as (y & Hy). rewrite Hx, Hy in *. lia.
Qed.

Lemma sort_sorted l : Forall (dated Date_getTime) l -> StronglySorted (earlier Date_getTime) (sort Date_getTime l).
Proof.
  induction 1 as [|a l Ha Hl IH]; cbn [sort]; [constructor|].
  apply insert_sorted; [exact Ha| |exact IH].
  apply (Forall_perm _ l); [symmetry; apply sort_perm|exact Hl].
Qed.

Lemma isUpcoming_true now a :
  isUpcoming Date_getTime now a = true ->
  status a <> cancelled /\ status a <> completed
  /\ exists t, Date_getTime (dateTime a) = Some t /\ (now <= t)%Z.
Proof.
  unfold isUpcoming.
  destruct (status a); try discriminate;
    (destruct (Date_getTime (dateTime a)) as [t|]; [|discriminate]);
    intros H; apply Z.geb_le in H;
    (split; [discriminate|split; [discriminate|now exists t]]).
Qed.

(** X14.  When the list arrives, [getUpcomingAppointments] returns
    exactly the appointments of that list that are neither cancelled
    nor completed and whose [dateTime] parses to a time not before
    now: each of them once, none other, in ascending order of time,
    with [total] their number.  An answer that is not an array counts
    as the empty list. *)
Theorem upcoming_are_filtered_and_sorted now petId w w' response :
  fst (getAppointments get petId w) = w' ->
  snd (getAppointments get petId w) = Returned response ->
  let given := match data response with Some l => l | None => [] end in
  exists upcoming,
    getUpcomingAppointments get Date_getTime now petId w
    = (w', Returned (mkList (Some upcoming) (Some (List.length upcoming)) None))
    /\ Permutation upcoming (filter (isUpcoming Date_getTime now) given)
    /\ StronglySorted (earlier Date_getTime) upcoming
    /\ Forall (fun a => status a <> cancelled /\ status a <> completed
                        /\ exists t, Date_getTime (dateTime a) = Some t
                                     /\ (now <= t)%Z) upcoming
    /\ (forall a, In a upcoming <-> In a given /\ isUpcoming Date_getTime now a = true).
Proof.
  intros Hw Hres given. unfold getUpcomingAppointments.
  destruct (getAppointments get petId w) as [w0 res]. cbn [fst snd] in *. subst w0 res.
  fold given. exists (sort Date_getTime (filter (isUpcoming Date_getTime now) given)).
  assert (Hperm := sort_perm (filter (isUpcoming Date_getTime now) given)).
  assert (Hall : Forall (fun a => status a <> cancelled /\ status a <> completed
                        /\ exists t, Date_getTime (dateTime a) = Some t
                                     /\ (now <= t)%Z)
                        (filter (isUpcoming Date_getTime now) given)).
  { apply Forall_forall. intros a Ha. apply filter_In in Ha.
    now apply isUpcoming_true. }
  split; [|split; [exact Hperm|split; [|split]]].
  - now rewrite (Permutation_length Hperm).
  - apply sort_sorted. apply Forall_forall. intros a Ha.
    rewrite Forall_forall in Hall. destruct (Hall a Ha) as (_ & _ & t & Ht & _).
    now exists t.
  - apply (Forall_perm _ (filter (isUpcoming Date_getTime now) given));
      [now symmetry|exact Hall].
  - intros a. rewrite <- filter_In. split; intros Ha.
    + apply (Permutation_in _ Hperm Ha).
    + apply (Permutation_in _ (Permutation_sym Hperm) Ha).
Qed.

(** X15.  When the request fails, [getAppointments] and
    [getUpcomingAppointments] both throw an [Error] whose message is
    the one the error handler gives for the original failure: the
    second wrapping does not change it.  Nothing else of the failure
    (its status, its code) is passed on. *)
Theorem request_failure_message_is_kept now petId w w' error :
  get APPOINTMENTS_ENDPOINT (if Axios.truthy petId then petId else None) w
  = (w', inr error) ->
  getAppointments get petId w
  = (w', ThrewError (ErrorHandler.message (ErrorHandler.errorHandler error)))
  /\ getUpcomingAppointments get Date_getTime now petId w
     = (w', ThrewError (ErrorHandler.message (ErrorHandler.errorHandler error))).
Proof.
  intros H.
  assert (E : getAppointments get petId w
              = (w', ThrewError (ErrorHandler.message (ErrorHandler.errorHandler error))))
    by (unfold getAppointments; now rewrite H).
  split; [exact E|]. unfold getUpcomingAppointments. now rewrite E.
Qed.

End Service.

Lemma upcoming_are_filtered_and_sorted_witness :
  exists upcoming,
    getUpcomingAppointments Scenario.listing Scenario.instants Scenario.midnight None tt
    = (tt, Returned (mkList (Some upcoming) (Some (List.length upcoming)) None))
    /\ Permutation upcoming
         (filter (isUpcoming Scenario.instants Scenario.midnight) Scenario.visits)
    /\ StronglySorted (earlier Scenario.instants) upcoming
    /\ Forall (fun a => status a <> cancelled /\ status a <> completed
                        /\ exists t, Scenario.instants (dateTime a) = Some t
                                     /\ (Scenario.midnight <= t)%Z) upcoming
    /\ (forall a, In a upcoming
                  <-> In a Scenario.visits
                      /\ isUpcoming Scenario.instants Scenario.midnight a = true).
Proof.
  apply (upcoming_are_filtered_and_sorted unit Scenario.listing Scenario.instants
           Scenario.midnight None tt tt
           (mkList (Some Scenario.visits) None None)); reflexivity.
Defined.

Lemma request_failure_message_is_kept_witness :
  getAppointments Scenario.timedOut (Some "42") tt
  = (tt, ThrewError "Request timeout. Please try again.")
  /\ getUpcomingAppointments Scenario.timedOut Scenario.instants Scenario.midnight
       (Some "42") tt
     = (tt, ThrewError "Request timeout. Please try again.").
Proof.
  apply (request_failure_message_is_kept unit Scenario.timedOut Scenario.instants
           Scenario.midnight (Some "42") tt tt
           (ErrorHandler.Axios (Some "ECONNABORTED") None)).
  reflexivity.
Defined.

End AppointmentsFacts.

(* ================================================================== *)
(** * Properties of the date helpers                                   *)
(* ================================================================== *)

Module DateUtilsFacts.
Import DateUtils.

Lemma unitMs_pos u : (0 < unitMs u)%Z.
Proof. destruct u; reflexivity. Qed.

Lemma roundHalfEven_cases x y :
  roundHalfEven x y = (x / y)%Z
  \/ (roundHalfEven x y = (x / y + 1)%Z /\ (y <= 2 * (x mod y))%Z).
Proof.
  unfold roundHalfEven.
  destruct (Z.ltb_spec (2 * (x mod y)) y); [now left|].
  destruct (Z.ltb_spec y (2 * (x mod y))); [right; split; [reflexivity|lia]|].
  destruct (Z.even (x / y)); [now left|right; split; [reflexivity|lia]].
Qed.

(** The binade found is not too high: [d * 2^b <= |n|]. *)
Lemma binade_lower n d :
  n <> 0%Z -> (0 < d)%Z ->
  let b := binade n d in
  (d * 2 ^ Z.max 0 b <= Z.abs n * 2 ^ Z.max 0 (- b))%Z.
Proof.
  intros Hn Hd. cbn zeta. unfold binade.
  set (a := Z.abs n). assert (Ha : (0 < a)%Z) by (unfold a; lia).
  set (l := (Z.log2 a - Z.log2 d)%Z).
  destruct (Z.ltb_spec (a * 2 ^ Z.max 0 (- l)) (d * 2 ^ Z.max 0 l)) as [Hlt|Hge];
    [|exact Hge].
  destruct (Z.log2_spec a Ha) as [Ha1 Ha2].
  destruct (Z.log2_spec d Hd) as [Hd1 Hd2].
  pose proof (Z.log2_nonneg a) as La. pose proof (Z.log2_nonneg d) as Ld.
  replace (Z.succ (Z.log2 d)) with (Z.log2 d + 1)%Z in Hd2 by lia.
  destruct (Z_le_gt_dec 1 l) as [Hl|Hl].
  - rewrite (Z.max_r 0 (l - 1)) by lia. rewrite (Z.max_l 0 (- (l - 1))) by lia.
    rewrite Z.mul_1_r.
    assert (E : (2 ^ Z.log2 a = 2 ^ (Z.log2 d + 1) * 2 ^ (l - 1))%Z).
    { rewrite <- Z.pow_add_r by lia. f_equal. unfold l. lia. }
    assert (0 < 2 ^ (l - 1))%Z by (apply Z.pow_pos_nonneg; lia).
    nia.
  - rewrite (Z.max_l 0 (l - 1)) by lia. rewrite (Z.max_r 0 (- (l - 1))) by lia.
    rewrite Z.mul_1_r.
    assert (E : (2 ^ (Z.log2 d + 1) = 2 ^ Z.log2 a * 2 ^ (- (l - 1)))%Z).
    { rewrite <- Z.pow_add_r by lia. f_equal. unfold l. lia. }
    assert (0 < 2 ^ (- (l - 1)))%Z by (apply Z.pow_pos_nonneg; lia).
    nia.
Qed.

(** Below [2^53] the quotient rounded to a double has the floor of
    the exact quotient: the rounding error is too small to reach the
    next integer. *)
Lemma floorDiv_exact x u :
  (Z.abs x < 2 ^ 53)%Z -> (2 <= u)%Z -> floorDiv x u = (x / u)%Z.
Proof.
  intros Hx Hu. unfold floorDiv.
  destruct (Z.eqb_spec x 0) as [->|Hx0]; [now rewrite Z.div_0_l by lia|].
  pose proof (binade_lower x u Hx0 ltac:(lia)) as Hb. cbn zeta in Hb.
  set (b := binade x u) in *. set (a := Z.abs x) in *.
  assert (Hb52 : (b < 52)%Z).
  { destruct (Z_lt_ge_dec b 52) as [H|H]; [exact H|exfalso].
    rewrite (Z.max_r 0 b), (Z.max_l 0 (- b)), Z.mul_1_r in Hb by lia.
    assert (2 ^ 52 <= 2 ^ b)%Z by (apply Z.pow_le_mono_r; lia).
    nia. }
  destruct (Z.leb_spec 0 (b - 52)) as [H|_]; [lia|].
  set (k := (- (b - 52))%Z). assert (Hk : (0 < k)%Z) by (unfold k; lia).
  set (s := (2 ^ k)%Z). assert (Hs : (0 < s)%Z) by (apply Z.pow_pos_nonneg; lia).
  assert (Hlow : (u * 2 ^ 52 <= a * s)%Z).
  { unfold s, k. destruct (Z_le_gt_dec 0 b) as [Hb0|Hb0].
    - rewrite (Z.max_r 0 b), (Z.max_l 0 (- b)), Z.mul_1_r in Hb by lia.
      assert (E : (2 ^ 52 = 2 ^ b * 2 ^ (- (b - 52)))%Z).
      { rewrite <- Z.pow_add_r by lia. f_equal. lia. }
      assert (0 < 2 ^ (- (b - 52)))%Z by (apply Z.pow_pos_nonneg; lia).
      rewrite E. nia.
    - rewrite (Z.max_l 0 b), (Z.max_r 0 (- b)), Z.mul_1_r in Hb by lia.
      assert (E : (2 ^ (- (b - 52)) = 2 ^ (- b) * 2 ^ 52)%Z).
      { rewrite <- Z.pow_add_r by lia. f_equal. lia. }
      rewrite E. nia. }
  assert (Hus : (u < 2 * s)%Z) by nia.
  pose proof (Z.div_mod x u ltac:(lia)) as Hdm.
  pose proof (Z.mod_pos_bound x u ltac:(lia)) as Hr.
  set (q := (x / u)%Z) in *. set (r := (x mod u)%Z) in *.
  pose proof (Z.div_mod (x * s) u ltac:(lia)) as Hdm'.
  pose proof (Z.mod_pos_bound (x * s) u ltac:(lia)) as Hr'.
  assert (Hm : exists t, roundHalfEven (x * s) u = (q * s + t)%Z /\ (0 <= t < s)%Z).
  { destruct (roundHalfEven_cases (x * s) u) as [E|[E Ht]]; rewrite E;
      set (q' := (x * s / u)%Z) in *; set (r' := ((x * s) mod u)%Z) in *;
      exists (q' + (roundHalfEven (x * s) u - q') - q * s)%Z; rewrite E.
    - split; [lia|]. nia.
    - split; [lia|]. nia. }
  destruct Hm as (t & -> & Ht).
  symmetry. apply (Z.div_unique_pos _ _ q t); lia.
Qed.

Lemma roundHalfEven_double x y :
  (0 < y)%Z -> roundHalfEven (2 * x) (2 * y) = roundHalfEven x y.
Proof.
  intros Hy. unfold roundHalfEven.
  rewrite Z.div_mul_cancel_l by lia. rewrite Z.mul_mod_distr_l by lia.
  repeat match goal with
         | |- context [(?a <? ?b)%Z] => destruct (Z.ltb_spec a b)
         end; try lia; reflexivity.
Qed.

Lemma binade_double x u :
  x <> 0%Z -> (0 < u)%Z -> binade (2 * x) (2 * u) = binade x u.
Proof.
  intros Hx Hu. unfold binade.
  replace (Z.abs (2 * x)) with (2 * Z.abs x)%Z by lia.
  rewrite !Z.log2_double by lia.
  replace (Z.succ (Z.log2 (Z.abs x)) - Z.succ (Z.log2 u))%Z
    with (Z.log2 (Z.abs x) - Z.log2 u)%Z by lia.
  set (l := (Z.log2 (Z.abs x) - Z.log2 u)%Z).
  destruct (Z.ltb_spec (2 * Z.abs x * 2 ^ Z.max 0 (- l)) (2 * u * 2 ^ Z.max 0 l));
    destruct (Z.ltb_spec (Z.abs x * 2 ^ Z.max 0 (- l)) (u * 2 ^ Z.max 0 l));
    try reflexivity; lia.
Qed.

(** Doubling both operands leaves the quotient as it is. *)
Lemma floorDiv_double x u :
  (0 < u)%Z -> floorDiv (2 * x) (2 * u) = floorDiv x u.
Proof.
  intros Hu. unfold floorDiv.
  destruct (Z.eqb_spec x 0) as [->|Hx]; [reflexivity|].
  destruct (Z.eqb_spec (2 * x) 0); [lia|].
  rewrite binade_double by assumption.
  set (e := (binade x u - 52)%Z).
  destruct (Z.leb_spec 0 e).
  - rewrite <- Z.mul_assoc, roundHalfEven_double; [reflexivity|].
    assert (0 < 2 ^ e)%Z by (apply Z.pow_pos_nonneg; lia). nia.
  - rewrite <- Z.mul_assoc, roundHalfEven_double by lia. reflexivity.
Qed.

(** The difference as a double: exact below [2^53], and from there
    to [2^54] an even integer at most 1 away. *)
Lemma round53_near d :
  (Z.abs d < 2 ^ 54)%Z ->
  (Z.abs (round53 d - d) <= 1)%Z
  /\ ((Z.abs d < 2 ^ 53)%Z -> round53 d = d)
  /\ ((2 ^ 53 <= Z.abs d)%Z -> exists m, round53 d = (2 * m)%Z).
Proof.
  intros Hd. unfold round53.
  destruct (Z.ltb_spec (Z.abs d) (2 ^ 53)) as [H|H].
  - split; [lia|]. split; [reflexivity|]. lia.
  - assert (E : Z.log2 (Z.abs d) = 53%Z).
    { apply Z.log2_unique; [lia|]. split; [exact H|exact Hd]. }
    rewrite E. change (53 - 52)%Z with 1%Z. change (2 ^ 1)%Z with 2%Z.
    destruct (roundHalfEven_cases d 2) as [Er|[Er Hr]]; rewrite Er;
      pose proof (Z.div_mod d 2 ltac:(lia));
      pose proof (Z.mod_pos_bound d 2 ltac:(lia)).
    + split; [lia|]. split; [lia|]. intros _. exists (d / 2)%Z. lia.
    + split; [lia|]. split; [lia|]. intros _. exists (d / 2 + 1)%Z. lia.
Qed.

(** Between two valid dates the quotient is never rounded across an
    integer: the result is the floor of the difference, as a double,
    over the unit. *)
Lemma floorDiv_minus s e unit :
  (Z.abs s <= 8640000000000000)%Z ->
  (Z.abs e <= 8640000000000000)%Z ->
  floorDiv (minus e s) (unitMs unit) = (minus e s / unitMs unit)%Z.
Proof.
  intros Hs He. unfold minus.
  assert (Hd : (Z.abs (e - s) < 2 ^ 54)%Z) by (change (2 ^ 54)%Z with 18014398509481984%Z; lia).
  destruct (round53_near (e - s) Hd) as (Hnear & Hexact & Heven).
  destruct (Z_lt_ge_dec (Z.abs (e - s)) (2 ^ 53)) as [H|H].
  - rewrite (Hexact H). apply floorDiv_exact; [exact H|destruct unit; cbn; lia].
  - destruct Heven as (m & Em); [lia|]. rewrite Em in *.
    assert (Hm : (Z.abs m < 2 ^ 53)%Z)
      by (change (2 ^ 53)%Z with 9007199254740992%Z; lia).
    assert (Hu : exists u, unitMs unit = (2 * u)%Z /\ (2 <= u)%Z).
    { destruct unit; [exists 43200000%Z|exists 1800000%Z|exists 30000%Z|exists 500%Z];
        split; (reflexivity || lia). }
    destruct Hu as (u & -> & Hu).
    rewrite floorDiv_double by lia. rewrite floorDiv_exact by assumption.
    now rewrite Z.div_mul_cancel_l by lia.
Qed.

Section WithParser.
Variable Date_parse : string -> Date.

(** X16.  [getDateDifference] throws exactly when one of the two
    dates is invalid.  For two valid dates it returns the number [n]
    of whole units in their difference as the code has it, a double:
    [n * unit <= diffMs < (n + 1) * unit], rounding down also when
    the end is before the start.  That difference is the exact one
    when the dates are less than [2^53] milliseconds apart (some
    285,000 years) and at most 1 away from it otherwise.  In the
    exact range the units agree with each other: the days are the
    hours over 24 rounded down, the hours the minutes over 60, the
    minutes the seconds over 60.  Outside it the result can be off:
    from the earliest valid date to one millisecond before the latest
    it returns 17280000000000 seconds, one more than the whole
    seconds that lie between them. *)
Theorem getDateDifference_counts_whole_units start end_ unit :
  (getDateDifference Date_parse start end_ unit = None
   <-> toDate Date_parse start = None \/ toDate Date_parse end_ = None)
  /\ (forall s e,
         toDate Date_parse start = Some s -> toDate Date_parse end_ = Some e ->
         (Z.abs (e - s) < 2 ^ 53)%Z ->
         (exists n,
             getDateDifference Date_parse start end_ unit = Some n
             /\ (n * unitMs unit <= e - s < (n + 1) * unitMs unit)%Z)
         /\ getDateDifference Date_parse start end_ days
            = option_map (fun h => (h / 24)%Z)
                (getDateDifference Date_parse start end_ hours)
         /\ getDateDifference Date_parse start end_ hours
            = option_map (fun m => (m / 60)%Z)
                (getDateDifference Date_parse start end_ minutes)
         /\ getDateDifference Date_parse start end_ minutes
            = option_map (fun m => (m / 60)%Z)
                (getDateDifference Date_parse start end_ seconds))
  /\ (forall s e,
         toDate Date_parse start = Some s -> toDate Date_parse end_ = Some e ->
         (Z.abs s <= 8640000000000000)%Z -> (Z.abs e <= 8640000000000000)%Z ->
         let diffMs := minus e s in
         (Z.abs (diffMs - (e - s)) <= 1)%Z
         /\ exists n,
             getDateDifference Date_parse start end_ unit = Some n
             /\ (n * unitMs unit <= diffMs < (n + 1) * unitMs unit)%Z)
  /\ (toDate Date_parse start = Some (-8640000000000000)%Z ->
      toDate Date_parse end_ = Some 8639999999999999%Z ->
      getDateDifference Date_parse start end_ seconds = Some 17280000000000%Z
      /\ ((8639999999999999 - -8640000000000000) / 1000 = 17279999999999)%Z).
Proof.
  split.
  { unfold getDateDifference.
    destruct (toDate Date_parse start) as [s|], (toDate Date_parse end_) as [e|];
      (split; [try discriminate; auto|]); try reflexivity.
    intros [H|H]; discriminate H. }
  split; [|split].
  2: { intros s e Hs He Hvs Hve diffMs.
       assert (Hd : (Z.abs (e - s) < 2 ^ 54)%Z)
         by (change (2 ^ 54)%Z with 18014398509481984%Z; lia).
       split; [apply (round53_near (e - s) Hd)|].
       unfold getDateDifference. rewrite Hs, He.
       rewrite (floorDiv_minus s e unit Hvs Hve). fold diffMs.
       eexists. split; [reflexivity|].
       pose proof (unitMs_pos unit) as Hpos.
       pose proof (Z.mul_div_le diffMs (unitMs unit) Hpos).
       pose proof (Z.mul_succ_div_gt diffMs (unitMs unit) Hpos).
       nia. }
  - intros s e Hs He Hclose.
    assert (Hget : forall u, getDateDifference Date_parse start end_ u
                             = Some ((e - s) / unitMs u)%Z).
    { intros u. unfold getDateDifference, minus, round53. rewrite Hs, He.
      destruct (Z.ltb_spec (Z.abs (e - s)) (2 ^ 53)) as [_|H]; [|lia].
      rewrite floorDiv_exact; [reflexivity|exact Hclose|destruct u; cbn; lia]. }
    rewrite !Hget. cbn [option_map]. split.
    + eexists. split; [reflexivity|].
      pose proof (unitMs_pos unit) as Hpos.
      pose proof (Z.mul_div_le (e - s) (unitMs unit) Hpos).
      pose proof (Z.mul_succ_div_gt (e - s) (unitMs unit) Hpos).
      nia.
    + repeat split; f_equal; cbn [unitMs];
        rewrite Z.div_div by lia; reflexivity.
  - intros Hs He. unfold getDateDifference. rewrite Hs, He.
    split; vm_compute; reflexivity.
Qed.


End WithParser.

Lemma getDateDifference_counts_whole_units_witness :
  exists n,
    getDateDifference Scenario.instants
      (AString "2024-05-03T09:30:00Z") (AString "2024-05-01T10:00:00Z") days = Some n
    /\ (n * unitMs days <= 1714557600000 - 1714728600000 < (n + 1) * unitMs days)%Z.
Proof.
  apply (proj1 (proj1 (proj2 (getDateDifference_counts_whole_units Scenario.instants
                         (AString "2024-05-03T09:30:00Z")
                         (AString "2024-05-01T10:00:00Z") days))
                 1714728600000%Z 1714557600000%Z eq_refl eq_refl eq_refl)).
Defined.


End DateUtilsFacts.

(* ================================================================== *)
(** * Properties of the validators                                     *)
(* ================================================================== *)

Module ValidatorsFacts.
Import Validators.

(** ** The matcher decides the patterns *)

Lemma Matches_nil_inv r s : Matches r s -> s = [] -> nullable r = true.
Proof.
  induction 1 as [|p c Hc|r1 r2 s1 s2 _ IH1 _ IH2|r1 r2 s _ IH|r1 r2 s _ IH|r|r s1 s2 _ _ _ _];
    intros E; cbn [nullable]; try reflexivity.
  - discriminate.
  - apply app_eq_nil in E. destruct E as [-> ->]. now rewrite IH1, IH2.
  - now rewrite IH.
  - rewrite (IH E). apply orb_true_r.
Qed.

Lemma nullable_Matches r : nullable r = true -> Matches r [].
Proof.
  induction r as [|p|r1 IH1 r2 IH2|r1 IH1 r2 IH2|r IH]; cbn [nullable]; intros H.
  - constructor.
  - discriminate.
  - apply andb_prop in H. destruct H as [H1 H2].
    change (Matches (Cat r1 r2) ([] ++ [])). constructor; auto.
  - apply orb_prop in H. destruct H; [apply MAltL|apply MAltR]; auto.
  - constructor.
Qed.

Lemma Matches_Void s : ~ Matches Void s.
Proof. unfold Void. intros H. inversion H. discriminate. Qed.

Lemma Matches_star_cons r c s :
  Matches (Star r) (c :: s) ->
  exists s1 s2, s = s1 ++ s2 /\ Matches r (c :: s1) /\ Matches (Star r) s2.
Proof.
  intros H. remember (Star r) as r' eqn:Er. remember (c :: s) as s' eqn:Es.
  revert s Es.
  induction H as [| | | | | |r0 s1 s2 H1 _ H2 IH2]; try discriminate; intros s Es.
  injection Er as ->.
  destruct s1 as [|c1 s1].
  - cbn in Es. now apply IH2.
  - cbn in Es. injection Es as -> <-. now exists s1, s2.
Qed.

Lemma Matches_Cat_inv r1 r2 s :
  Matches (Cat r1 r2) s ->
  exists s1 s2, s = s1 ++ s2 /\ Matches r1 s1 /\ Matches r2 s2.
Proof. intros H. inversion H; subst. now eexists; eexists. Qed.

Lemma Matches_Alt_inv r1 r2 s :
  Matches (Alt r1 r2) s -> Matches r1 s \/ Matches r2 s.
Proof. intros H. inversion H; subst; auto. Qed.

Lemma Matches_Class_inv p s :
  Matches (Class p) s -> exists c, s = [c] /\ p c = true.
Proof. intros H. inversion H; subst. now eexists. Qed.

Lemma Matches_Eps_inv s : Matches Eps s -> s = [].
Proof. intros H. now inversion H. Qed.

Lemma deriv_spec c r : forall s, Matches (deriv c r) s <-> Matches r (c :: s).
Proof.
  induction r as [|p|r1 IH1 r2 IH2|r1 IH1 r2 IH2|r IH]; intros s; cbn [deriv].
  - split; intros H; [now apply Matches_Void in H|].
    apply Matches_Eps_inv in H. discriminate.
  - destruct (p c) eqn:Ep; split; intros H.
    + apply Matches_Eps_inv in H. subst. now constructor.
    + apply Matches_Class_inv in H. destruct H as (c0 & E & _).
      injection E as -> ->. constructor.
    + now apply Matches_Void in H.
    + apply Matches_Class_inv in H. destruct H as (c0 & E & Hp).
      injection E as -> ->. congruence.
  - assert (Hleft : Matches (Cat (deriv c r1) r2) s -> Matches (Cat r1 r2) (c :: s)).
    { intros H. apply Matches_Cat_inv in H. destruct H as (s1 & s2 & -> & H1 & H2).
      change (Matches (Cat r1 r2) ((c :: s1) ++ s2)). constructor; [|exact H2].
      now apply IH1. }
    assert (Hright : Matches (Cat r1 r2) (c :: s) ->
                     Matches (Cat (deriv c r1) r2) s
                     \/ (Matches r1 [] /\ Matches (deriv c r2) s)).
    { intros H. apply Matches_Cat_inv in H. destruct H as (s1 & s2 & E & H1 & H2).
      destruct s1 as [|c1 s1]; cbn in E.
      - subst s2. right. split; [exact H1|now apply IH2].
      - injection E as <- ->. left. constructor; [now apply IH1|exact H2]. }
    destruct (nullable r1) eqn:En; split; intros H.
    + apply Matches_Alt_inv in H. destruct H as [H|H]; [now apply Hleft|].
      change (Matches (Cat r1 r2) ([] ++ c :: s)).
      constructor; [now apply nullable_Matches|now apply IH2].
    + destruct (Hright H) as [H'|[_ H']]; [now apply MAltL|now apply MAltR].
    + now apply Hleft.
    + destruct (Hright H) as [H'|[H' _]]; [exact H'|].
      rewrite (Matches_nil_inv _ _ H' eq_refl) in En. discriminate.
  - split; intros H; apply Matches_Alt_inv in H; destruct H as [H|H];
      [apply MAltL; now apply IH1|apply MAltR; now apply IH2
       |apply MAltL; now apply IH1|apply MAltR; now apply IH2].
  - split; intros H.
    + apply Matches_Cat_inv in H. destruct H as (s1 & s2 & -> & H1 & H2).
      change (Matches (Star r) ((c :: s1) ++ s2)). constructor; [now apply IH|exact H2].
    + apply Matches_star_cons in H. destruct H as (s1 & s2 & -> & H1 & H2).
      constructor; [now apply IH|exact H2].
Qed.

(** The matcher returns [true] on exactly the strings the pattern
    matches. *)
Lemma test_spec s : forall r, test r s = true <-> Matches r s.
Proof.
  induction s as [|c s IH]; intros r; cbn [test].
  - split; [apply nullable_Matches|intros H; now apply (Matches_nil_inv r [])].
  - rewrite IH. apply deriv_spec.
Qed.

(** ** Patterns over one class *)

Lemma Matches_star_class p s :
  Matches (Star (Class p)) s <-> forallb p s = true.
Proof.
  split.
  - intros H. remember (Star (Class p)) as r eqn:Er.
    induction H as [| | | | | |r0 s1 s2 H1 _ _ IH2]; try discriminate; [reflexivity|].
    injection Er as ->. apply Matches_Class_inv in H1. destruct H1 as (c & -> & Hc).
    cbn. rewrite Hc. now apply IH2.
  - induction s as [|c s IH]; cbn [forallb]; intros H; [constructor|].
    apply andb_prop in H. destruct H as [Hc Hs].
    change (Matches (Star (Class p)) ([c] ++ s)).
    constructor; [now constructor|now apply IH].
Qed.

Lemma Matches_power_class p n :
  forall s, Matches (power n (Class p)) s
            <-> List.length s = n /\ forallb p s = true.
Proof.
  induction n as [|n IH]; intros s; cbn [power].
  - split.
    + intros H. apply Matches_Eps_inv in H. now subst.
    + intros [H _]. destruct s; [constructor|discriminate].
  - split.
    + intros H. apply Matches_Cat_inv in H. destruct H as (s1 & s2 & -> & H1 & H2).
      apply Matches_Class_inv in H1. destruct H1 as (c & -> & Hc).
      apply IH in H2. destruct H2 as [Hl Hf]. cbn. now rewrite Hc, Hl.
    + intros [Hl Hf]. destruct s as [|c s]; [discriminate|].
      cbn in Hl, Hf. apply andb_prop in Hf. destruct Hf as [Hc Hs].
      change (Matches (Cat (Class p) (power n (Class p))) ([c] ++ s)).
      constructor; [now constructor|]. apply IH. split; [lia|exact Hs].
Qed.

Lemma Matches_upto_class p n :
  forall s, Matches (upto n (Class p)) s
            <-> List.length s <= n /\ forallb p s = true.
Proof.
  induction n as [|n IH]; intros s; cbn [upto].
  - split.
    + intros H. apply Matches_Eps_inv in H. subst. split; [reflexivity|reflexivity].
    + intros [H _]. destruct s; [constructor|cbn in H; lia].
  - split.
    + intros H. apply Matches_Alt_inv in H. destruct H as [H|H].
      * apply Matches_Eps_inv in H. subst. split; [cbn; lia|reflexivity].
      * apply Matches_Cat_inv in H. destruct H as (s1 & s2 & -> & H1 & H2).
        apply Matches_Class_inv in H1. destruct H1 as (c & -> & Hc).
        apply IH in H2. destruct H2 as [Hl Hf]. cbn. rewrite Hc.
        split; [lia|exact Hf].
    + intros [Hl Hf]. destruct s as [|c s]; [apply MAltL; constructor|].
      cbn in Hl, Hf. apply andb_prop in Hf. destruct Hf as [Hc Hs].
      apply MAltR. change (Matches (Cat (Class p) (upto n (Class p))) ([c] ++ s)).
      constructor; [now constructor|]. apply IH. split; [lia|exact Hs].
Qed.

Lemma Matches_plus_class p s :
  Matches (Plus (Class p)) s <-> s <> [] /\ forallb p s = true.
Proof.
  unfold Plus. split.
  - intros H. apply Matches_Cat_inv in H. destruct H as (s1 & s2 & -> & H1 & H2).
    apply Matches_Class_inv in H1. destruct H1 as (c & -> & Hc).
    apply Matches_star_class in H2. cbn. rewrite Hc. split; [discriminate|exact H2].
  - intros [Hne Hf]. destruct s as [|c s]; [now elim Hne|].
    cbn in Hf. apply andb_prop in Hf. destruct Hf as [Hc Hs].
    change (Matches (Cat (Class p) (Star (Class p))) ([c] ++ s)).
    constructor; [now constructor|now apply Matches_star_class].
Qed.

Lemma forallb_split {A} (p : A -> bool) n l :
  forallb p l = true -> forallb p (firstn n l) = true /\ forallb p (skipn n l) = true.
Proof.
  intros H. rewrite <- (firstn_skipn n l), forallb_app in H. now apply andb_prop in H.
Qed.

Lemma Matches_atLeast_class p m s :
  Matches (atLeast m (Class p)) s <-> m <= List.length s /\ forallb p s = true.
Proof.
  unfold atLeast. split.
  - intros H. apply Matches_Cat_inv in H. destruct H as (s1 & s2 & -> & H1 & H2).
    apply Matches_power_class in H1. destruct H1 as [Hl Hf].
    apply Matches_star_class in H2. rewrite length_app, forallb_app, Hf, H2.
    split; [lia|reflexivity].
  - intros [Hl Hf]. rewrite <- (firstn_skipn m s).
    destruct (forallb_split p m s Hf) as [H1 H2].
    constructor; [|now apply Matches_star_class].
    apply Matches_power_class. split; [|exact H1]. rewrite length_firstn. lia.
Qed.

Lemma Matches_between_class p m n s :
  m <= n ->
  Matches (between m n (Class p)) s
  <-> m <= List.length s <= n /\ forallb p s = true.
Proof.
  intros Hmn. unfold between. split.
  - intros H. apply Matches_Cat_inv in H. destruct H as (s1 & s2 & -> & H1 & H2).
    apply Matches_power_class in H1. destruct H1 as [Hl Hf].
    apply Matches_upto_class in H2. destruct H2 as [Hl2 Hf2].
    rewrite length_app, forallb_app, Hf, Hf2. split; [lia|reflexivity].
  - intros [Hl Hf]. rewrite <- (firstn_skipn m s).
    destruct (forallb_split p m s Hf) as [H1 H2].
    constructor.
    + apply Matches_power_class. split; [|exact H1]. rewrite length_firstn. lia.
    + apply Matches_upto_class. split; [|exact H2]. rewrite length_skipn. lia.
Qed.

Lemma Matches_chr a s : Matches (Class (chr a)) s <-> s = [N_of_ascii a].
Proof.
  split.
  - intros H. apply Matches_Class_inv in H. destruct H as (c & -> & Hc).
    unfold chr in Hc. apply N.eqb_eq in Hc. now subst.
  - intros ->. constructor. unfold chr. apply N.eqb_refl.
Qed.

(** What [EMAIL_REGEX] matches. *)
Lemma EMAIL_REGEX_spec s :
  test EMAIL_REGEX s = true
  <-> exists a b c,
      s = a ++ js "@" ++ b ++ js "." ++ c
      /\ a <> [] /\ b <> [] /\ 2 <= List.length c
      /\ forallb notSpaceNorAt a = true
      /\ forallb notSpaceNorAt b = true
      /\ forallb notSpaceNorAt c = true.
Proof.
  rewrite test_spec. unfold EMAIL_REGEX. split.
  - intros H.
    apply Matches_Cat_inv in H. destruct H as (a & s1 & -> & Ha & H).
    apply Matches_Cat_inv in H. destruct H as (at_ & s2 & -> & Hat & H).
    apply Matches_Cat_inv in H. destruct H as (b & s3 & -> & Hb & H).
    apply Matches_Cat_inv in H. destruct H as (dot & c & -> & Hdot & Hc).
    apply Matches_plus_class in Ha, Hb. apply Matches_chr in Hat, Hdot.
    apply Matches_atLeast_class in Hc. subst at_ dot.
    exists a, b, c. repeat split; tauto.
  - intros (a & b & c & -> & Ha & Hb & Hc & Fa & Fb & Fc).
    constructor; [now apply Matches_plus_class|].
    constructor; [now apply Matches_chr|].
    constructor; [now apply Matches_plus_class|].
    constructor; [now apply Matches_chr|].
    now apply Matches_atLeast_class.
Qed.

(** What [PHONE_REGEX] matches. *)
Lemma PHONE_REGEX_spec s :
  test PHONE_REGEX s = true
  <-> exists sign d ds,
      s = sign ++ d :: ds
      /\ (sign = [] \/ sign = js "+")
      /\ digit19 d = true
      /\ forallb digit ds = true
      /\ 6 <= List.length ds <= 14.
Proof.
  rewrite test_spec. unfold PHONE_REGEX. split.
  - intros H.
    apply Matches_Cat_inv in H. destruct H as (sign & s1 & -> & Hs & H).
    apply Matches_Cat_inv in H. destruct H as (d1 & ds & -> & Hd & Hds).
    apply Matches_Class_inv in Hd. destruct Hd as (d & -> & Hd).
    apply Matches_between_class in Hds; [|lia].
    exists sign, d, ds. split; [reflexivity|]. split; [|tauto].
    unfold Opt in Hs. apply Matches_Alt_inv in Hs. destruct Hs as [Hs|Hs].
    + left. now apply Matches_Eps_inv.
    + right. now apply Matches_chr.
  - intros (sign & d & ds & -> & Hs & Hd & Hf & Hl).
    constructor.
    + destruct Hs as [->| ->]; [apply MAltL; constructor|apply MAltR; now apply Matches_chr].
    + change (Matches (Cat (Class digit19) (between 6 14 (Class digit))) ([d] ++ ds)).
      constructor; [now constructor|]. apply Matches_between_class; [lia|tauto].
Qed.

(** ** Trimming *)

Lemma trimStart_head s :
  match trimStart s with
  | [] => True
  | c :: _ => isSpace c = false
  end.
Proof.
  induction s as [|c s IH]; cbn [trimStart]; [exact I|].
  destruct (isSpace c) eqn:E; [exact IH|exact E].
Qed.

Lemma trimStart_fixed s :
  match s with
  | [] => True
  | c :: _ => isSpace c = false
  end -> trimStart s = s.
Proof. destruct s as [|c s]; [reflexivity|]. cbn [trimStart]. now intros ->. Qed.

Lemma trimStart_snoc l c :
  isSpace c = false -> exists u, trimStart (l ++ [c]) = u ++ [c].
Proof.
  intros Hc. induction l as [|x l IH]; cbn [app trimStart].
  - rewrite Hc. now exists [].
  - destruct (isSpace x); [exact IH|]. now exists (x :: l).
Qed.

(** Trimming twice is trimming once. *)
Lemma trim_trim s : trim (trim s) = trim s.
Proof.
  unfold trim.
  pose proof (trimStart_head s) as Hh.
  set (t := trimStart s) in *.
  assert (E1 : trimStart (rev (trimStart (rev t))) = rev (trimStart (rev t))).
  { apply trimStart_fixed. destruct t as [|c t']; [exact I|].
    cbn [rev]. destruct (trimStart_snoc (rev t') c Hh) as (u & ->).
    rewrite rev_app_distr. exact Hh. }
  rewrite E1, rev_involutive.
  rewrite (trimStart_fixed (trimStart (rev t))); [reflexivity|apply trimStart_head].
Qed.

Lemma normalizeValue_normalized value :
  normalizeValue (Some (normalizeValue value)) = normalizeValue value.
Proof. destruct value as [s|]; cbn; [apply trim_trim|reflexivity]. Qed.

(** ** The validators *)

Lemma validateRules_spec value rules fieldName :
  let n := normalizeValue value in
  isValid (validateRules n rules fieldName) = true
  <-> (forall m, minLength rules = Some m -> (m <= Z.of_nat (List.length n))%Z)
      /\ (forall m, maxLength rules = Some m -> (Z.of_nat (List.length n) <= m)%Z)
      /\ (forall p, pattern rules = Some p -> p n = true)
      /\ (forall f, customValidator rules = Some f -> isValid (f n) = true).
Proof.
  cbn zeta. unfold validateRules, validateMinLength, validateMaxLength, validatePattern.
  rewrite !normalizeValue_normalized.
  set (n := normalizeValue value).
  destruct rules as [req mn mx pat pmsg cust]. cbn [minLength maxLength pattern
    patternMessage customValidator].
  destruct mn as [m1|]; [destruct (Z.ltb_spec (Z.of_nat (List.length n)) m1)|];
    cbn [isValid valid invalid negb];
    try (split; [discriminate|intros (H1 & _); specialize (H1 _ eq_refl); lia]).
  all: destruct mx as [m2|]; [destruct (Z.gtb_spec (Z.of_nat (List.length n)) m2)|];
    cbn [isValid valid invalid negb];
    try (split; [discriminate|intros (_ & H2 & _); specialize (H2 _ eq_refl); lia]).
  all: destruct pat as [p|]; [destruct (p n) eqn:Ep|];
    cbn [isValid valid invalid negb];
    try (split; [discriminate
                |intros (_ & _ & H3 & _); specialize (H3 _ eq_refl); congruence]).
  all: destruct cust as [f|]; [destruct (isValid (f n)) eqn:Ef|];
    cbn [isValid valid invalid negb]; try rewrite Ef;
    try (split; [discriminate
                |intros (_ & _ & _ & H4); specialize (H4 _ eq_refl); congruence]).
  all: split; [intros _|reflexivity];
    repeat split; intros ? E; try discriminate E; injection E as <-;
    (lia || assumption).
Qed.

(** X18.  [validateField] accepts a value exactly when, after
    trimming, either it is empty and the field is not required, or it
    is not empty and meets every rule that is present: the minimum
    and the maximum length, the pattern and the custom validator.  An
    empty value for a required field is refused with the message
    "<fieldName> is required.". *)
Theorem validateField_accepts_what_meets_the_rules value rules fieldName :
  let n := normalizeValue value in
  (isValid (validateField value rules fieldName) = true
   <-> (n = [] /\ required rules = false)
       \/ (n <> []
           /\ (forall m, minLength rules = Some m -> (m <= Z.of_nat (List.length n))%Z)
           /\ (forall m, maxLength rules = Some m -> (Z.of_nat (List.length n) <= m)%Z)
           /\ (forall p, pattern rules = Some p -> p n = true)
           /\ (forall f, customValidator rules = Some f -> isValid (f n) = true)))
  /\ (n = [] -> required rules = true ->
      validateField value rules fieldName = invalid (fieldName ++ js " is required.")).
Proof.
  cbn zeta. pose proof (validateRules_spec value rules fieldName) as Hrules.
  cbn zeta in Hrules. unfold validateField, validateRequired.
  destruct (normalizeValue value) as [|c n] eqn:En.
  - destruct (required rules); cbn [isValid valid invalid negb].
    + split; [|reflexivity].
      split; [discriminate|intros [[_ H]|[H _]]; [discriminate|now elim H]].
    + split; [|discriminate]. split; [now left|reflexivity].
  - assert (Hgo : isValid (validateRules (c :: n) rules fieldName) = true
                  <-> ([] = c :: n /\ required rules = false) \/
                      (c :: n <> [] /\
                       (forall m, minLength rules = Some m ->
                                  (m <= Z.of_nat (List.length (c :: n)))%Z) /\
                       (forall m, maxLength rules = Some m ->
                                  (Z.of_nat (List.length (c :: n)) <= m)%Z) /\
                       (forall p, pattern rules = Some p -> p (c :: n) = true) /\
                       (forall f, customValidator rules = Some f ->
                                  isValid (f (c :: n)) = true))).
    { rewrite Hrules. split.
      - intros H. right. split; [discriminate|exact H].
      - intros [[H _]|[_ H]]; [discriminate|exact H]. }
    split; [|discriminate].
    destruct (required rules); cbn [isValid valid invalid negb];
      (split; [intros H; apply Hgo in H; destruct H as [[H _]|H];
               [discriminate|now right]
              |intros [[H _]|H]; [discriminate|apply Hgo; now right]]).
Qed.

Lemma validateField_accepts_what_meets_the_rules_witness :
  isValid (validateField (Some (js "  ")) (mkRule false (Some 3%Z) None None None None)
             (js "Nickname")) = true
  /\ validateField None (mkRule true None None None None None) (js "Name")
     = invalid (js "Name is required.").
Proof.
  split.
  - apply (proj1 (validateField_accepts_what_meets_the_rules
                    (Some (js "  ")) (mkRule false (Some 3%Z) None None None None)
                    (js "Nickname"))).
    left. split; reflexivity.
  - apply (proj2 (validateField_accepts_what_meets_the_rules
                    None (mkRule true None None None None None) (js "Name")));
      reflexivity.
Defined.

(** X19.  [validatePasswordStrength] accepts a password exactly when,
    after trimming, it is not empty, its length in code units lies
    between the minimum and the maximum (8 and 128 unless given), and
    it has a character of each class that is asked for (all four
    unless switched off): an upper-case letter A-Z, a lower-case
    letter a-z, a digit, and a character that is none of these. *)
Theorem validatePasswordStrength_accepts password options :
  let value := normalizeValue password in
  isValid (validatePasswordStrength password options) = true
  <-> value <> []
      /\ (default (pw_minLength options) 8 <= Z.of_nat (List.length value))%Z
      /\ (Z.of_nat (List.length value) <= default (pw_maxLength options) 128)%Z
      /\ (default (requireUppercase options) true = true -> existsb upper value = true)
      /\ (default (requireLowercase options) true = true -> existsb lower value = true)
      /\ (default (requireNumber options) true = true -> existsb digit value = true)
      /\ (default (requireSpecial options) true = true -> existsb special value = true).
Proof.
  cbn zeta. unfold validatePasswordStrength.
  destruct (normalizeValue password) as [|c v] eqn:En.
  - cbn. split; [discriminate|intros (H & _); now elim H].
  - set (value := c :: v).
    destruct (Z.ltb_spec (Z.of_nat (List.length value))
                (default (pw_minLength options) 8%Z));
      [cbn [isValid invalid]; split; [discriminate|intros (_ & ? & _); lia]|].
    destruct (Z.gtb_spec (Z.of_nat (List.length value))
                (default (pw_maxLength options) 128%Z));
      [cbn [isValid invalid]; split; [discriminate|intros (_ & _ & ? & _); lia]|].
    destruct (default (requireUppercase options) true) eqn:Eu;
      destruct (existsb upper value) eqn:Hu; cbn [andb negb isValid invalid];
      try (split; [discriminate|intros (_ & _ & _ & Hx & _);
                                specialize (Hx eq_refl); discriminate]).
    all: destruct (default (requireLowercase options) true) eqn:El;
      destruct (existsb lower value) eqn:Hl; cbn [andb negb isValid invalid];
      try (split; [discriminate|intros (_ & _ & _ & _ & Hx & _);
                                specialize (Hx eq_refl); discriminate]).
    all: destruct (default (requireNumber options) true) eqn:Ed;
      destruct (existsb digit value) eqn:Hd; cbn [andb negb isValid invalid];
      try (split; [discriminate|intros (_ & _ & _ & _ & _ & Hx & _);
                                specialize (Hx eq_refl); discriminate]).
    all: destruct (default (requireSpecial options) true) eqn:Es;
      destruct (existsb special value) eqn:Hs; cbn [andb negb isValid invalid valid];
      try (split; [discriminate|intros (_ & _ & _ & _ & _ & _ & Hx);
                                specialize (Hx eq_refl); discriminate]).
    all: split; [intros _|reflexivity];
      repeat split; try discriminate; try lia; intros; congruence.
Qed.

Lemma validatePasswordStrength_accepts_witness :
  isValid (validatePasswordStrength (Some (js " Tr1cky pass ")) 
             (mkPasswordOptions None None None None None None)) = true.
Proof.
  apply (proj2 (validatePasswordStrength_accepts (Some (js " Tr1cky pass "))
                  (mkPasswordOptions None None None None None None))).
  repeat split; try discriminate; try reflexivity; cbn; lia.
Defined.

(** X20.  [validatePhoneNumber] accepts a value exactly when, after
    trimming, it is not empty and what is left once white space,
    dashes, parentheses and dots are removed is an optional [+], a
    digit from 1 to 9 and then 6 to 14 more digits: 7 to 15 digits in
    all, the first not 0. *)
Theorem validatePhoneNumber_accepts phone :
  let raw := normalizeValue phone in
  let normalized := filter (fun c => negb (separator c)) raw in
  isValid (validatePhoneNumber phone) = true
  <-> raw <> []
      /\ exists sign d ds,
          normalized = sign ++ d :: ds
          /\ (sign = [] \/ sign = js "+")
          /\ digit19 d = true
          /\ forallb digit ds = true
          /\ 6 <= List.length ds <= 14.
Proof.
  cbn zeta. unfold validatePhoneNumber.
  destruct (normalizeValue phone) as [|c v] eqn:En.
  - cbn. split; [discriminate|intros (H & _); now elim H].
  - rewrite <- PHONE_REGEX_spec.
    destruct (test PHONE_REGEX (filter (fun c0 => negb (separator c0)) (c :: v)));
      cbn [negb isValid valid invalid].
    + split; [intros _; split; [discriminate|reflexivity]|reflexivity].
    + split; [discriminate|intros (_ & H); exact H].
Qed.

Lemma validatePhoneNumber_accepts_witness :
  isValid (validatePhoneNumber (Some (js " +1 (415) 555-2671 "))) = true.
Proof.
  apply (proj2 (validatePhoneNumber_accepts (Some (js " +1 (415) 555-2671 ")))).
  split; [discriminate|].
  exists (js "+"), 49%N, (js "4155552671").
  repeat split; try reflexivity; try (now right); cbn; lia.
Defined.

Lemma notSpaceNorAt_all l :
  forallb notSpaceNorAt l = true ->
  count_occ N.eq_dec l 64%N = 0
  /\ forallb (fun c => negb (isSpace c)) l = true.
Proof.
  induction l as [|x l IH]; cbn [forallb count_occ]; [now split|].
  intros H. apply andb_prop in H. destruct H as [Hx Hl].
  destruct (IH Hl) as [Hc Hs]. unfold notSpaceNorAt in Hx.
  apply negb_true_iff, orb_false_iff in Hx. destruct Hx as [Hsp Hat].
  rewrite Hsp, Hs. split; [|reflexivity].
  destruct (N.eq_dec x 64) as [->|_]; [discriminate Hat|exact Hc].
Qed.

(** X21.  [validateEmail] accepts a value exactly when, after
    trimming, it has at most 254 code units and reads
    [local@domain.tld] with [local] and [domain] not empty, [tld] of
    at least two code units, and no white space and no further [@]
    anywhere.  So an accepted address holds exactly one [@] and no
    white space. *)
Theorem validateEmail_accepts email :
  let value := normalizeValue email in
  (isValid (validateEmail email) = true
   <-> List.length value <= 254
       /\ exists a b c,
           value = a ++ js "@" ++ b ++ js "." ++ c
           /\ a <> [] /\ b <> [] /\ 2 <= List.length c
           /\ forallb notSpaceNorAt a = true
           /\ forallb notSpaceNorAt b = true
           /\ forallb notSpaceNorAt c = true)
  /\ (isValid (validateEmail email) = true ->
      count_occ N.eq_dec value 64%N = 1
      /\ forallb (fun c => negb (isSpace c)) value = true).
Proof.
  cbn zeta.
  assert (Hiff : isValid (validateEmail email) = true
   <-> List.length (normalizeValue email) <= 254
       /\ exists a b c,
           normalizeValue email = a ++ js "@" ++ b ++ js "." ++ c
           /\ a <> [] /\ b <> [] /\ 2 <= List.length c
           /\ forallb notSpaceNorAt a = true
           /\ forallb notSpaceNorAt b = true
           /\ forallb notSpaceNorAt c = true).
  { unfold validateEmail.
    destruct (normalizeValue email) as [|x v] eqn:En.
    - cbn [isValid invalid]. split; [discriminate|].
      intros (_ & a & b & c & E & _). destruct a; discriminate E.
    - rewrite <- EMAIL_REGEX_spec.
      destruct (Nat.ltb_spec 254 (List.length (x :: v)));
        [cbn [isValid invalid]; split; [discriminate|intros (? & _); lia]|].
      destruct (test EMAIL_REGEX (x :: v)); cbn [negb isValid valid invalid].
      + split; [intros _; split; [assumption|reflexivity]|reflexivity].
      + split; [discriminate|intros (_ & H'); exact H']. }
  split; [exact Hiff|].
  intros H. apply Hiff in H. destruct H as (_ & a & b & c & -> & _ & _ & _ & Fa & Fb & Fc).
  destruct (notSpaceNorAt_all _ Fa) as [Ca Sa].
  destruct (notSpaceNorAt_all _ Fb) as [Cb Sb].
  destruct (notSpaceNorAt_all _ Fc) as [Cc Sc].
  split.
  - rewrite !count_occ_app, Ca, Cb, Cc. reflexivity.
  - rewrite !forallb_app, Sa, Sb, Sc. reflexivity.
Qed.

Lemma validateEmail_accepts_witness :
  isValid (validateEmail (Some (js " ada@example.org "))) = true
  /\ count_occ N.eq_dec (normalizeValue (Some (js " ada@example.org "))) 64%N = 1.
Proof.
  assert (H : isValid (validateEmail (Some (js " ada@example.org "))) = true).
  { apply (proj2 (proj1 (validateEmail_accepts (Some (js " ada@example.org "))))).
    split; [cbn; lia|].
    exists (js "ada"), (js "example"), (js "org").
    repeat split; try reflexivity; try discriminate. cbn. lia. }
  split; [exact H|].
  apply (proj2 (validateEmail_accepts (Some (js " ada@example.org "))) H).
Defined.

End ValidatorsFacts.


(* ================================================================== *)
(** * Properties of the logger                                         *)
(* ================================================================== *)

Module LoggerFacts.
Import Logger.

(** What [sendToRemote] adds. *)
Lemma sendToRemote_adds l t fails level line out :
  console (sendToRemote l t fails level line out)
  = console out ++
    match posts l with
    | Some _ => if fails then [(error, "Failed to send log to remote service:")] else []
    | None => []
    end
  /\ remote (sendToRemote l t fails level line out)
     = remote out ++
       match posts l with
       | Some url => [(url, (level, line, t))]
       | None => []
       end.
Proof.
  unfold sendToRemote, posts.
  destruct (enableRemote (config l)) as [[|]|];
    destruct (remoteUrl (config l)) as [url|];
    try destruct (Axios.truthy (Some url)); try destruct fails;
    cbn [console remote]; now rewrite ?app_nil_r.
Qed.

(** X22.  Outside development [debug] writes nothing and sends
    nothing; after [configure] with [isDevelopment] set, that setting
    decides, whatever the logger was built with.  Every other call
    writes its formatted line to the console, [error] twice, and
    posts it once to the remote address exactly when [enableRemote]
    is true and [remoteUrl] is not empty; a post that fails adds one
    console line and nothing else. *)
Theorem logger_output l t1 t2 (fails : bool) message data out :
  let failure :=
    match posts l with
    | Some _ => if fails then [(error, "Failed to send log to remote service:")] else []
    | None => []
    end in
  let post level :=
    match posts l with
    | Some url => [(url, (level, formatLog t1 level message data, t2))]
    | None => []
    end in
  (isDevelopment l = false -> log_debug l t1 t2 fails message data out = out)
  /\ (forall c b, cfg_isDevelopment c = Some b ->
                  isDevelopment (configure c l) = b)
  /\ (isDevelopment l = true ->
      console (log_debug l t1 t2 fails message data out)
      = console out ++ [(debug, formatLog t1 debug message data)] ++ failure
      /\ remote (log_debug l t1 t2 fails message data out) = remote out ++ post debug)
  /\ console (log_info l t1 t2 fails message data out)
     = console out ++ [(info, formatLog t1 info message data)] ++ failure
  /\ remote (log_info l t1 t2 fails message data out) = remote out ++ post info
  /\ console (log_warn l t1 t2 fails message data out)
     = console out ++ [(warn, formatLog t1 warn message data)] ++ failure
  /\ remote (log_warn l t1 t2 fails message data out) = remote out ++ post warn
  /\ console (log_error l t1 t2 fails message data out)
     = console out ++ [(error, formatLog t1 error message data);
                       (error, formatLog t1 error message data)] ++ failure
  /\ remote (log_error l t1 t2 fails message data out) = remote out ++ post error.
Proof.
  cbn zeta. unfold log_debug, log_info, log_warn, log_error. cbn [shouldLog negb].
  split; [now intros ->|].
  split; [intros c b H; unfold configure; cbn; now rewrite H|].
  split; [intros ->; cbn [negb]|];
    repeat split;
    match goal with
    | |- context [sendToRemote ?l ?t ?f ?lv ?ln ?o] =>
        destruct (sendToRemote_adds l t f lv ln o) as [Hc Hr];
        rewrite ?Hc, ?Hr; cbn [console remote]; rewrite <- ?app_assoc; reflexivity
    end.
Qed.

Lemma logger_output_witness :
  log_debug (create true (mkConfig (Some true) (Some "https://logs.example") (Some false)))
    "t1" "t2" false "cache miss" None (mkOutput [] []) = mkOutput [] []
  /\ isDevelopment
       (configure (mkConfig None None (Some true))
          (create false (mkConfig None None None))) = true
  /\ console (log_debug (create true (mkConfig None None None))
                "t1" "t2" false "cache miss" None (mkOutput [] []))
     = [(debug, "[t1] [DEBUG] cache miss")].
Proof.
  split; [|split].
  - apply (proj1 (logger_output
             (create true (mkConfig (Some true) (Some "https://logs.example") (Some false)))
             "t1" "t2" false "cache miss" None (mkOutput [] []))).
    reflexivity.
  - apply (proj1 (proj2 (logger_output
             (create false (mkConfig None None None))
             "t1" "t2" false "cache miss" None (mkOutput [] [])))
             (mkConfig None None (Some true)) true).
    reflexivity.
  - apply (proj1 (proj1 (proj2 (proj2 (logger_output
             (create true (mkConfig None None None))
             "t1" "t2" false "cache miss" None (mkOutput [] [])))) eq_refl)).
Defined.

End LoggerFacts.
